(** * tile-stitch: a shallow embedding of [stitch.c]

    The development follows [src/src/stitch.c]: the slippy-map projection
    ([latlon2tile], [tile2latlon]), the argument handling and raster geometry of
    [main], the per-tile compositing loop, and the elevation pass; then the
    presets and the URL of a tile, the buffers of a transfer and of the PNG
    reader, the rows of a decoded image, the georeference and the name of the
    world file.

    Conventions.
    - [unsigned char], [int], [unsigned int] and [long long] values are integers
      of [Z]; where the C type wraps, the wrap-around is written out ([u32],
      [s32]).
    - [double] is the primitive binary64 type [float], whose operations round
      exactly as IEEE 754 double arithmetic does (round to nearest even, no
      extended precision).
    - The pixel buffers are lists of bytes addressed by offset, as the code
      addresses them; an access outside the list is a memory fault and is
      modelled by [None] / [Fault].
    - C strings are values of [string], without their terminator; a read
      behind the terminator is a fault as well.
    - Where C leaves the result of an arithmetic conversion or shift undefined
      (an out-of-range [double] to integer conversion, a shift count outside the
      width), the hardware still produces some value.  That value is left to
      the parameters [wild_uchar], [wild_uint] and [wild_shift], so that every
      statement below holds whatever the platform does there. *)

From Stdlib Require Import ZArith Bool Floats Uint63 Lia Ascii.
From stdpp Require Import base option list strings.

Local Open Scope Z_scope.

(** ** Machine integers *)

Module C.

(** [unsigned int] arithmetic is arithmetic modulo [2^32]. *)
Definition u32 (z : Z) : Z := z mod 2 ^ 32.

(** Conversion of an [unsigned int] (or wider) value to [int]: two's
    complement wrap-around, as GCC and Clang define it. *)
Definition s32 (z : Z) : Z := (z + 2 ^ 31) mod 2 ^ 32 - 2 ^ 31.

Definition EXIT_FAILURE : Z := 1.

End C.

(** ** Doubles *)

Module Dbl.

(** An integer value converted to [double]; exact below [2^53],
    rounded to nearest above. *)
Definition of_Z (z : Z) : float :=
  if Z.abs z <? 2 ^ 63 then
    if z <? 0 then (- of_uint63 (Uint63.of_Z (- z)))%float
    else of_uint63 (Uint63.of_Z z)
  else SF2Prim (binary_normalize prec emax z 0 false).

(** The integral part of a finite double, [None] for NaN and infinities. *)
Definition trunc (f : float) : option Z :=
  match Prim2SF f with
  | S754_zero _ => Some 0
  | S754_finite s m e =>
      let mag := if 0 <=? e then Z.shiftl (Zpos m) e
                 else Z.shiftr (Zpos m) (- e) in
      Some (if s then - mag else mag)
  | S754_infinity _ | S754_nan => None
  end.

(** [round] of <math.h>: to the nearest integer, halfway cases away from
    zero; the result is again a double. *)
Definition round_mag (m : positive) (e : Z) : Z :=
  Z.shiftr (Z.shiftr (Zpos m) (- e - 1) + 1) 1.

Definition round (f : float) : float :=
  match Prim2SF f with
  | S754_finite s m e =>
      if 0 <=? e then f
      else let q := of_Z (round_mag m e) in
           if s then (- q)%float else q
  | _ => f
  end.

(** [M_PI] of <math.h>. *)
Definition M_PI : float := 0x1.921fb54442d18p+1%float.

End Dbl.

(** ** Conversions that C leaves undefined when out of range *)

Section Conversions.

(** What a conversion to [unsigned char], respectively [unsigned int],
    leaves behind when the operand's integral part does not fit. *)
Variable wild_uchar : float -> Z.
Variable wild_uint : float -> Z.

(** [(unsigned char) f] *)
Definition uchar_of_double (f : float) : Z :=
  match Dbl.trunc f with
  | Some z => if (0 <=? z) && (z <? 256) then z else wild_uchar f mod 256
  | None => wild_uchar f mod 256
  end.

(** [(unsigned int) f] *)
Definition uint_of_double (f : float) : Z :=
  match Dbl.trunc f with
  | Some z => if (0 <=? z) && (z <? 2 ^ 32) then z else C.u32 (wild_uint f)
  | None => C.u32 (wild_uint f)
  end.

(** What a shift leaves behind when its count is negative or not below the
    width of the shifted type. *)
Variable wild_shift : Z -> Z -> Z.

(** [x >> c] on an [unsigned int]. *)
Definition shr_u32 (x c : Z) : Z :=
  if (0 <=? c) && (c <? 32) then Z.shiftr x c else C.u32 (wild_shift x c).

(** [x << c] on an [int]; bits shifted past the sign are dropped, as GCC
    documents for signed [<<]. *)
Definition shl_s32 (x c : Z) : Z :=
  if (0 <=? c) && (c <? 32) then C.s32 (Z.shiftl x c)
  else C.s32 (wild_shift x c).

(** [1LL << c], stored in an [unsigned long long]. *)
Definition shl_1LL (c : Z) : Z :=
  if (0 <=? c) && (c <? 64) then Z.shiftl 1 c
  else wild_shift 1 c mod 2 ^ 64.

End Conversions.

(** ** Pixel buffers *)

(** [buf[k]] as an rvalue. *)
Definition load (buf : list Z) (k : Z) : option Z :=
  if k <? 0 then None else buf !! Z.to_nat k.

(** [buf[k] = v] *)
Definition store (buf : list Z) (k v : Z) : option (list Z) :=
  if (0 <=? k) && (k <? Z.of_nat (length buf))
  then Some (<[Z.to_nat k := v]> buf) else None.

(** The values an [unsigned char] takes. *)
Definition is_byte (b : Z) : Prop := 0 <= b < 256.

(** The four bytes of pixel [k] of an RGBA buffer. *)
Definition pixel_at (buf : list Z) (k : Z) : option (Z * Z * Z * Z) :=
  r ← load buf (4 * k);
  g ← load buf (4 * k + 1);
  b ← load buf (4 * k + 2);
  a ← load buf (4 * k + 3);
  Some (r, g, b, a).

(** [struct image] *)
Record image := Image {
  i_buf : list Z;
  i_depth : Z;
  i_width : Z;
  i_height : Z
}.

(** A C [for] loop whose counter runs through [idx], in a monad [M] that
    carries the effects of the body (a memory fault, or the trace and exit of
    the process). *)
Fixpoint for_each {M : Type -> Type} `{!MBind M, !MRet M} {I S : Type}
    (body : I -> S -> M S) (idx : list I) (s : S) : M S :=
  match idx with
  | [] => mret s
  | k :: idx' => s' ← body k s; for_each body idx' s'
  end.

Section Compositor.

Variable wild_uchar : float -> Z.

Local Abbreviation uchar := (uchar_of_double wild_uchar).

(** Lines 532-552: the [depth == 4] branch.  [as], [rs], [gs], [bs] are read
    from the canvas and [ad], [rd], [gd], [bd] from the tile; the blue canvas
    sample is read at [offset * 4 + 2]. *)
Definition blend_rgba (buf : list Z) (i : image) (offset ioffset : Z)
  : option (list Z) :=
  c3 ← load buf (offset + 3);
  c0 ← load buf (offset + 0);
  c1 ← load buf (offset + 1);
  c2 ← load buf (offset * 4 + 2);
  t3 ← load (i_buf i) (ioffset + 3);
  t0 ← load (i_buf i) (ioffset + 0);
  t1 ← load (i_buf i) (ioffset + 1);
  t2 ← load (i_buf i) (ioffset + 2);
  let as_ := (Dbl.of_Z c3 / 255)%float in
  let rs := (Dbl.of_Z c0 / 255 * as_)%float in
  let gs := (Dbl.of_Z c1 / 255 * as_)%float in
  let bs := (Dbl.of_Z c2 / 255 * as_)%float in
  let ad := (Dbl.of_Z t3 / 255)%float in
  let rd := (Dbl.of_Z t0 / 255 * ad)%float in
  let gd := (Dbl.of_Z t1 / 255 * ad)%float in
  let bd := (Dbl.of_Z t2 / 255 * ad)%float in
  let ar := (as_ * (1 - ad) + ad)%float in
  let rr := (rs * (1 - ad) + rd)%float in
  let gr := (gs * (1 - ad) + gd)%float in
  let br := (bs * (1 - ad) + bd)%float in
  buf ← store buf (offset + 3) (uchar (ar * 255)%float);
  buf ← store buf (offset + 0) (uchar (rr / ar * 255)%float);
  buf ← store buf (offset + 1) (uchar (gr / ar * 255)%float);
  store buf (offset + 2) (uchar (br / ar * 255)%float).

(** Lines 553-557: the [depth == 3] branch. *)
Definition copy_rgb (buf : list Z) (i : image) (offset ioffset : Z)
  : option (list Z) :=
  t0 ← load (i_buf i) (ioffset + 0);
  buf ← store buf (offset + 0) t0;
  t1 ← load (i_buf i) (ioffset + 1);
  buf ← store buf (offset + 1) t1;
  t2 ← load (i_buf i) (ioffset + 2);
  buf ← store buf (offset + 2) t2;
  store buf (offset + 3) 255.

(** Lines 558-563: the final [else] branch. *)
Definition copy_gray (buf : list Z) (i : image) (offset ioffset : Z)
  : option (list Z) :=
  t0 ← load (i_buf i) (ioffset + 0);
  buf ← store buf (offset + 0) t0;
  t0 ← load (i_buf i) (ioffset + 0);
  buf ← store buf (offset + 1) t0;
  t0 ← load (i_buf i) (ioffset + 0);
  buf ← store buf (offset + 2) t0;
  store buf (offset + 3) 255.

(** Line 525: the clipping test. *)
Definition clipped (width height xd yd : Z) : bool :=
  (xd <? 0) || (yd <? 0) || (xd >=? width) || (yd >=? height).

(** Lines 522-563: the body of the two pixel loops, for the tile pixel
    [(x, y)].  The products stay far below [2^31] for a canvas that passed
    the size guard, so [int] arithmetic is exact here. *)
Definition place_pixel (width height : Z) (i : image) (xoff yoff : Z)
    (y x : Z) (buf : list Z) : option (list Z) :=
  let xd := x + xoff in
  let yd := y + yoff in
  if clipped width height xd yd then Some buf
  else
    let offset := ((y + yoff) * width + x + xoff) * 4 in
    let ioffset := (y * i_width i + x) * i_depth i in
    if i_depth i =? 4 then blend_rgba buf i offset ioffset
    else if i_depth i =? 3 then copy_rgb buf i offset ioffset
    else copy_gray buf i offset ioffset.

(** Lines 520-565: [for (y ...) for (x ...)]. *)
Definition place_tile (width height : Z) (i : image) (xoff yoff : Z)
    (buf : list Z) : option (list Z) :=
  for_each
    (fun y => for_each (place_pixel width height i xoff yoff y)
                       (seqZ 0 (i_width i)))
    (seqZ 0 (i_height i)) buf.

End Compositor.

(** ** Projection *)

Section Projection.

Variable wild_uint : float -> Z.
Variable wild_shift : Z -> Z -> Z.

(** [log], [tan], [cos], [atan] and [sinh] of <math.h>. *)
Variables log tan cos atan sinh : float -> float.

(** Lines 105-111.  The results [*x] and [*y] are returned as a pair. *)
Definition latlon2tile (lat lon : float) (zoom : Z) : Z * Z :=
  let lat_rad := (lat * Dbl.M_PI / 180)%float in
  let n := shl_1LL wild_shift zoom in
  let x := uint_of_double wild_uint
             (Dbl.of_Z n * ((lon + 180) / 360))%float in
  let y :=
    uint_of_double wild_uint
      (Dbl.of_Z n
       * (1 - (log (tan lat_rad + 1 / cos lat_rad) / Dbl.M_PI)) / 2)%float in
  (x, y).

(** Lines 114-119.  The results [*lat] and [*lon] are returned as a pair. *)
Definition tile2latlon (x y : Z) (zoom : Z) : float * float :=
  let n := shl_1LL wild_shift zoom in
  let lon := (360 * Dbl.of_Z x / Dbl.of_Z n - 180)%float in
  let lat_rad :=
    atan (sinh (Dbl.M_PI * (1 - 2 * Dbl.of_Z y / Dbl.of_Z n))%float) in
  let lat := (lat_rad * 180 / Dbl.M_PI)%float in
  (lat, lon).

End Projection.

(** ** The process: trace, exit and fault *)

(** [enum outfileformat] *)
Inductive outfileformat := OUTFMT_PNG | OUTFMT_GEOTIFF.

(** The error lines [main] writes to [stderr] (the "==" diagnostics are not
    recorded). *)
Inductive message :=
  | Usage
  | Zoom_less_than_0 (zoom : Z)
  | No_outfile_and_terminal
  | Width_height_less_than_0 (width height : Z)
  | Thats_too_big
  | Cant_retrieve
  | Dont_recognize_file_format
  | Got_tile_not (width height tilesize : Z)
  | Cant_write_TIFF_to_stdout
  | Cant_write_worldfile_to_stdout.

(** What the process does that can be observed from outside. *)
Inductive event :=
  | Stderr (m : message)
  | Malloc (size : Z)
  | Fetch (source : string) (zoom tx ty : Z)
  | Write_image (fmt : outfileformat) (file : option string)
                (width height : Z) (buf : list Z)
  | Write_worldfile (file : string).

(** How a computation ends: it goes on with a value, the process exits with a
    status, or a memory access outside an object stops it. *)
Inductive outcome (A : Type) :=
  | Ret (a : A)
  | Exit (status : Z)
  | Fault.
Arguments Ret {A} a.
Arguments Exit {A} status.
Arguments Fault {A}.

Definition run (A : Type) : Type := list event * outcome A.

#[export] Instance run_ret : MRet run := fun A a => ([], Ret a).

#[export] Instance run_bind : MBind run := fun A B f m =>
  match m with
  | (t, Ret a) => let '(t', o) := f a in (t ++ t', o)
  | (t, Exit status) => (t, Exit status)
  | (t, Fault) => (t, Fault)
  end.

Definition emit (e : event) : run unit := ([e], Ret tt).

(** [fprintf(stderr, ...); exit(EXIT_FAILURE);] *)
Definition die {A : Type} (m : message) : run A :=
  ([Stderr m], Exit C.EXIT_FAILURE).

(** A buffer operation inside the process. *)
Definition mem {A : Type} (o : option A) : run A :=
  match o with
  | Some a => ([], Ret a)
  | None => ([], Fault)
  end.

(** ** Elevation pass (lines 578-626) *)

Record stats := Stats {
  s_offset : Z;
  min_elevation : Z;
  max_elevation : Z;
  avg_elevation : float;
  counter : Z
}.

(** [(buf[offset] << 16) + (buf[offset+1] << 8) + buf[offset+2]], stored in a
    [uint32_t]. *)
Definition pixel_elevation (buf : list Z) (offset : Z) : option Z :=
  b0 ← load buf offset;
  b1 ← load buf (offset + 1);
  b2 ← load buf (offset + 2);
  Some (C.u32 (Z.shiftl b0 16 + Z.shiftl b1 8 + b2)).

(** Lines 591-600: the body of the first pair of loops. *)
Definition scan_pixel (buf : list Z) (st : stats) : option stats :=
  pe ← pixel_elevation buf (s_offset st);
  let mn := if pe <? min_elevation st then pe else min_elevation st in
  let mx := if max_elevation st <? pe then pe else max_elevation st in
  let cnt := C.u32 (counter st + 1) in
  let avg := (avg_elevation st
              + (Dbl.of_Z pe - avg_elevation st) / Dbl.of_Z cnt)%float in
  Some (Stats (s_offset st + 4) mn mx avg cnt).

(** Lines 584-589: [offset = 0], [min_elevation = 0xFFFFFF],
    [max_elevation = 0], [avg_elevation = 0], [counter = 0]. *)
Definition stats0 : stats := Stats 0 16777215 0 0%float 0.

(** Lines 589-602.  Neither loop body reads [x] or [y]. *)
Definition elevation_stats (width height : Z) (buf : list Z) : option stats :=
  for_each (fun _ => for_each (fun _ => scan_pixel buf) (seqZ 0 width))
           (seqZ 0 height) stats0.

(** Lines 611-615. *)
Definition elevation_ratio (st : stats) : float :=
  if min_elevation st <? max_elevation st
  then (255 / Dbl.of_Z (C.u32 (max_elevation st - min_elevation st)))%float
  else 1%float.

Section Elevation.

Variable wild_uchar : float -> Z.

(** Lines 621-623: the body of the second pair of loops; the state is the
    buffer and [offset].  The three stores run right to left. *)
Definition rewrite_pixel (min_el : Z) (ratio : float) (s : list Z * Z)
  : option (list Z * Z) :=
  let '(buf, offset) := s in
  pe ← pixel_elevation buf offset;
  let v := uchar_of_double wild_uchar
             (Dbl.round (Dbl.of_Z (C.u32 (pe - min_el)) * ratio)%float) in
  buf ← store buf (offset + 2) v;
  buf ← store buf (offset + 1) v;
  buf ← store buf offset v;
  Some (buf, offset + 4).

(** Lines 578-626 without the diagnostics: both passes. *)
Definition normalize_elevation (width height : Z) (buf : list Z)
  : option (list Z) :=
  st ← elevation_stats width height buf;
  s ← for_each
        (fun _ => for_each
           (fun _ => rewrite_pixel (min_elevation st) (elevation_ratio st))
           (seqZ 0 width))
        (seqZ 0 height) (buf, 0);
  Some s.1.

End Elevation.

(** ** [main] *)

(** A numeric word of the command line, as [atof] and as [atoi] read it. *)
Record arg := Arg { atof : float; atoi : Z }.

(** The command line after [getopt]: the options, whether [stdout] is a
    terminal, the five numeric words [argv[optind .. optind+4]] and the tile
    sources [argv[optind+5 ..]].  (With fewer than five words left [main]
    prints the usage and exits, as it does with no source.) *)
Record cmdline := Cmdline {
  outfile : option string;
  tilesize : Z;
  centered : bool;
  elevation : bool;
  outfmt : outfileformat;
  writeworldfile : bool;
  stdout_isatty : bool;
  argv0 : arg;
  argv1 : arg;
  argv2 : arg;
  argv3 : arg;
  argv4 : arg;
  sources : list string
}.

(** Lines 345-355: the two conditional swaps. *)
Definition order_bounds (minlat minlon maxlat maxlon : float)
  : float * float * float * float :=
  let '(minlat, maxlat) :=
    if (maxlat <? minlat)%float then (maxlat, minlat) else (minlat, maxlat) in
  let '(minlon, maxlon) :=
    if (maxlon <? minlon)%float then (maxlon, minlon) else (minlon, maxlon) in
  (minlat, minlon, maxlat, maxlon).

(** The corners of the raster on the zoom-32 tile grid, with the geographic
    bounds that go with them. *)
Record bounds := Bounds {
  x1 : Z; y1 : Z; x2 : Z; y2 : Z;
  minlat : float; minlon : float; maxlat : float; maxlon : float
}.

(** Lines 388-407: tile range, sub-tile offset and raster size. *)
Record raster := Raster {
  tx1 : Z; ty1 : Z; tx2 : Z; ty2 : Z;
  xa : Z; ya : Z;
  width : Z; height : Z
}.

(** The magic numbers of lines 493 and 495. *)
Definition is_png (data : list Z) : bool :=
  bool_decide (take 4 data = [137; 80; 78; 71]).

Definition is_jpeg (data : list Z) : bool :=
  bool_decide (take 2 data = [255; 216]).

Section Main.

Variable wild_uchar : float -> Z.
Variable wild_uint : float -> Z.
Variable wild_shift : Z -> Z -> Z.
Variables log tan cos atan sinh : float -> float.

(** The tile server: the bytes received for a source at [(zoom, tx, ty)], or
    [None] when the transfer fails (lines 434-489). *)
Variable fetch : string -> Z -> Z -> Z -> option (list Z).

(** The decoders; [None] when no image comes back. *)
Variables read_png read_jpeg : list Z -> option image.

Local Abbreviation latlon2tile :=
  (latlon2tile wild_uint wild_shift log tan cos).
Local Abbreviation tile2latlon := (tile2latlon wild_shift atan sinh).
Local Abbreviation shr := (shr_u32 wild_shift).
Local Abbreviation shl := (shl_s32 wild_shift).

(** Lines 376-382: the zoom-32 position [c1] (and its copy [c2]) of the centre
    is moved out by half the raster size in both directions, and the bounds
    are read back from the two corners. *)
Definition centered_bounds (zoom width height : Z) (c1 c2 : Z * Z) : bounds :=
  let '(x1, y1) := c1 in
  let '(x2, y2) := c2 in
  let x1 := C.u32 (x1 - shl width (32 - (zoom + 8)) `quot` 2) in
  let y1 := C.u32 (y1 - shl height (32 - (zoom + 8)) `quot` 2) in
  let x2 := C.u32 (x2 + shl width (32 - (zoom + 8)) `quot` 2) in
  let y2 := C.u32 (y2 + shl height (32 - (zoom + 8)) `quot` 2) in
  let '(maxlat, minlon) := tile2latlon x1 y1 32 in
  let '(minlat, maxlon) := tile2latlon x2 y2 32 in
  Bounds x1 y1 x2 y2 minlat minlon maxlat maxlon.

(** Lines 364-386, on the values [box] that [minlat], [minlon], [maxlat] and
    [maxlon] hold after the swaps. *)
Definition resolve (cl : cmdline) (zoom : Z)
    (box : float * float * float * float) : run bounds :=
  let '(minlat, minlon, maxlat, maxlon) := box in
  if centered cl then
    let c1 := latlon2tile minlat minlon 32 in
    let c2 := latlon2tile minlat minlon 32 in
    let width := atoi (argv2 cl) in
    let height := atoi (argv3 cl) in
    if (width <=? 0) || (height <=? 0) then
      die (Width_height_less_than_0 width height)
    else mret (centered_bounds zoom width height c1 c2)
  else
    let '(x1, y1) := latlon2tile maxlat minlon 32 in
    let '(x2, y2) := latlon2tile minlat maxlon 32 in
    mret (Bounds x1 y1 x2 y2 minlat minlon maxlat maxlon).

(** Lines 388-407. *)
Definition raster_of (cl : cmdline) (zoom : Z) (b : bounds) : raster :=
  let tx1 := shr (x1 b) (32 - zoom) in
  let ty1 := shr (y1 b) (32 - zoom) in
  let tx2 := shr (x2 b) (32 - zoom) in
  let ty2 := shr (y2 b) (32 - zoom) in
  let xa := C.u32 (Z.land (shr (x1 b) (32 - (zoom + 8))) 255 * tilesize cl)
            / 256 in
  let ya := C.u32 (Z.land (shr (y1 b) (32 - (zoom + 8))) 255 * tilesize cl)
            / 256 in
  let width :=
    C.s32 (C.u32 ((shr (x2 b) (32 - (zoom + 8))
                   - shr (x1 b) (32 - (zoom + 8))) * tilesize cl) / 256) in
  let height :=
    C.s32 (C.u32 ((shr (y2 b) (32 - (zoom + 8))
                   - shr (y1 b) (32 - (zoom + 8))) * tilesize cl) / 256) in
  Raster tx1 ty1 tx2 ty2 xa ya width height.

(** Lines 505-565: the decoded tile, if any, is checked and placed. *)
Definition handle_image (cl : cmdline) (r : raster) (xoff yoff : Z)
    (i : option image) (buf : list Z) : run (list Z) :=
  match i with
  | None => ([], Exit C.EXIT_FAILURE)
  | Some i =>
      if negb (i_height i =? tilesize cl) || negb (i_width i =? tilesize cl)
      then die (Got_tile_not (i_width i) (i_height i) (tilesize cl))
      else mem (place_tile wild_uchar (width r) (height r) i xoff yoff buf)
  end.

(** Lines 493-565: what happens to the bytes of one transfer.  Bytes that
    start with neither magic number are reported and the loop continues. *)
Definition handle_data (cl : cmdline) (r : raster) (xoff yoff : Z)
    (data : list Z) (buf : list Z) : run (list Z) :=
  if is_png data then handle_image cl r xoff yoff (read_png data) buf
  else if is_jpeg data then handle_image cl r xoff yoff (read_jpeg data) buf
  else emit (Stderr Dont_recognize_file_format);; mret buf.

(** Lines 433-569: the body of the loop over the sources, for tile
    [(tx, ty)]. *)
Definition stitch_source (cl : cmdline) (zoom : Z) (r : raster) (tx ty : Z)
    (source : string) (buf : list Z) : run (list Z) :=
  let xoff := C.s32 ((tx - tx1 r) * tilesize cl - xa r) in
  let yoff := C.s32 ((ty - ty1 r) * tilesize cl - ya r) in
  emit (Fetch source zoom tx ty);;
  match fetch source zoom tx ty with
  | None => die Cant_retrieve
  | Some data => handle_data cl r xoff yoff data buf
  end.

(** Lines 427-571: the three nested loops. *)
Definition assemble (cl : cmdline) (zoom : Z) (r : raster) (buf : list Z)
  : run (list Z) :=
  for_each (fun tx =>
    for_each (fun ty buf =>
      for_each (stitch_source cl zoom r tx ty) (sources cl) buf)
      (seqZ (ty1 r) (ty2 r - ty1 r + 1)))
    (seqZ (tx1 r) (tx2 r - tx1 r + 1)) buf.

(** Lines 628-787: the image and the world file are handed to the writers. *)
Definition write_out (cl : cmdline) (r : raster) (buf : list Z) : run unit :=
  match outfmt cl, outfile cl with
  | OUTFMT_GEOTIFF, None => die Cant_write_TIFF_to_stdout
  | fmt, file => emit (Write_image fmt file (width r) (height r) buf)
  end;;
  if writeworldfile cl then
    match outfile cl with
    | Some file => emit (Write_worldfile file)
    | None => emit (Stderr Cant_write_worldfile_to_stdout)
    end
  else mret tt.

(** Lines 328-788. *)
Definition main (cl : cmdline) : run Z :=
  if bool_decide (sources cl = []) then die Usage
  else
    let zoom := atoi (argv4 cl) in
    if zoom <? 0 then die (Zoom_less_than_0 zoom)
    else
      let box :=
        order_bounds (atof (argv0 cl)) (atof (argv1 cl))
                     (atof (argv2 cl)) (atof (argv3 cl)) in
      if bool_decide (outfile cl = None) && stdout_isatty cl
      then die No_outfile_and_terminal
      else
        b ← resolve cl zoom box;
        let r := raster_of cl zoom b in
        let dim := width r * height r in
        if 10000 * 10000 <? dim then die Thats_too_big
        else
          emit (Malloc (dim * 4));;
          buf ← (if dim <? 0 then ([], Fault)
                 else mret (replicate (Z.to_nat (dim * 4)) 0));
          buf ← assemble cl zoom r buf;
          buf ← (if elevation cl
                 then mem (normalize_elevation wild_uchar
                             (width r) (height r) buf)
                 else mret buf);
          write_out cl r buf;;
          mret 0.

End Main.

(** ** Presets (lines 23-87) *)

(** The array [presets] without its terminating null pointer: name,
    description and URL template of each preset, one after the other. *)
Definition presets : list string := [
  "aws:terrarium";
  "Amazon AWS open elevation map (Terrarium format)";
  "https://s3.amazonaws.com/elevation-tiles-prod/terrarium/{z}/{x}/{y}.png";

  "aws:normal";
  "Amazon AWS open elevation map (normal vector format)";
  "https://s3.amazonaws.com/elevation-tiles-prod/normal/{z}/{x}/{y}.png";

  "gmaps";
  "Google Maps standard road map";
  "http://mt.google.com/vt/lyrs=m&x={x}&y={y}&z={z}";

  "gmaps:satellite";
  "Google Maps satellite imagery";
  "http://mt.google.com/vt/lyrs=s&x={x}&y={y}&z={z}";

  "gmaps:hybrid";
  "Google Maps hybrid map";
  "http://mt.google.com/vt/lyrs=y&x={x}&y={y}&z={z}";

  "ocm";
  "OpenCycleMaps tiles (watermarked)";
  "http://tile.thunderforest.com/cycle/{z}/{x}/{y}.png";

  "osm";
  "OpenStreetMaps standard tiles";
  "http://tile.openstreetmap.org/{z}/{x}/{y}.png";

  "stamen:terrain";
  "Stamen terrain tiles";
  "http://tile.stamen.com/terrain/{z}/{x}/{y}.jpg";

  "stamen:toner";
  "Stamen toner tiles";
  "http://tile.stamen.com/toner/{z}/{x}/{y}.png";

  "stamen:watercolor";
  "Stamen watercolor tiles";
  "http://tile.stamen.com/watercolor/{z}/{x}/{y}.jpg";

  "tf:landscape";
  "Thunderforest landscape map tiles (watermarked)";
  "http://tile.thunderforest.com/landscape/{z}/{x}/{y}.png";

  "tf:outdoors";
  "Thunderforest outdoors map tiles (watermarked)";
  "http://tile.thunderforest.com/outdoors/{z}/{x}/{y}.png";

  "tf:transport";
  "Thunderforest transport map tiles (watermarked)";
  "http://tile.thunderforest.com/transport/{z}/{x}/{y}.png"
]%string.

(** Lines 80-86: the loop [for (ptr = table; *ptr != 0; ptr += 3)]. *)
Fixpoint find_url (table : list string) (name default_url : string) : string :=
  match table with
  | key :: _ :: url :: table' =>
      if decide (key = name) then url else find_url table' name default_url
  | _ => default_url
  end.

(** Lines 79-87. *)
Definition find_preset_url (name default_url : string) : string :=
  find_url presets name default_url.

(** ** The URL of a tile (lines 434-464) *)

(** The characters [sprintf] writes for ["%u"] and ["%d"]: the decimal digits,
    most significant first, of a value below [10^10]. *)
Definition digit (d : Z) : ascii := ascii_of_nat (48 + Z.to_nat d).

Fixpoint decimal (fuel : nat) (n : Z) (acc : string) : string :=
  match fuel with
  | O => acc
  | S fuel' =>
      let acc' := String (digit (n mod 10)) acc in
      if n / 10 =? 0 then acc' else decimal fuel' (n / 10) acc'
  end.

(** [sprintf(out, "%u", n)] for an [unsigned int]. *)
Definition sprintf_u (n : Z) : string := decimal 10 n "".

(** [sprintf(out, "%d", n)] for an [int]. *)
Definition sprintf_d (n : Z) : string :=
  if n <? 0 then String "-" (decimal 10 (- n) "") else decimal 10 n "".

(** How the loop of lines 440-462 ends: with the string [url2] (and the
    number of calls made to [rand]), with the message "Unknown format token"
    and [EXIT_FAILURE], or with a read behind the terminator of [url]. *)
Inductive expansion :=
  | Expanded (url2 : string) (rand_calls : nat)
  | Unknown_format_token (c : ascii)
  | Read_past_terminator.

Section Url.

(** [rand] of <stdlib.h>: the value of its [k]-th call. *)
Variable rand : nat -> Z.

Variables zoom tx ty : Z.

(** Lines 440-462.  [cp] is the rest of [url] from the pointer [cp] on, [out]
    the characters written to [url2] so far, and [end_] the size of [url2].
    In [cp[2] == '}'] the character [cp[1]] may be the terminator of [url],
    and [cp[2]] then lies behind it. *)
Fixpoint expand_from (end_ : Z) (cp : string) (out : string) (calls : nat)
  : expansion :=
  match cp with
  | EmptyString => Expanded out calls
  | String c rest =>
      if Z.of_nat (String.length out) <? end_ - 10 then
        if Ascii.eqb c "{" then
          match rest with
          | EmptyString => Read_past_terminator
          | String c1 rest1 =>
              match rest1 with
              | String c2 rest2 =>
                  if Ascii.eqb c2 "}" then
                    if Ascii.eqb c1 "z" then
                      expand_from end_ rest2 (out +:+ sprintf_d zoom) calls
                    else if Ascii.eqb c1 "x" then
                      expand_from end_ rest2 (out +:+ sprintf_u tx) calls
                    else if Ascii.eqb c1 "y" then
                      expand_from end_ rest2 (out +:+ sprintf_u ty) calls
                    else if Ascii.eqb c1 "s" then
                      let c := ascii_of_nat
                                 (Z.to_nat (97 + Z.rem (rand calls) 3)) in
                      expand_from end_ rest2 (out +:+ String c "") (S calls)
                    else Unknown_format_token c1
                  else expand_from end_ rest (out +:+ String c "") calls
              | EmptyString =>
                  expand_from end_ rest (out +:+ String c "") calls
              end
          end
        else expand_from end_ rest (out +:+ String c "") calls
      else Expanded out calls
  end.

(** Lines 434-464: [end = strlen(url) + 50]; [cp = url], [out = url2]. *)
Definition expand (url : string) (calls : nat) : expansion :=
  expand_from (Z.of_nat (String.length url) + 50) url "" calls.

(** Line 434 with the loop: the URL requested for the source [argv[opt]]. *)
Definition tile_url (source : string) (calls : nat) : expansion :=
  expand (find_preset_url source source) calls.

End Url.

(** ** Blocks of memory *)

(** A value converted to [size_t] (64 bits). *)
Definition size_t (z : Z) : Z := z mod 2 ^ 64.

(** [memcpy(dst + off, src, n)], where [src] holds the [n] bytes read: the
    bytes must fit into the block [dst]. *)
Definition memcpy (dst : list Z) (off : Z) (src : list Z) : option (list Z) :=
  if (0 <=? off) && (off + Z.of_nat (length src) <=? Z.of_nat (length dst))
  then Some (take (Z.to_nat off) dst ++ src
             ++ drop (Z.to_nat off + length src) dst)
  else None.

(** The [n] bytes at [src + off]; they must lie inside the block [src]. *)
Definition bytes_at (src : list Z) (off n : Z) : option (list Z) :=
  if (0 <=? off) && (0 <=? n) && (off + n <=? Z.of_nat (length src))
  then Some (take (Z.to_nat n) (drop (Z.to_nat off) src))
  else None.

Section Allocation.

(** What a byte of fresh memory holds, by its index in the block. *)
Variable fresh : nat -> Z.

(** [malloc(n)] for a [size_t n]: memory is assumed to suffice for every
    request below [2^63] bytes; no larger request can be met. *)
Definition malloc (n : Z) : option (list Z) :=
  if n <? 2 ^ 63 then Some (fresh <$> seq 0 (Z.to_nat n)) else None.

(** [realloc(block, n)]: the old bytes are kept as far as they fit. *)
Definition realloc (block : list Z) (n : Z) : option (list Z) :=
  if n <? 2 ^ 63
  then Some (take (Z.to_nat n)
               (block ++ (fresh <$> seq (length block)
                                        (Z.to_nat n - length block))))
  else None.

(** ** Receiving a transfer (lines 129-157) *)

(** [struct data]; [d_buf] is the block [buf] points to, empty for [NULL]. *)
Record data := Data { d_buf : list Z; d_len : Z; d_nalloc : Z }.

(** Lines 145-157, for a chunk of [size * nmemb] bytes at [ptr]: the new
    state of [*data] and the value returned to libcurl. *)
Definition curl_receive (chunk : list Z) (d : data) : option (data * Z) :=
  let n := Z.of_nat (length chunk) in
  d ← (if size_t (d_nalloc d) <=? size_t (size_t (d_len d) + n) then
         let nalloc := C.s32 (size_t (size_t (d_nalloc d) + n + 50000)) in
         buf ← realloc (d_buf d) (size_t nalloc);
         Some (Data buf (d_len d) nalloc)
       else Some d);
  buf ← memcpy (d_buf d) (d_len d) chunk;
  Some (Data buf (C.s32 (size_t (size_t (d_len d) + n))) (d_nalloc d), n).

(** Lines 473-484: libcurl hands the chunks of a transfer to [curl_receive]
    one after the other, and gives up when a call does not return the size of
    its chunk. *)
Definition receive (chunks : list (list Z)) : option data :=
  for_each (fun chunk d =>
              '(d, n) ← curl_receive chunk d;
              if n =? Z.of_nat (length chunk) then Some d else None)
           chunks (Data [] 0 0).

End Allocation.

(** ** Reading a PNG from memory (lines 203-218) *)

(** [struct read_state] *)
Record read_state := Read_state { rs_base : list Z; rs_off : Z; rs_len : Z }.

(** Lines 209-218: [length] bytes are asked for and copied to [data]; the new
    contents of [data] and of [*state]. *)
Definition user_read_data (data : list Z) (length_ : Z) (state : read_state)
  : option (list Z * read_state) :=
  let length_ :=
    if size_t (rs_len state) <? size_t (size_t (rs_off state) + length_)
    then size_t (rs_len state - rs_off state) else length_ in
  src ← bytes_at (rs_base state) (rs_off state) length_;
  data ← memcpy data 0 src;
  Some (data, Read_state (rs_base state)
                (C.s32 (size_t (size_t (rs_off state) + length_)))
                (rs_len state)).

(** ** The decoded image (lines 170-184 and 253-265) *)

Section Decoders.

Variable fresh : nat -> Z.

(** Lines 253-265 of [read_png], on what libpng reports once the image is
    decoded: [width] and [height] ([png_get_IHDR]), the number of channels
    ([png_get_channels]), the size of a row ([png_get_rowbytes]) and the rows
    ([png_get_rows]). *)
Definition read_png_image (width height channels rowbytes : Z)
    (row_pointers : list (list Z)) : option image :=
  let i_width := C.s32 width in
  let i_height := C.s32 height in
  let i_depth := channels in
  buf ← malloc fresh (size_t (C.s32 (i_width * i_height * i_depth)));
  let row_bytes := C.u32 rowbytes in
  buf ← for_each (fun n buf =>
                    row ← row_pointers !! Z.to_nat n;
                    src ← bytes_at row 0 row_bytes;
                    memcpy buf (C.u32 (row_bytes * n)) src)
                 (seqZ 0 i_height) buf;
  Some (Image buf i_depth i_width i_height).

(** Lines 170-184 of [read_jpeg], on what libjpeg reports after
    [jpeg_start_decompress] and on the scanlines that the calls of
    [jpeg_read_scanlines] leave in [buffer[0]], one per call. *)
Definition read_jpeg_image (output_width output_height output_components : Z)
    (scanlines : list (list Z)) : option image :=
  let row_stride := C.s32 (C.u32 (output_width * output_components)) in
  buf ← malloc fresh
        (C.u32 (output_width * output_height * output_components));
  s ← for_each (fun n (s : list Z * Z) =>
                  let '(buf, here) := s in
                  line ← scanlines !! Z.to_nat n;
                  src ← bytes_at line 0 (size_t row_stride);
                  buf ← memcpy buf here src;
                  Some (buf, here + row_stride))
               (seqZ 0 output_height) (buf, 0);
  Some (Image s.1 output_components (C.s32 output_width)
              (C.s32 output_height)).

End Decoders.

(** ** The name of the world file (lines 748-763) *)

(** Lines 748-752. *)
Definition worldfilext (fmt : outfileformat) : string :=
  match fmt with
  | OUTFMT_PNG => ".pnw"
  | OUTFMT_GEOTIFF => ".tfw"
  end.

(** Lines 755-760: the loop [for (i = ...; i > 0; i--)], from [i] down; the
    index at which it breaks, if it does. *)
Fixpoint find_dot (name : string) (i : nat) : option nat :=
  match i with
  | O => None
  | S i' =>
      if decide (String.get i name = Some "."%char) then Some i
      else find_dot name i'
  end.

(** Lines 754-763.  [strncpy] copies at most 1020 characters and adds the
    terminator only when [outfile] is shorter: a longer name leaves the array
    without terminator, and [strlen] then reads behind what was copied. *)
Definition worldfile_filename (fmt : outfileformat) (outfile : string)
  : option string :=
  if (String.length outfile <? 1020)%nat then
    match find_dot outfile (String.length outfile - 1) with
    | Some i => Some (String.substring 0 i outfile +:+ worldfilext fmt)
    | None => Some (outfile +:+ worldfilext fmt)
    end
  else None.

(** ** Georeference (lines 121-127, 393-395, 410-411, 694-695, 765-770) *)

Section Georeference.

(** [log] and [tan] of <math.h>. *)
Variables log tan : float -> float.

(** Lines 122-127; [originshift] is the double nearest to
    20037508.342789244.  The results [*x] and [*y] are returned as a pair. *)
Definition projectlatlon (lat lon : float) : float * float :=
  let originshift := 0x1.31bf8457c1093p+24%float in
  let x := (lon * originshift / 180)%float in
  let y := (log (tan ((90 + lat) * Dbl.M_PI / 360))
            / (Dbl.M_PI / 180))%float in
  let y := (y * originshift / 180)%float in
  (x, y).

(** The projected corners and the size of a pixel. *)
Record georeference := Georeference {
  minx : float; miny : float; maxx : float; maxy : float;
  px : float; py : float
}.

(** Lines 393-395 and 410-411. *)
Definition georeference_of (b : bounds) (r : raster) : georeference :=
  let '(minx, miny) := projectlatlon (minlat b) (minlon b) in
  let '(maxx, maxy) := projectlatlon (maxlat b) (maxlon b) in
  let px := ((maxx - minx) / Dbl.of_Z (width r))%float in
  let py := (abs (maxy - miny) / Dbl.of_Z (height r))%float in
  Georeference minx miny maxx maxy px py.

End Georeference.

(** Lines 694-695: the pixel scale and the tie point of the GeoTIFF. *)
Definition pixscale (g : georeference) : list float := [px g; py g; 0%float].

Definition tiepoints (g : georeference) : list float :=
  [0%float; 0%float; 0%float; minx g; maxy g; 0%float].

(** Lines 765-770: the six lines of the world file. *)
Definition wfvals (g : georeference) : list float :=
  [px g; 0%float; 0%float; (- py g)%float; minx g; maxy g].

(** * Auxiliary definitions *)

(** ** Concrete inputs *)

(** A command line with tiles of one pixel, and the raster of a canvas of one
    pixel. *)
Definition one_pixel_cmdline : cmdline :=
  Cmdline (Some "out.png") 1 false false OUTFMT_PNG false false
          (Arg 0 0) (Arg 0 0) (Arg 0 0) (Arg 0 0) (Arg 1 1) ["osm"].

Definition one_pixel_raster : raster := Raster 0 0 0 0 0 0 1 1.

(** A server that answers the tile of column 0 with an HTML page and every
    other tile with a PNG; a PNG decoder that gives a 1x1 RGB tile; a decoder
    that gives no image. *)
Definition html_then_png (source : string) (zoom tx ty : Z) : option (list Z) :=
  if tx =? 0 then Some [60; 104; 116; 109; 108; 62]
  else Some [137; 80; 78; 71; 13; 10; 26; 10].

Definition one_pixel_png (data : list Z) : option image :=
  Some (Image [9; 9; 9] 3 1 1).

Definition no_jpeg (data : list Z) : option image := None.

(** An 8x1 canvas of opaque pixels: pixel 1 is (10,20,30) and pixel 4 is
    (0,0,99). *)
Definition blue_canvas : list Z :=
  [0; 0; 0; 255;  10; 20; 30; 255;  0; 0; 0; 255;  0; 0; 0; 255;
   0; 0; 99; 255;  0; 0; 0; 255;  0; 0; 0; 255;  0; 0; 0; 255].

(** A 2x2 RGBA tile whose four pixels have alpha 0. *)
Definition transparent_tile : image :=
  Image [1; 2; 3; 0;  4; 5; 6; 0;  7; 8; 9; 0;  1; 1; 1; 0] 4 2 2.

(** Stand-ins for the functions of <math.h>, used only to run the model on
    concrete command lines: the first-order approximations at the origin
    ([tan x ~ x], [cos x ~ 1], [log x ~ x - 1], [atan x ~ x], [sinh x ~ x]). *)
Module Standin.

Definition log (x : float) : float := (x - 1)%float.
Definition tan (x : float) : float := x.
Definition cos (x : float) : float := 1%float.
Definition atan (x : float) : float := x.
Definition sinh (x : float) : float := x.

(** Out-of-range conversions and shifts give 0; no tile can be fetched. *)
Definition zero1 (f : float) : Z := 0.
Definition zero2 (x c : Z) : Z := 0.
Definition no_tiles (source : string) (zoom tx ty : Z) : option (list Z) :=
  None.

Definition main : cmdline -> run Z :=
  main zero1 zero1 zero2 log tan cos atan sinh no_tiles no_jpeg no_jpeg.

End Standin.

(** [stitch -o out.png 0 0 0.5 0.5 -1 osm] *)
Definition negative_zoom_cmdline : cmdline :=
  Cmdline (Some "out.png") 256 false false OUTFMT_PNG false false
          (Arg 0 0) (Arg 0 0) (Arg 0.5 0) (Arg 0.5 0) (Arg (-1) (-1)) ["osm"].

(** Centered mode around (0, 0) with width 0 and height 600, zoom 14. *)
Definition zero_width_cmdline : cmdline :=
  Cmdline (Some "out.png") 256 true false OUTFMT_PNG false false
          (Arg 0 0) (Arg 0 0) (Arg 0 0) (Arg 600 600) (Arg 14 14) ["osm"].

(** [stitch -o out.png -45 -90 45 90 14 osm]: half of the world at zoom 14. *)
Definition half_world_cmdline : cmdline :=
  Cmdline (Some "out.png") 256 false false OUTFMT_PNG false false
          (Arg (-45) (-45)) (Arg (-90) (-90)) (Arg 45 45) (Arg 90 90)
          (Arg 14 14) ["osm"].

(** [stitch -o out.png 47.5 19 30 -15 14 osm]: the corners are given north
    first and east first. *)
Definition unordered_corners_cmdline : cmdline :=
  Cmdline (Some "out.png") 256 false false OUTFMT_PNG false false
          (Arg 47.5 47) (Arg 19 19) (Arg 30 30) (Arg (-15) (-15))
          (Arg 14 14) ["osm"].

(** [stitch -o out.png -c 47.5 19 40 10 14 osm]: a raster of 40x10 pixels
    around 47.5 N, 19 E. *)
Definition small_centered_cmdline : cmdline :=
  Cmdline (Some "out.png") 256 true false OUTFMT_PNG false false
          (Arg 47.5 47) (Arg 19 19) (Arg 40 40) (Arg 10 10)
          (Arg 14 14) ["osm"].

(** A 3x1 canvas whose packed values are 256, 512 and 768. *)
Definition three_elevations : list Z :=
  [0; 1; 0; 255;  0; 2; 0; 128;  0; 3; 0; 77].

(** A 2x2 RGB tile of one colour. *)
Definition plain_tile (r g b : Z) : image :=
  Image [r; g; b;  r; g; b;  r; g; b;  r; g; b] 3 2 2.

(** A server whose PNG for column [tx] carries [tx] as its ninth byte, and a
    decoder that gives a red tile for column 0 and a blue tile otherwise. *)
Definition column_server (source : string) (zoom tx ty : Z)
  : option (list Z) :=
  Some [137; 80; 78; 71; 13; 10; 26; 10; tx].

Definition red_or_blue (data : list Z) : option image :=
  match data !! 8%nat with
  | Some 0 => Some (plain_tile 255 0 0)
  | _ => Some (plain_tile 0 0 255)
  end.

(** [stitch -o out.png -t 2 ... 1 osm] *)
Definition two_pixel_tiles_cmdline : cmdline :=
  Cmdline (Some "out.png") 2 false false OUTFMT_PNG false false
          (Arg 0 0) (Arg 0 0) (Arg 0 0) (Arg 0 0) (Arg 1 1) ["osm"].

(** ** Definitions used in the proofs *)

(** [n] runs of a loop body that does not read the loop counter. *)
Fixpoint iterate {St : Type} (n : nat) (body : St -> option St) (s : St)
  : option St :=
  match n with
  | O => Some s
  | S n' => s' ← body s; iterate n' body s'
  end.

(** The elevation held by pixel [k]: 0 when the pixel is outside the buffer. *)
Definition elevation_at (buf : list Z) (k : nat) : Z :=
  default 0 (pixel_elevation buf (4 * Z.of_nat k)).

(** The byte the second pass computes for a pixel of elevation [pe]. *)
Definition gray_of (wild_uchar : float -> Z) (min_el : Z) (ratio : float)
    (pe : Z) : Z :=
  uchar_of_double wild_uchar
    (Dbl.round (Dbl.of_Z (C.u32 (pe - min_el)) * ratio)%float).

(** The test run on every difference [d = max_elevation - min_elevation]:
    [d * (255 / d)] lies in [[254.5, 255.5)] and [0 * (255 / d)] is zero. *)
Definition ratio_ok (i : int) : bool :=
  (i =? 0)%uint63
  || (let d := of_uint63 i in
      let ratio := (255 / d)%float in
      (254.5 <=? d * ratio)%float && (d * ratio <? 255.5)%float
      && (0 * ratio =? 0)%float).

(** [ratio_ok] on the [2^k] integers from [lo] on. *)
Fixpoint ratio_ok_from (k : nat) (lo : int) : bool :=
  match k with
  | O => ratio_ok lo
  | S k' => ratio_ok_from k' lo
            && ratio_ok_from k' (lo + (1 << Uint63.of_Z (Z.of_nat k')))%uint63
  end.

(** [ad] for a tile pixel of alpha 255. *)
Definition ad_opaque : float := (Dbl.of_Z 255 / 255)%float.

(** Over any canvas sample [c] of alpha [a], the canvas term of the blend
    vanishes and the result alpha is one. *)
Definition opaque_canvas_ok (a c : Z) : bool :=
  let as_ := (Dbl.of_Z a / 255)%float in
  PrimFloat.Leibniz.eqb (Dbl.of_Z c / 255 * as_ * (1 - ad_opaque))%float 0%float
  && PrimFloat.Leibniz.eqb (as_ * (1 - ad_opaque) + ad_opaque)%float 1%float.

(** The tile sample [t] comes back from the stores. *)
Definition opaque_tile_ok (t : Z) : bool :=
  match Dbl.trunc ((0 + Dbl.of_Z t / 255 * ad_opaque) / 1 * 255)%float with
  | Some z => z =? t
  | None => false
  end.

(** A sequence of byte stores, first to last. *)
Fixpoint apply_writes (ws : list (nat * Z)) (buf : list Z) : list Z :=
  match ws with
  | [] => buf
  | (j, v) :: ws' => apply_writes ws' (<[j := v]> buf)
  end.

(** The value the last store to cell [k] leaves there, if any. *)
Fixpoint last_write (ws : list (nat * Z)) (k : nat) : option Z :=
  match ws with
  | [] => None
  | (j, v) :: ws' =>
      match last_write ws' k with
      | Some v' => Some v'
      | None => if decide (j = k) then Some v else None
      end
  end.

(** A step that, on a buffer long enough, performs stores that do not depend
    on what the buffer holds. *)
Definition blind (step : list Z -> option (list Z)) : Prop :=
  exists (ok : nat -> bool) (ws : list (nat * Z)),
    forall buf, step buf
                = if ok (length buf) then Some (apply_writes ws buf) else None.

(** ** Further inputs and definitions *)

(** A [rand] that always returns 0, and the template of the usage line for
    the OpenStreetMap server. *)
Definition rand_zero (k : nat) : Z := 0.

Definition osm_template : string :=
  "http://tile.openstreetmap.org/{z}/{x}/{y}.png".


(** The names of a preset table. *)
Fixpoint names_of (table : list string) : list string :=
  match table with
  | key :: _ :: _ :: table' => key :: names_of table'
  | _ => []
  end.

(** The URL templates of a preset table. *)
Fixpoint urls_of (table : list string) : list string :=
  match table with
  | _ :: _ :: url :: table' => url :: urls_of table'
  | _ => []
  end.

(** Whether a character is a decimal digit, whether a string consists of
    digits, and whether a string is empty or begins with a character that is
    no digit. *)
Definition is_digit (c : ascii) : bool :=
  (48 <=? nat_of_ascii c)%nat && (nat_of_ascii c <=? 57)%nat.

Fixpoint all_digits (s : string) : bool :=
  match s with
  | EmptyString => true
  | String c s' => is_digit c && all_digits s'
  end.

Definition no_digit_first (s : string) : bool :=
  match s with
  | EmptyString => true
  | String c _ => negb (is_digit c)
  end.

(** The number of opening braces of a string. *)
Fixpoint braces (s : string) : nat :=
  match s with
  | EmptyString => O
  | String c s' => if Ascii.eqb c "{" then S (braces s') else braces s'
  end.

(** Whether every token the loop of lines 440-462 finds in a template is one
    of [{z}], [{x}] and [{y}], and no brace ends the template. *)
Fixpoint numeric_template (cp : string) : bool :=
  match cp with
  | EmptyString => true
  | String c rest =>
      if Ascii.eqb c "{" then
        match rest with
        | EmptyString => false
        | String c1 rest1 =>
            match rest1 with
            | String c2 rest2 =>
                if Ascii.eqb c2 "}" then
                  (Ascii.eqb c1 "z" || Ascii.eqb c1 "x" || Ascii.eqb c1 "y")
                  && numeric_template rest2
                else numeric_template rest
            | EmptyString => numeric_template rest
            end
        end
      else numeric_template rest
  end.

Section Substitution.

Variable rand : nat -> Z.
Variables zoom tx ty : Z.

(** The template with its tokens replaced, whatever the length. *)
Fixpoint substitute_from (cp : string) (out : string) (calls : nat)
  : expansion :=
  match cp with
  | EmptyString => Expanded out calls
  | String c rest =>
      if Ascii.eqb c "{" then
        match rest with
        | EmptyString => Read_past_terminator
        | String c1 rest1 =>
            match rest1 with
            | String c2 rest2 =>
                if Ascii.eqb c2 "}" then
                  if Ascii.eqb c1 "z" then
                    substitute_from rest2 (out +:+ sprintf_d zoom) calls
                  else if Ascii.eqb c1 "x" then
                    substitute_from rest2 (out +:+ sprintf_u tx) calls
                  else if Ascii.eqb c1 "y" then
                    substitute_from rest2 (out +:+ sprintf_u ty) calls
                  else if Ascii.eqb c1 "s" then
                    let c := ascii_of_nat
                               (Z.to_nat (97 + Z.rem (rand calls) 3)) in
                    substitute_from rest2 (out +:+ String c "") (S calls)
                  else Unknown_format_token c1
                else substitute_from rest (out +:+ String c "") calls
            | EmptyString => substitute_from rest (out +:+ String c "") calls
            end
        end
      else substitute_from rest (out +:+ String c "") calls
  end.

End Substitution.

(** Fresh memory that holds zeros. *)
Definition fresh_zero (k : nat) : Z := 0.

(** What [curl_receive] keeps true of [*data]: the block has [nalloc] bytes,
    of which the first [len] are in use, and it is never more than twice as
    large as needed, plus 50000. *)
Definition data_ok (d : data) : Prop :=
  0 <= d_len d <= d_nalloc d
  /\ Z.of_nat (length (d_buf d)) = d_nalloc d
  /\ d_nalloc d <= 2 * d_len d + 50000.

(** Successive calls of [user_read_data], the [k]-th for [requests !! k]
    bytes into a buffer of that size: the bytes the calls copied, one after
    the other, and the final state. *)
Fixpoint read_sequence (requests : list Z) (state : read_state)
  : option (list Z * read_state) :=
  match requests with
  | [] => Some ([], state)
  | length_ :: requests' =>
      '(data, state') ← user_read_data (replicate (Z.to_nat length_) 0)
                                       length_ state;
      let copied := take (Z.to_nat (rs_off state' - rs_off state)) data in
      '(rest, state'') ← read_sequence requests' state';
      Some (copied ++ rest, state'')
  end.

Definition sum_list_Z (l : list Z) : Z := foldr Z.add 0 l.

(** Whether a string holds a dot. *)
Fixpoint has_dot (s : string) : bool :=
  match s with
  | EmptyString => false
  | String c s' => Ascii.eqb c "." || has_dot s'
  end.

(** A string without its first character. *)
Definition string_tail (s : string) : string :=
  match s with
  | EmptyString => EmptyString
  | String _ s' => s'
  end.

(** The half of the world of [half_world_cmdline] with tiles of two pixels,
    at zoom 1: a canvas of 2x1 pixels, and its corners on the zoom-32 grid. *)
Definition two_pixel_half_world_cmdline : cmdline :=
  Cmdline (Some "out.png") 2 false false OUTFMT_PNG true false
          (Arg (-45) (-45)) (Arg (-90) (-90)) (Arg 45 45) (Arg 90 90)
          (Arg 1 1) ["osm"].

Definition half_world_bounds : bounds :=
  Bounds 1073741824 1610612736 3221225472 2684354560 (-45) (-90) 45 90.

(** The tile [red_or_blue] decodes from what [column_server] sends. *)
Definition red_or_blue_tile (source : string) (tx ty : Z) : image :=
  if tx =? 0 then plain_tile 255 0 0 else plain_tile 0 0 255.


(** A 4x2 canvas after a red 2x2 tile has been placed in its left half. *)
Definition left_half_red : list Z :=
  [255; 0; 0; 255;  255; 0; 0; 255;  0; 0; 0; 0;  0; 0; 0; 0;
   255; 0; 0; 255;  255; 0; 0; 255;  0; 0; 0; 0;  0; 0; 0; 0].


(** Sample [c] (0, 1 or 2) of the tile pixel [(x, y)] as the branches without
    alpha read it: the three samples of a pixel of depth 3, and the first
    sample three times otherwise. *)
Definition tile_sample (i : image) (x y c : Z) : option Z :=
  load (i_buf i)
       ((y * i_width i + x) * i_depth i + (if i_depth i =? 3 then c else 0)).

(** The events that put an image on disk or on [stdout]. *)
Definition is_write_image (e : event) : bool :=
  match e with
  | Write_image _ _ _ _ _ => true
  | _ => false
  end.

(** The messages that come with [EXIT_FAILURE]. *)
Definition is_fatal (e : event) : bool :=
  match e with
  | Stderr Dont_recognize_file_format
  | Stderr Cant_write_worldfile_to_stdout => false
  | Stderr _ => true
  | _ => false
  end.

(** A computation that has written no image, and that has printed no fatal
    message if it goes on. *)
Definition quiet {A : Type} (m : run A) : Prop :=
  existsb is_write_image m.1 = false
  /\ (forall a, m.2 = Ret a -> existsb is_fatal m.1 = false).

(** A computation in which an image is written only when no fatal message
    has been printed. *)
Definition orderly {A : Type} (m : run A) : Prop :=
  existsb is_write_image m.1 = true -> existsb is_fatal m.1 = false.

(** The value a computation goes on with, if it does. *)
Definition result {A : Type} (m : run A) : option A :=
  match m.2 with
  | Ret a => Some a
  | _ => None
  end.

(** Lines 493-503: the decoder chosen by the first bytes of a transfer. *)
Definition decoded (read_png read_jpeg : list Z -> option image)
    (data : list Z) : option image :=
  if is_png data then read_png data
  else if is_jpeg data then read_jpeg data
  else None.

(** A tile of the configured size, without alpha channel, whose buffer holds
    all its samples. *)
Definition whole_opaque_tile (cl : cmdline) (i : image) : Prop :=
  i_width i = tilesize cl /\ i_height i = tilesize cl
  /\ 1 <= i_depth i /\ i_depth i <> 4
  /\ Z.of_nat (length (i_buf i)) = i_width i * i_height i * i_depth i.

(** The transfers among the events. *)
Definition is_fetch (e : event) : bool :=
  match e with
  | Fetch _ _ _ _ => true
  | _ => false
  end.

(** The transfers of a complete run of the loops of lines 427-433: every
    tile column, in it every tile row, and for it every source. *)
Definition requests (cl : cmdline) (zoom : Z) (r : raster) : list event :=
  tx ← seqZ (tx1 r) (tx2 r - tx1 r + 1);
  ty ← seqZ (ty1 r) (ty2 r - ty1 r + 1);
  (fun source => Fetch source zoom tx ty) <$> sources cl.

(** A computation whose transfers are the first of [expected], and all of
    them if it goes on. *)
Definition fetches {A : Type} (m : run A) (expected : list event) : Prop :=
  List.filter is_fetch m.1 `prefix_of` expected
  /\ (forall a, m.2 = Ret a -> List.filter is_fetch m.1 = expected).

(** A double that is not negative: NaN, or a zero, a number or an infinity
    with the sign bit clear. *)
Definition sign_clear (f : spec_float) : Prop :=
  match f with
  | S754_nan => True
  | S754_zero s | S754_infinity s | S754_finite s _ _ => s = false
  end.

(** * Properties *)

(** ** Loops *)

Lemma for_each_option_skip {I S : Type} (body : I -> S -> option S)
    (idx : list I) (s : S) :
  (forall k, k ∈ idx -> body k s = Some s) ->
  for_each body idx s = Some s.
Proof.
  induction idx as [|k idx IH]; intros Hbody; [reflexivity|].
  cbn [for_each]. rewrite Hbody by apply list_elem_of_here. simpl.
  apply IH. intros k' Hk'. apply Hbody. by apply list_elem_of_further.
Qed.

(** ** Clipping *)

Section Clipping.

Variable wild_uchar : float -> Z.
Variables width height : Z.
Variable i : image.
Variables xoff yoff : Z.

Lemma clipped_true xd yd :
  clipped width height xd yd = true <->
  ~ (0 <= xd < width /\ 0 <= yd < height).
Proof. unfold clipped. rewrite !orb_true_iff. lia. Qed.

(** C5.  A tile pixel whose destination [(x + xoff, y + yoff)] lies outside
    [[0,width) x [0,height)] is passed over: the loop body returns the buffer
    it was given, without fault.  Hence a tile all of whose pixels land
    outside the canvas leaves every byte of the buffer as it was. *)
Theorem clipped_pixels_are_skipped :
  (forall x y buf,
      ~ (0 <= x + xoff < width /\ 0 <= y + yoff < height) ->
      place_pixel wild_uchar width height i xoff yoff y x buf = Some buf)
  /\ ((forall x y, 0 <= x < i_width i -> 0 <= y < i_height i ->
          ~ (0 <= x + xoff < width /\ 0 <= y + yoff < height)) ->
      forall buf,
        place_tile wild_uchar width height i xoff yoff buf = Some buf).
Proof.
  assert (Hpix : forall x y buf,
             ~ (0 <= x + xoff < width /\ 0 <= y + yoff < height) ->
             place_pixel wild_uchar width height i xoff yoff y x buf
             = Some buf).
  { intros x y buf Hout. unfold place_pixel.
    apply clipped_true in Hout. by rewrite Hout. }
  split; [exact Hpix|].
  intros Hall buf. unfold place_tile.
  apply for_each_option_skip. intros y Hy.
  apply for_each_option_skip. intros x Hx.
  apply elem_of_seqZ in Hy. apply elem_of_seqZ in Hx.
  apply Hpix, Hall; lia.
Qed.

End Clipping.

(** A 2x2 RGBA tile placed 5 columns to the right of a 4x2 canvas. *)
Lemma clipped_pixels_are_skipped_witness :
  (forall x y, 0 <= x < 2 -> 0 <= y < 2 ->
     ~ (0 <= x + 5 < 4 /\ 0 <= y + 0 < 2))
  /\ place_tile (fun _ => 0) 4 2
       (Image [1; 2; 3; 4; 5; 6; 7; 8; 9; 10; 11; 12; 13; 14; 15; 16] 4 2 2)
       5 0 (replicate 32 9)
     = Some (replicate 32 9).
Proof.
  assert (H : forall x y, 0 <= x < 2 -> 0 <= y < 2 ->
                ~ (0 <= x + 5 < 4 /\ 0 <= y + 0 < 2)) by lia.
  split; [exact H|].
  exact (proj2 (clipped_pixels_are_skipped (fun _ => 0) 4 2
                  (Image [1; 2; 3; 4; 5; 6; 7; 8; 9; 10; 11; 12; 13; 14; 15; 16]
                         4 2 2) 5 0) H (replicate 32 9)).
Defined.

(** ** Channel depth *)

Lemma store_in_range (buf : list Z) (k v : Z) :
  0 <= k < Z.of_nat (length buf) ->
  store buf k v = Some (<[Z.to_nat k := v]> buf).
Proof.
  intros Hk. unfold store.
  destruct (0 <=? k) eqn:H0; [|lia].
  destruct (k <? Z.of_nat (length buf)) eqn:H1; [reflexivity|lia].
Qed.

Section Depth.

Variable wild_uchar : float -> Z.

(** C2, as the code has it.  The dispatch on [i->depth] has no error branch:
    a decoded tile of the configured size is always handed to the pixel
    loops, and when its depth is neither 4 nor 3 (1, but also 2, 5, ...)
    every pixel that lands inside the canvas is written by the final [else]:
    the first byte of the source pixel goes to R, G and B and alpha becomes
    255. *)
Theorem other_depths_are_placed_as_gray (cl : cmdline) (r : raster)
    (xoff yoff : Z) (i : image) (buf : list Z) :
  i_depth i <> 4 -> i_depth i <> 3 ->
  (i_width i = tilesize cl -> i_height i = tilesize cl ->
     handle_image wild_uchar cl r xoff yoff (Some i) buf
     = mem (place_tile wild_uchar (width r) (height r) i xoff yoff buf))
  /\ (forall x y t,
        0 <= x + xoff < width r -> 0 <= y + yoff < height r ->
        let offset := ((y + yoff) * width r + x + xoff) * 4 in
        offset + 3 < Z.of_nat (length buf) ->
        load (i_buf i) ((y * i_width i + x) * i_depth i + 0) = Some t ->
        place_pixel wild_uchar (width r) (height r) i xoff yoff y x buf
        = Some (<[Z.to_nat (offset + 3) := 255]>
                  (<[Z.to_nat (offset + 2) := t]>
                     (<[Z.to_nat (offset + 1) := t]>
                        (<[Z.to_nat (offset + 0) := t]> buf))))).
Proof.
  intros H4 H3. split.
  - intros Hw Hh. unfold handle_image.
    rewrite Hw, Hh, Z.eqb_refl. reflexivity.
  - intros x y t Hx Hy offset Hlen Ht. unfold place_pixel.
    assert (Hin : clipped (width r) (height r) (x + xoff) (y + yoff) = false).
    { apply not_true_is_false. rewrite clipped_true. tauto. }
    rewrite Hin.
    apply Z.eqb_neq in H4, H3. rewrite H4, H3.
    fold offset. unfold copy_gray. rewrite Ht. simpl.
    assert (0 <= offset) by (unfold offset; nia).
    rewrite store_in_range by lia. simpl.
    rewrite store_in_range by (rewrite length_insert; lia). simpl.
    rewrite store_in_range by (rewrite !length_insert; lia). simpl.
    rewrite store_in_range by (rewrite !length_insert; lia).
    reflexivity.
Qed.

End Depth.

(** C2 fails on the code: a 1x1 tile of depth 2 (gray and alpha, as libpng
    yields for a gray-alpha PNG) is placed on a 1x1 canvas; the process goes on
    without any error, and the pixel has been written. *)
Lemma depth_2_tile_is_written :
  handle_image (fun _ => 0) one_pixel_cmdline one_pixel_raster 0 0
    (Some (Image [7; 200] 2 1 1)) [0; 0; 0; 0]
  = ([], Ret [7; 7; 7; 255]).
Proof. reflexivity. Qed.

Lemma other_depths_are_placed_as_gray_witness :
  handle_image (fun _ => 0) one_pixel_cmdline one_pixel_raster 0 0
    (Some (Image [7; 200] 2 1 1)) [0; 0; 0; 0]
  = mem (place_tile (fun _ => 0) 1 1 (Image [7; 200] 2 1 1) 0 0 [0; 0; 0; 0])
  /\ place_pixel (fun _ => 0) 1 1 (Image [7; 200] 2 1 1) 0 0 0 0 [0; 0; 0; 0]
     = Some [7; 7; 7; 255].
Proof.
  pose proof (other_depths_are_placed_as_gray (fun _ => 0) one_pixel_cmdline
                one_pixel_raster 0 0 (Image [7; 200] 2 1 1) [0; 0; 0; 0])
    as [Hrun Hpix]; [simpl; lia | simpl; lia |].
  split.
  - apply Hrun; reflexivity.
  - apply (Hpix 0 0 7); simpl; (lia || reflexivity).
Defined.

(** ** Unrecognized tile data *)

Section Formats.

Variable wild_uchar : float -> Z.
Variables read_png read_jpeg : list Z -> option image.

(** C3, as the code has it.  Bytes that start with neither the PNG nor the
    JPEG magic number are reported on [stderr] and passed over: the buffer
    is handed on as it was and the loop goes on.  The process exits with a
    failure status when bytes that do carry a magic number give no image. *)
Theorem unrecognized_data_is_passed_over (cl : cmdline) (r : raster)
    (xoff yoff : Z) (data buf : list Z) :
  (is_png data = false -> is_jpeg data = false ->
     handle_data wild_uchar read_png read_jpeg cl r xoff yoff data buf
     = ([Stderr Dont_recognize_file_format], Ret buf))
  /\ (is_png data = true -> read_png data = None ->
        handle_data wild_uchar read_png read_jpeg cl r xoff yoff data buf
        = ([], Exit C.EXIT_FAILURE))
  /\ (is_png data = false -> is_jpeg data = true -> read_jpeg data = None ->
        handle_data wild_uchar read_png read_jpeg cl r xoff yoff data buf
        = ([], Exit C.EXIT_FAILURE)).
Proof.
  unfold handle_data. repeat split.
  - intros -> ->. reflexivity.
  - intros -> ->. reflexivity.
  - intros -> -> ->. reflexivity.
Qed.

End Formats.

(** C3 fails on the code: on a 2x1 canvas covered by the tiles of columns 0
    and 1, the bytes of the first tile are not recognized; the run does not
    exit, it fetches and places the second tile and ends with the first pixel
    still zero. *)
Lemma unrecognized_tile_leaves_a_hole :
  assemble (fun _ => 0) html_then_png one_pixel_png no_jpeg
    one_pixel_cmdline 1 (Raster 0 0 1 0 0 0 2 1) [0; 0; 0; 0; 0; 0; 0; 0]
  = ([Fetch "osm" 1 0 0; Stderr Dont_recognize_file_format;
      Fetch "osm" 1 1 0],
     Ret [0; 0; 0; 0; 9; 9; 9; 255]).
Proof. reflexivity. Qed.

Lemma unrecognized_data_is_passed_over_witness :
  handle_data (fun _ => 0) one_pixel_png no_jpeg one_pixel_cmdline
    one_pixel_raster 0 0 [60; 104; 116; 109; 108; 62] [0; 0; 0; 0]
  = ([Stderr Dont_recognize_file_format], Ret [0; 0; 0; 0])
  /\ handle_data (fun _ => 0) no_jpeg no_jpeg one_pixel_cmdline
       one_pixel_raster 0 0 [137; 80; 78; 71] [0; 0; 0; 0]
     = ([], Exit C.EXIT_FAILURE)
  /\ handle_data (fun _ => 0) one_pixel_png no_jpeg one_pixel_cmdline
       one_pixel_raster 0 0 [255; 216; 255] [0; 0; 0; 0]
     = ([], Exit C.EXIT_FAILURE).
Proof.
  split; [|split].
  - exact (proj1 (unrecognized_data_is_passed_over (fun _ => 0) one_pixel_png
                    no_jpeg one_pixel_cmdline one_pixel_raster 0 0
                    [60; 104; 116; 109; 108; 62] [0; 0; 0; 0])
                 eq_refl eq_refl).
  - exact (proj1 (proj2 (unrecognized_data_is_passed_over (fun _ => 0) no_jpeg
                           no_jpeg one_pixel_cmdline one_pixel_raster 0 0
                           [137; 80; 78; 71] [0; 0; 0; 0]))
                 eq_refl eq_refl).
  - exact (proj2 (proj2 (unrecognized_data_is_passed_over (fun _ => 0)
                           one_pixel_png no_jpeg one_pixel_cmdline
                           one_pixel_raster 0 0 [255; 216; 255] [0; 0; 0; 0]))
                 eq_refl eq_refl eq_refl).
Defined.

(** ** Blending a transparent tile *)

(** C1 at a failing input.  The tile is placed one row above the canvas, so
    that its second row covers pixels 0 and 1.  Every source pixel is fully
    transparent, yet the blue byte of pixel 1 changes from 30 to 99: the blend
    takes the canvas blue sample from [buf[offset * 4 + 2]], which for pixel 1
    is the blue byte of pixel 4. *)
Lemma transparent_tile_alters_blue (wild_uchar : float -> Z) :
  place_tile wild_uchar 8 1 transparent_tile 0 (-1) blue_canvas
  = Some [0; 0; 0; 255;  10; 20; 99; 255;  0; 0; 0; 255;  0; 0; 0; 255;
          0; 0; 99; 255;  0; 0; 0; 255;  0; 0; 0; 255;  0; 0; 0; 255].
Proof. vm_compute. reflexivity. Qed.

(** The stores truncate: over a destination pixel (3,3,3) of alpha 3, a fully
    transparent source pixel leaves (2,2,2). *)
Lemma transparent_pixel_truncates (wild_uchar : float -> Z) :
  place_tile wild_uchar 1 1 (Image [1; 2; 3; 0] 4 1 1) 0 0 [3; 3; 3; 3]
  = Some [2; 2; 2; 3].
Proof. vm_compute. reflexivity. Qed.

(** ** Configuration errors *)

Section Configuration.

Variable wild_uchar : float -> Z.
Variable wild_uint : float -> Z.
Variable wild_shift : Z -> Z -> Z.
Variables log tan cos atan sinh : float -> float.
Variable fetch : string -> Z -> Z -> Z -> option (list Z).
Variables read_png read_jpeg : list Z -> option image.

Local Abbreviation main' :=
  (main wild_uchar wild_uint wild_shift log tan cos atan sinh
        fetch read_png read_jpeg).
Local Abbreviation resolve' :=
  (resolve wild_uint wild_shift log tan cos atan sinh).

(** C8.  On a command line with at least one source, each configuration
    error ends the run with one line on [stderr] and [EXIT_FAILURE], and with
    nothing else in the trace: no buffer is allocated, no tile is fetched and
    no image is written.  The errors are a negative zoom; in centered mode a
    width or height that is not positive; and a raster of more than
    100,000,000 pixels.  (The last two are reached once the earlier checks,
    the zoom and the terminal check of line 357, have passed.) *)
Theorem configuration_errors_abort (cl : cmdline) :
  sources cl <> [] ->
  let zoom := atoi (argv4 cl) in
  let box := order_bounds (atof (argv0 cl)) (atof (argv1 cl))
                          (atof (argv2 cl)) (atof (argv3 cl)) in
  (zoom < 0 ->
     main' cl = ([Stderr (Zoom_less_than_0 zoom)], Exit C.EXIT_FAILURE))
  /\ (0 <= zoom -> ~ (outfile cl = None /\ stdout_isatty cl = true) ->
      centered cl = true ->
      atoi (argv2 cl) <= 0 \/ atoi (argv3 cl) <= 0 ->
      main' cl
      = ([Stderr (Width_height_less_than_0 (atoi (argv2 cl))
                                           (atoi (argv3 cl)))],
         Exit C.EXIT_FAILURE))
  /\ (0 <= zoom -> ~ (outfile cl = None /\ stdout_isatty cl = true) ->
      forall b, resolve' cl zoom box = ([], Ret b) ->
      100000000 < width (raster_of wild_shift cl zoom b)
                  * height (raster_of wild_shift cl zoom b) ->
      main' cl = ([Stderr Thats_too_big], Exit C.EXIT_FAILURE)).
Proof.
  intros Hsrc zoom box.
  assert (Hs : bool_decide (sources cl = []) = false)
    by (by apply bool_decide_eq_false).
  assert (Htty : ~ (outfile cl = None /\ stdout_isatty cl = true) ->
                 bool_decide (outfile cl = None) && stdout_isatty cl = false).
  { intros Hn. apply not_true_is_false. intros Ht.
    apply andb_prop in Ht as [Ho Hi]. apply bool_decide_eq_true in Ho. tauto. }
  unfold main. rewrite Hs. fold zoom. fold box.
  repeat split.
  - intros Hz. apply Z.ltb_lt in Hz. by rewrite Hz.
  - intros Hz Hn Hc Hwh.
    apply Z.ltb_ge in Hz. rewrite Hz, (Htty Hn).
    unfold resolve. destruct box as [[[minlat minlon] maxlat] maxlon].
    rewrite Hc.
    assert (Hb : (atoi (argv2 cl) <=? 0) || (atoi (argv3 cl) <=? 0) = true).
    { apply orb_true_iff. destruct Hwh; [left|right]; by apply Z.leb_le. }
    rewrite Hb. reflexivity.
  - intros Hz Hn b Hb Hdim.
    apply Z.ltb_ge in Hz. rewrite Hz, (Htty Hn), Hb.
    cbn [mbind run_bind app].
    change (10000 * 10000) with 100000000.
    apply Z.ltb_lt in Hdim. rewrite Hdim. reflexivity.
Qed.

End Configuration.

Lemma configuration_errors_abort_witness :
  Standin.main negative_zoom_cmdline
  = ([Stderr (Zoom_less_than_0 (-1))], Exit C.EXIT_FAILURE)
  /\ Standin.main zero_width_cmdline
     = ([Stderr (Width_height_less_than_0 0 600)], Exit C.EXIT_FAILURE)
  /\ Standin.main half_world_cmdline
     = ([Stderr Thats_too_big], Exit C.EXIT_FAILURE).
Proof.
  split; [|split].
  - refine (proj1 (configuration_errors_abort Standin.zero1 Standin.zero1
                     Standin.zero2 Standin.log Standin.tan Standin.cos
                     Standin.atan Standin.sinh Standin.no_tiles no_jpeg no_jpeg
                     negative_zoom_cmdline _) _).
    + discriminate.
    + simpl. lia.
  - refine (proj1 (proj2 (configuration_errors_abort Standin.zero1
                     Standin.zero1 Standin.zero2 Standin.log Standin.tan
                     Standin.cos Standin.atan Standin.sinh Standin.no_tiles
                     no_jpeg no_jpeg zero_width_cmdline _)) _ _ _ _).
    + discriminate.
    + simpl. lia.
    + intros [H _]. discriminate H.
    + reflexivity.
    + simpl. lia.
  - refine (proj2 (proj2 (configuration_errors_abort Standin.zero1
                     Standin.zero1 Standin.zero2 Standin.log Standin.tan
                     Standin.cos Standin.atan Standin.sinh Standin.no_tiles
                     no_jpeg no_jpeg half_world_cmdline _)) _ _ _ _ _).
    + discriminate.
    + simpl. lia.
    + intros [H _]. discriminate H.
    + vm_compute. reflexivity.
    + vm_compute. reflexivity.
Defined.

(** ** Ordering of doubles *)

Lemma SFcompare_antisym (a b : spec_float) :
  SFcompare a b = option_map CompOpp (SFcompare b a).
Proof.
  destruct a as [sa|sa| |sa ma ea], b as [sb|sb| |sb mb eb]; simpl;
    try reflexivity;
    try (destruct sa; reflexivity); try (destruct sb; reflexivity);
    try (destruct sa, sb; reflexivity).
  destruct sa, sb; try reflexivity; simpl;
    rewrite (Z.compare_antisym ea eb);
    replace (Pos.compare_cont Eq mb ma)
      with (CompOpp (Pos.compare_cont Eq ma mb))
      by apply (Pos.compare_cont_antisym ma mb Eq);
    destruct (ea ?= eb); simpl; try reflexivity;
    destruct (Pos.compare_cont Eq ma mb); reflexivity.
Qed.

Lemma Prim2SF_not_nan (f : float) : is_nan f = false -> Prim2SF f <> S754_nan.
Proof.
  intros H. unfold Prim2SF. rewrite H.
  destruct (PrimFloat.is_zero f); [discriminate|].
  destruct (PrimFloat.is_infinity f); [discriminate|].
  destruct (FloatOps.Z.frexp f) as [r e].
  destruct (shr_fexp _ _ _ _ _) as [sh e'].
  destruct (shr_m sh); discriminate.
Qed.

(** [a < b] gives [a <= b]. *)
Lemma ltb_leb (a b : float) : (a <? b)%float = true -> (a <=? b)%float = true.
Proof.
  rewrite FloatAxioms.ltb_spec, FloatAxioms.leb_spec. unfold SFltb, SFleb.
  destruct (SFcompare _ _) as [[]|]; congruence.
Qed.

(** For numbers, the failure of [a > b] gives [a <= b]. *)
Lemma not_gt_leb (a b : float) :
  is_nan a = false -> is_nan b = false ->
  (b <? a)%float = false -> (a <=? b)%float = true.
Proof.
  intros Ha Hb. apply Prim2SF_not_nan in Ha, Hb.
  rewrite FloatAxioms.ltb_spec, FloatAxioms.leb_spec. unfold SFltb, SFleb.
  rewrite (SFcompare_antisym (Prim2SF a) (Prim2SF b)).
  destruct (Prim2SF a) as [sa|sa| |sa ma ea], (Prim2SF b) as [sb|sb| |sb mb eb];
    try congruence; simpl.
  all: try (destruct sa; simpl; congruence).
  all: try (destruct sb; simpl; congruence).
  all: try (destruct sa, sb; simpl; congruence).
  destruct sa, sb; simpl; try congruence;
    (destruct (eb ?= ea); simpl; try congruence;
     destruct (Pos.compare_cont Eq mb ma); simpl; congruence).
Qed.

(** ** The bounding box *)

Section Resolver.

Variable wild_uint : float -> Z.
Variable wild_shift : Z -> Z -> Z.
Variables log tan cos atan sinh : float -> float.

Local Abbreviation resolve' :=
  (resolve wild_uint wild_shift log tan cos atan sinh).
Local Abbreviation latlon2tile' :=
  (latlon2tile wild_uint wild_shift log tan cos).
Local Abbreviation centered_bounds' :=
  (centered_bounds wild_shift atan sinh).



End Resolver.



(** ** The elevation pass *)

Lemma for_each_const {I St : Type} (body : St -> option St) (idx : list I)
    (s : St) :
  for_each (fun _ => body) idx s = iterate (length idx) body s.
Proof.
  revert s. induction idx as [|k idx IH]; intros s; [reflexivity|].
  cbn [for_each length iterate].
  destruct (body s); simpl; [apply IH|reflexivity].
Qed.

Lemma iterate_add {St : Type} (n m : nat) (body : St -> option St) (s : St) :
  iterate (n + m) body s = iterate n body s ≫= iterate m body.
Proof.
  revert s. induction n as [|n IH]; intros s; [reflexivity|].
  cbn [Nat.add iterate]. destruct (body s); simpl; [apply IH|reflexivity].
Qed.

Lemma iterate_mul {St : Type} (h w : nat) (body : St -> option St) (s : St) :
  iterate h (iterate w body) s = iterate (h * w) body s.
Proof.
  revert s. induction h as [|h IH]; intros s; [reflexivity|].
  cbn [Nat.mul iterate]. rewrite iterate_add.
  destruct (iterate w body s); simpl; [apply IH|reflexivity].
Qed.

Lemma iterate_S_r {St : Type} (n : nat) (body : St -> option St) (s : St) :
  iterate (S n) body s = iterate n body s ≫= body.
Proof.
  replace (S n) with (n + 1)%nat by lia. rewrite iterate_add.
  destruct (iterate n body s) as [s'|]; simpl; [|reflexivity].
  destruct (body s'); reflexivity.
Qed.

Lemma iterate_ext {St : Type} (n : nat) (b1 b2 : St -> option St) (s : St) :
  (forall s, b1 s = b2 s) -> iterate n b1 s = iterate n b2 s.
Proof.
  intros Hb. revert s. induction n as [|n IH]; intros s; [reflexivity|].
  cbn [iterate]. rewrite Hb. destruct (b2 s); simpl; [apply IH|reflexivity].
Qed.

(** The two nested loops over [height] rows and [width] columns run the body
    [height * width] times. *)
Lemma nested_loops {St : Type} (width height : Z) (body : St -> option St)
    (s : St) :
  for_each (fun _ : Z => for_each (fun _ : Z => body) (seqZ 0 width))
           (seqZ 0 height) s
  = iterate (Z.to_nat height * Z.to_nat width) body s.
Proof.
  rewrite <- iterate_mul, for_each_const, length_seqZ.
  apply iterate_ext. intros s'. by rewrite for_each_const, length_seqZ.
Qed.

(** ** Reading pixels *)

Lemma load_lookup (buf : list Z) (j : nat) :
  load buf (Z.of_nat j) = buf !! j.
Proof.
  unfold load. destruct (Z.ltb_spec (Z.of_nat j) 0) as [H|H]; [lia|].
  by rewrite Nat2Z.id.
Qed.

Lemma pixel_elevation_inside (buf : list Z) (k : nat) :
  Forall is_byte buf -> (4 * k + 3 < length buf)%nat ->
  exists b0 b1 b2,
    buf !! (4 * k)%nat = Some b0 /\ buf !! (4 * k + 1)%nat = Some b1
    /\ buf !! (4 * k + 2)%nat = Some b2
    /\ is_byte b0 /\ is_byte b1 /\ is_byte b2
    /\ pixel_elevation buf (4 * Z.of_nat k) = Some (b0 * 65536 + b1 * 256 + b2).
Proof.
  intros Hbytes Hlen.
  destruct (lookup_lt_is_Some_2 buf (4 * k)%nat) as [b0 H0]; [lia|].
  destruct (lookup_lt_is_Some_2 buf (4 * k + 1)%nat) as [b1 H1]; [lia|].
  destruct (lookup_lt_is_Some_2 buf (4 * k + 2)%nat) as [b2 H2]; [lia|].
  pose proof (Forall_lookup_1 _ _ _ _ Hbytes H0) as B0.
  pose proof (Forall_lookup_1 _ _ _ _ Hbytes H1) as B1.
  pose proof (Forall_lookup_1 _ _ _ _ Hbytes H2) as B2.
  exists b0, b1, b2.
  repeat split; try assumption; try apply B0; try apply B1; try apply B2.
  unfold pixel_elevation.
  replace (4 * Z.of_nat k) with (Z.of_nat (4 * k)) by lia.
  replace (Z.of_nat (4 * k) + 1) with (Z.of_nat (4 * k + 1)) by lia.
  replace (Z.of_nat (4 * k) + 2) with (Z.of_nat (4 * k + 2)) by lia.
  rewrite !load_lookup, H0, H1, H2. simpl.
  unfold is_byte in *. unfold C.u32. rewrite !Z.shiftl_mul_pow2 by lia.
  change (2 ^ 16) with 65536. change (2 ^ 8) with 256.
  rewrite Z.mod_small; [reflexivity|]. change (2 ^ 32) with 4294967296. lia.
Qed.

Lemma elevation_at_inside (buf : list Z) (k : nat) :
  Forall is_byte buf -> (4 * k + 3 < length buf)%nat ->
  pixel_elevation buf (4 * Z.of_nat k) = Some (elevation_at buf k)
  /\ 0 <= elevation_at buf k <= 16777215.
Proof.
  intros Hbytes Hlen.
  destruct (pixel_elevation_inside buf k Hbytes Hlen)
    as (b0 & b1 & b2 & _ & _ & _ & B0 & B1 & B2 & He).
  unfold elevation_at. rewrite He. simpl. unfold is_byte in *.
  split; [reflexivity|lia].
Qed.

(** ** The first pass *)

Lemma scan_invariant (buf : list Z) (n : nat) :
  Forall is_byte buf -> (4 * n <= length buf)%nat ->
  exists st,
    iterate n (scan_pixel buf) stats0 = Some st
    /\ s_offset st = 4 * Z.of_nat n
    /\ 0 <= min_elevation st <= 16777215
    /\ 0 <= max_elevation st <= 16777215
    /\ (forall k, (k < n)%nat ->
          min_elevation st <= elevation_at buf k <= max_elevation st)
    /\ (n <> 0%nat ->
          exists k1 k2, (k1 < n)%nat /\ (k2 < n)%nat
            /\ elevation_at buf k1 = min_elevation st
            /\ elevation_at buf k2 = max_elevation st).
Proof.
  intros Hbytes. induction n as [|n IH]; intros Hlen.
  - exists stats0. simpl. repeat split; lia.
  - destruct IH as (st & Hst & Hoff & Hmin & Hmax & Hall & Hatt); [lia|].
    rewrite iterate_S_r, Hst. simpl.
    destruct (elevation_at_inside buf n Hbytes) as [Hpe Hrange]; [lia|].
    unfold scan_pixel. rewrite Hoff, Hpe. simpl.
    eexists. split; [reflexivity|]. cbn [s_offset min_elevation max_elevation].
    set (pe := elevation_at buf n) in *.
    split; [lia|].
    split; [destruct (Z.ltb_spec pe (min_elevation st)); lia|].
    split; [destruct (Z.ltb_spec (max_elevation st) pe); lia|].
    split.
    { intros k Hk. destruct (Nat.eq_dec k n) as [->|Hne].
      - fold pe. destruct (Z.ltb_spec pe (min_elevation st)),
          (Z.ltb_spec (max_elevation st) pe); lia.
      - specialize (Hall k ltac:(lia)).
        destruct (Z.ltb_spec pe (min_elevation st)),
          (Z.ltb_spec (max_elevation st) pe); lia. }
    intros _. destruct (Nat.eq_dec n 0%nat) as [->|Hn0].
    + exists 0%nat, 0%nat. simpl in Hst. injection Hst as <-.
      cbn [min_elevation max_elevation stats0]. fold pe.
      destruct (Z.ltb_spec pe 16777215), (Z.ltb_spec 0 pe);
        repeat split; lia.
    + destruct (Hatt Hn0) as (k1 & k2 & Hk1 & Hk2 & E1 & E2).
      exists (if pe <? min_elevation st then n else k1),
             (if max_elevation st <? pe then n else k2).
      destruct (pe <? min_elevation st), (max_elevation st <? pe);
        repeat split; try lia; try assumption; reflexivity.
Qed.

(** ** The second pass *)

Lemma pixel_elevation_agree (buf buf' : list Z) (k : nat) :
  buf' !! (4 * k)%nat = buf !! (4 * k)%nat ->
  buf' !! (4 * k + 1)%nat = buf !! (4 * k + 1)%nat ->
  buf' !! (4 * k + 2)%nat = buf !! (4 * k + 2)%nat ->
  pixel_elevation buf' (4 * Z.of_nat k) = pixel_elevation buf (4 * Z.of_nat k).
Proof.
  intros H0 H1 H2. unfold pixel_elevation.
  replace (4 * Z.of_nat k) with (Z.of_nat (4 * k)) by lia.
  replace (Z.of_nat (4 * k) + 1) with (Z.of_nat (4 * k + 1)) by lia.
  replace (Z.of_nat (4 * k) + 2) with (Z.of_nat (4 * k + 2)) by lia.
  by rewrite !load_lookup, H0, H1, H2.
Qed.

Section Rewrite.

Variable wild_uchar : float -> Z.
Variable min_el : Z.
Variable ratio : float.

Local Abbreviation gray := (gray_of wild_uchar min_el ratio).

Lemma rewrite_invariant (buf : list Z) (n : nat) :
  Forall is_byte buf -> (4 * n <= length buf)%nat ->
  exists buf',
    iterate n (rewrite_pixel wild_uchar min_el ratio) (buf, 0)
    = Some (buf', 4 * Z.of_nat n)
    /\ length buf' = length buf
    /\ (forall j, (4 * n <= j)%nat -> buf' !! j = buf !! j)
    /\ (forall k, (k < n)%nat ->
          buf' !! (4 * k)%nat = Some (gray (elevation_at buf k))
          /\ buf' !! (4 * k + 1)%nat = Some (gray (elevation_at buf k))
          /\ buf' !! (4 * k + 2)%nat = Some (gray (elevation_at buf k))
          /\ buf' !! (4 * k + 3)%nat = buf !! (4 * k + 3)%nat).
Proof.
  intros Hbytes. induction n as [|n IH]; intros Hlen.
  - exists buf. simpl. repeat split; try reflexivity; intros; lia.
  - destruct IH as (bufn & Hrun & Hlenn & Hrest & Hdone); [lia|].
    rewrite iterate_S_r, Hrun. simpl.
    destruct (elevation_at_inside buf n Hbytes) as [Hpe _]; [lia|].
    rewrite (pixel_elevation_agree buf bufn n), Hpe by (apply Hrest; lia).
    simpl. fold (gray_of wild_uchar min_el ratio (elevation_at buf n)).
    set (v := gray_of wild_uchar min_el ratio (elevation_at buf n)).
    rewrite store_in_range by lia. simpl.
    rewrite store_in_range by (rewrite length_insert; lia). simpl.
    rewrite store_in_range by (rewrite !length_insert; lia). simpl.
    replace (Z.to_nat (4 * Z.of_nat n + 2)) with (4 * n + 2)%nat by lia.
    replace (Z.to_nat (4 * Z.of_nat n + 1)) with (4 * n + 1)%nat by lia.
    replace (Z.to_nat (4 * Z.of_nat n)) with (4 * n)%nat by lia.
    eexists. split; [f_equal; f_equal; lia|].
    split; [by rewrite !length_insert|].
    split.
    + intros j Hj. rewrite !list_lookup_insert_ne by lia. apply Hrest. lia.
    + intros k Hk. destruct (Nat.eq_dec k n) as [->|Hne].
      * repeat split.
        -- apply list_lookup_insert_eq. rewrite !length_insert. lia.
        -- rewrite list_lookup_insert_ne by lia.
           apply list_lookup_insert_eq. rewrite !length_insert. lia.
        -- rewrite !list_lookup_insert_ne by lia.
           apply list_lookup_insert_eq. lia.
        -- rewrite !list_lookup_insert_ne by lia. apply Hrest. lia.
      * destruct (Hdone k) as (D0 & D1 & D2 & D3); [lia|].
        rewrite !list_lookup_insert_ne by lia. auto.
Qed.

End Rewrite.

(** ** Rounding of the scaled elevations *)

Lemma SFcompare_finite_pos (m1 m2 : positive) (e1 e2 : Z) :
  SFcompare (S754_finite false m1 e1) (S754_finite false m2 e2)
  = Some (match e1 ?= e2 with
          | Lt => Lt | Gt => Gt | Eq => (m1 ?= m2)%positive
          end).
Proof. reflexivity. Qed.

(** A double in [[254.5, 255.5)] is stored as 255. *)
Lemma round_near_255 (wild : float -> Z) (v : float) :
  (254.5 <=? v)%float = true -> (v <? 255.5)%float = true ->
  uchar_of_double wild (Dbl.round v) = 255.
Proof.
  rewrite FloatAxioms.leb_spec, FloatAxioms.ltb_spec.
  unfold uchar_of_double, Dbl.round.
  change (Prim2SF 254.5) with (S754_finite false 8954422696607744 (-45)).
  change (Prim2SF 255.5) with (S754_finite false 8989607068696576 (-45)).
  unfold SFleb, SFltb.
  destruct (Prim2SF v) as [s|s| |s m e]; try discriminate.
  - destruct s; discriminate.
  - destruct s; [discriminate|].
    rewrite !SFcompare_finite_pos.
    destruct (Z.compare_spec (-45) e) as [He|He|He]; try discriminate;
      destruct (Z.compare_spec e (-45)) as [He'|He'|He'];
      try discriminate; try lia.
    subst e. intros Hlo Hhi.
    assert (8954422696607744 <= Zpos m).
    { apply Pos2Z.pos_le_pos. intros E. rewrite E in Hlo. discriminate. }
    assert (Zpos m < 8989607068696576).
    { apply Pos2Z.pos_lt_pos. unfold Pos.lt.
      destruct (m ?= 8989607068696576)%positive;
        [discriminate|reflexivity|discriminate]. }
    change (0 <=? -45) with false. cbv iota.
    assert (Hr : Dbl.round_mag m (-45) = 255).
    { unfold Dbl.round_mag. change (- -45 - 1) with 44.
      rewrite !Z.shiftr_div_pow2 by lia.
      change (2 ^ 44) with 17592186044416. change (2 ^ 1) with 2.
      assert (509 <= Zpos m / 17592186044416)
        by (apply Z.div_le_lower_bound; lia).
      assert (Zpos m / 17592186044416 < 511)
        by (apply Z.div_lt_upper_bound; lia).
      assert (Zpos m / 17592186044416 = 509 \/ Zpos m / 17592186044416 = 510)
        as [-> | ->] by lia; reflexivity. }
    rewrite Hr. reflexivity.
Qed.

(** A zero is stored as 0. *)
Lemma round_of_zero (wild : float -> Z) (z : float) :
  (z =? 0)%float = true -> uchar_of_double wild (Dbl.round z) = 0.
Proof.
  rewrite FloatAxioms.eqb_spec. unfold uchar_of_double, Dbl.round, Dbl.trunc.
  change (Prim2SF 0) with (S754_zero false). unfold SFeqb.
  destruct (Prim2SF z) as [s|s| |s m e] eqn:Hz; simpl; try discriminate.
  - intros _. rewrite Hz. reflexivity.
  - destruct s; discriminate.
  - destruct s; discriminate.
Qed.

Lemma ratio_ok_from_spec (k : nat) : forall lo : int,
  ratio_ok_from k lo = true ->
  (k <= 62)%nat -> Uint63.to_Z lo + 2 ^ Z.of_nat k <= 2 ^ 63 ->
  forall i : int,
    Uint63.to_Z lo <= Uint63.to_Z i < Uint63.to_Z lo + 2 ^ Z.of_nat k ->
    ratio_ok i = true.
Proof.
  induction k as [|k IH]; intros lo Hok Hk Hlo i Hi.
  - simpl in Hok, Hi. assert (i = lo) as -> by (apply Uint63.to_Z_inj; lia).
    exact Hok.
  - cbn [ratio_ok_from] in Hok. apply andb_prop in Hok as [Hl Hr].
    rewrite Nat2Z.inj_succ, Z.pow_succ_r in Hlo, Hi by lia.
    assert (Hp : 0 < 2 ^ Z.of_nat k) by (apply Z.pow_pos_nonneg; lia).
    assert (Hlt : 2 ^ Z.of_nat k < 2 ^ 63) by (apply Z.pow_lt_mono_r; lia).
    destruct (Z_lt_dec (Uint63.to_Z i) (Uint63.to_Z lo + 2 ^ Z.of_nat k))
      as [Hlow|Hhigh].
    + apply (IH lo Hl); lia.
    + assert (Hstep : Uint63.to_Z (lo + (1 << Uint63.of_Z (Z.of_nat k)))%uint63
                      = Uint63.to_Z lo + 2 ^ Z.of_nat k).
      { rewrite Uint63.add_spec, Uint63.lsl_spec, Uint63.to_Z_1,
          Uint63.of_Z_spec.
        change wB with (2 ^ 63) in *.
        pose proof (Uint63.to_Z_bounded lo) as Hb.
        change wB with (2 ^ 63) in Hb.
        rewrite (Z.mod_small (Z.of_nat k)) by lia.
        rewrite Z.mul_1_l. rewrite (Z.mod_small (2 ^ Z.of_nat k)) by lia.
        apply Z.mod_small. lia. }
      apply (IH _ Hr); rewrite ?Hstep; lia.
Qed.

(** All [2^24] differences pass. *)
Lemma ratio_ok_all : ratio_ok_from 24 0 = true.
Proof. vm_compute. reflexivity. Qed.

Lemma of_Z_small (d : Z) :
  0 <= d < 2 ^ 24 -> Dbl.of_Z d = of_uint63 (Uint63.of_Z d).
Proof.
  intros Hd. unfold Dbl.of_Z.
  assert (2 ^ 24 < 2 ^ 63) by reflexivity.
  destruct (Z.ltb_spec (Z.abs d) (2 ^ 63)); [|lia].
  destruct (Z.ltb_spec d 0); [lia|reflexivity].
Qed.

(** Pass 2 maps the largest difference to 255 and the difference 0 to 0. *)
Lemma scaled_extremes (wild : float -> Z) (d : Z) :
  1 <= d < 2 ^ 24 ->
  let ratio := (255 / Dbl.of_Z d)%float in
  uchar_of_double wild (Dbl.round (Dbl.of_Z d * ratio)%float) = 255
  /\ uchar_of_double wild (Dbl.round (Dbl.of_Z 0 * ratio)%float) = 0.
Proof.
  intros Hd ratio. subst ratio. rewrite (of_Z_small d) by lia.
  change (Dbl.of_Z 0) with 0%float.
  assert (Hi : Uint63.to_Z (Uint63.of_Z d) = d).
  { rewrite Uint63.of_Z_spec. apply Z.mod_small.
    change wB with (2 ^ 63). assert (2 ^ 24 < 2 ^ 63) by reflexivity. lia. }
  assert (Hfit : Uint63.to_Z 0 + 2 ^ Z.of_nat 24 <= 2 ^ 63)
    by (vm_compute; discriminate).
  pose proof (ratio_ok_from_spec 24 0%uint63 ratio_ok_all ltac:(lia)
                Hfit (Uint63.of_Z d)) as Hok.
  rewrite Hi in Hok. specialize (Hok ltac:(change (Uint63.to_Z 0) with 0; lia)).
  unfold ratio_ok in Hok. apply orb_prop in Hok as [Hz|Hok].
  - apply Uint63.eqb_spec in Hz. rewrite Hz in Hi.
    change (Uint63.to_Z 0) with 0 in Hi. lia.
  - apply andb_prop in Hok as [Hok H0]. apply andb_prop in Hok as [Hlo Hhi].
    split; [by apply round_near_255 | by apply round_of_zero].
Qed.

Lemma pixel_at_lookup (buf : list Z) (k : nat) (r g b a : Z) :
  buf !! (4 * k)%nat = Some r -> buf !! (4 * k + 1)%nat = Some g ->
  buf !! (4 * k + 2)%nat = Some b -> buf !! (4 * k + 3)%nat = Some a ->
  pixel_at buf (Z.of_nat k) = Some (r, g, b, a).
Proof.
  intros Hr Hg Hb Ha. unfold pixel_at.
  replace (4 * Z.of_nat k) with (Z.of_nat (4 * k)) by lia.
  replace (Z.of_nat (4 * k) + 1) with (Z.of_nat (4 * k + 1)) by lia.
  replace (Z.of_nat (4 * k) + 2) with (Z.of_nat (4 * k + 2)) by lia.
  replace (Z.of_nat (4 * k) + 3) with (Z.of_nat (4 * k + 3)) by lia.
  by rewrite !load_lookup, Hr, Hg, Hb, Ha.
Qed.

(** C4.  On a canvas of [width * height] RGBA pixels the elevation pass
    completes, and with [min_elevation] and [max_elevation] as the first pass
    leaves them: every pixel keeps its alpha byte and gets R = G = B; a pixel
    whose packed value [(R << 16) + (G << 8) + B] was [min_elevation] gets 0
    and one whose value was [max_elevation] gets 255 when
    [max_elevation > min_elevation]; every pixel gets 0 when the two are
    equal.  [min_elevation] and [max_elevation] bound the packed value of
    every pixel and, on a canvas that is not empty, each is the value of some
    pixel. *)
Theorem elevation_pass_normalizes (wild_uchar : float -> Z)
    (width height : Z) (buf : list Z) :
  0 <= width -> 0 <= height ->
  Z.of_nat (length buf) = width * height * 4 ->
  Forall is_byte buf ->
  exists st buf',
    elevation_stats width height buf = Some st
    /\ normalize_elevation wild_uchar width height buf = Some buf'
    /\ length buf' = length buf
    /\ (forall k, 0 <= k < width * height ->
          exists r g b a c,
            pixel_at buf k = Some (r, g, b, a)
            /\ pixel_at buf' k = Some (c, c, c, a)
            /\ let v := Z.shiftl r 16 + Z.shiftl g 8 + b in
               min_elevation st <= v <= max_elevation st
               /\ (min_elevation st < max_elevation st ->
                   v = min_elevation st -> c = 0)
               /\ (min_elevation st < max_elevation st ->
                   v = max_elevation st -> c = 255)
               /\ (min_elevation st = max_elevation st -> c = 0))
    /\ (0 < width * height ->
          exists k1 k2,
            0 <= k1 < width * height /\ 0 <= k2 < width * height
            /\ pixel_elevation buf (4 * k1) = Some (min_elevation st)
            /\ pixel_elevation buf (4 * k2) = Some (max_elevation st)).
Proof.
  intros Hw Hh Hlen Hbytes.
  set (n := (Z.to_nat height * Z.to_nat width)%nat).
  assert (Hn : Z.of_nat n = width * height) by (unfold n; lia).
  assert (Hlen' : length buf = (4 * n)%nat) by lia.
  destruct (scan_invariant buf n Hbytes)
    as (st & Hst & _ & Hmin & Hmax & Hall & Hatt); [lia|].
  destruct (rewrite_invariant wild_uchar (min_elevation st)
              (elevation_ratio st) buf n Hbytes)
    as (buf' & Hrun & Hlen2 & _ & Hdone); [lia|].
  assert (Hstats : elevation_stats width height buf = Some st).
  { unfold elevation_stats. rewrite nested_loops. exact Hst. }
  exists st, buf'. split; [exact Hstats|].
  split.
  { unfold normalize_elevation. rewrite Hstats. simpl.
    rewrite nested_loops. fold n. rewrite Hrun. reflexivity. }
  split; [exact Hlen2|].
  split.
  - intros k Hk. set (k' := Z.to_nat k).
    assert (Hk' : (k' < n)%nat) by lia.
    destruct (pixel_elevation_inside buf k' Hbytes)
      as (r & g & b & Lr & Lg & Lb & Br & Bg & Bb & Hpe); [lia|].
    destruct (lookup_lt_is_Some_2 buf (4 * k' + 3)%nat) as [a La]; [lia|].
    destruct (Hdone k' Hk') as (D0 & D1 & D2 & D3).
    assert (Hel : elevation_at buf k' = Z.shiftl r 16 + Z.shiftl g 8 + b).
    { unfold elevation_at. rewrite Hpe. simpl.
      rewrite !Z.shiftl_mul_pow2 by lia.
      reflexivity. }
    exists r, g, b, a, (gray_of wild_uchar (min_elevation st)
                          (elevation_ratio st) (elevation_at buf k')).
    replace k with (Z.of_nat k') by lia.
    split; [by apply pixel_at_lookup|].
    split; [apply pixel_at_lookup; congruence|].
    cbv zeta. rewrite <- Hel. specialize (Hall k' Hk').
    split; [exact Hall|].
    unfold gray_of, elevation_ratio.
    repeat split.
    + intros Hlt ->.
      destruct (Z.ltb_spec (min_elevation st) (max_elevation st)); [|lia].
      rewrite Z.sub_diag. change (C.u32 0) with 0.
      assert (Hd : C.u32 (max_elevation st - min_elevation st)
                   = max_elevation st - min_elevation st).
      { apply Z.mod_small. change (2 ^ 32) with 4294967296. lia. }
      rewrite Hd. apply scaled_extremes. change (2 ^ 24) with 16777216. lia.
    + intros Hlt ->.
      destruct (Z.ltb_spec (min_elevation st) (max_elevation st)); [|lia].
      assert (Hd : C.u32 (max_elevation st - min_elevation st)
                   = max_elevation st - min_elevation st).
      { apply Z.mod_small. change (2 ^ 32) with 4294967296. lia. }
      rewrite Hd. apply scaled_extremes. change (2 ^ 24) with 16777216. lia.
    + intros Heq.
      destruct (Z.ltb_spec (min_elevation st) (max_elevation st)); [lia|].
      replace (elevation_at buf k') with (min_elevation st) by lia.
      rewrite Z.sub_diag. vm_compute. reflexivity.
  - intros Hpos. destruct Hatt as (k1 & k2 & Hk1 & Hk2 & E1 & E2); [lia|].
    exists (Z.of_nat k1), (Z.of_nat k2).
    destruct (elevation_at_inside buf k1 Hbytes) as [P1 _]; [lia|].
    destruct (elevation_at_inside buf k2 Hbytes) as [P2 _]; [lia|].
    repeat split; try lia; congruence.
Qed.

Example three_elevations_normalized (wild_uchar : float -> Z) :
  normalize_elevation wild_uchar 3 1 three_elevations
  = Some [0; 0; 0; 255;  128; 128; 128; 128;  255; 255; 255; 77].
Proof. vm_compute. reflexivity. Qed.

Lemma elevation_pass_normalizes_witness :
  exists st buf',
    elevation_stats 3 1 three_elevations = Some st
    /\ normalize_elevation (fun _ => 0) 3 1 three_elevations = Some buf'
    /\ length buf' = length three_elevations
    /\ (forall k, 0 <= k < 3 * 1 ->
          exists r g b a c,
            pixel_at three_elevations k = Some (r, g, b, a)
            /\ pixel_at buf' k = Some (c, c, c, a)
            /\ let v := Z.shiftl r 16 + Z.shiftl g 8 + b in
               min_elevation st <= v <= max_elevation st
               /\ (min_elevation st < max_elevation st ->
                   v = min_elevation st -> c = 0)
               /\ (min_elevation st < max_elevation st ->
                   v = max_elevation st -> c = 255)
               /\ (min_elevation st = max_elevation st -> c = 0))
    /\ (0 < 3 * 1 ->
          exists k1 k2,
            0 <= k1 < 3 * 1 /\ 0 <= k2 < 3 * 1
            /\ pixel_elevation three_elevations (4 * k1)
               = Some (min_elevation st)
            /\ pixel_elevation three_elevations (4 * k2)
               = Some (max_elevation st)).
Proof.
  apply (elevation_pass_normalizes (fun _ => 0) 3 1 three_elevations).
  - lia.
  - lia.
  - reflexivity.
  - unfold three_elevations, is_byte. repeat constructor; lia.
Defined.

(** ** Blending an opaque tile pixel *)

Lemma forallb_bytes (f : Z -> bool) :
  forallb f (seqZ 0 256) = true -> forall c, is_byte c -> f c = true.
Proof.
  intros Hall c Hc. rewrite forallb_forall in Hall. apply Hall.
  apply list_elem_of_In, elem_of_seqZ. unfold is_byte in Hc. lia.
Qed.

Lemma load_Some_range (buf : list Z) (k v : Z) :
  load buf k = Some v -> 0 <= k < Z.of_nat (length buf).
Proof.
  unfold load. destruct (Z.ltb_spec k 0); [discriminate|].
  intros Hl. apply lookup_lt_Some in Hl. lia.
Qed.

Lemma opaque_canvas_all :
  forallb (fun a => forallb (opaque_canvas_ok a) (seqZ 0 256)) (seqZ 0 256)
  = true.
Proof. vm_compute. reflexivity. Qed.

Lemma opaque_tile_all : forallb opaque_tile_ok (seqZ 0 256) = true.
Proof. vm_compute. reflexivity. Qed.

Lemma opaque_channel (wild : float -> Z) (a c t : Z) :
  is_byte a -> is_byte c -> is_byte t ->
  let as_ := (Dbl.of_Z a / 255)%float in
  let ad := (Dbl.of_Z 255 / 255)%float in
  let ar := (as_ * (1 - ad) + ad)%float in
  uchar_of_double wild
    ((Dbl.of_Z c / 255 * as_ * (1 - ad) + Dbl.of_Z t / 255 * ad) / ar
     * 255)%float
  = t
  /\ uchar_of_double wild (ar * 255)%float = 255.
Proof.
  intros Ha Hc Ht as_ ad ar.
  pose proof (forallb_bytes _ (forallb_bytes _ opaque_canvas_all a Ha) c Hc)
    as Hcv.
  apply andb_prop in Hcv as [H0 H1].
  apply FloatAxioms.Leibniz.eqb_spec in H0, H1.
  fold ad_opaque in ad. subst as_ ad ar. rewrite H0, H1.
  pose proof (forallb_bytes _ opaque_tile_all t Ht) as Htl.
  unfold opaque_tile_ok in Htl. unfold uchar_of_double.
  destruct (Dbl.trunc _) as [z|]; [|discriminate].
  apply Z.eqb_eq in Htl. subst z. unfold is_byte in Ht.
  destruct (Z.leb_spec 0 t); [|lia]. destruct (Z.ltb_spec t 256); [|lia].
  split; [reflexivity|]. vm_compute. reflexivity.
Qed.

(** X1.  Blending a tile pixel of alpha 255 stores the tile's R, G and B and
    alpha 255, whatever the canvas held (the four canvas samples the blend
    reads, the blue one at [offset * 4 + 2], must lie inside the buffer). *)
Theorem opaque_source_replaces_destination (wild_uchar : float -> Z)
    (buf : list Z) (i : image) (offset ioffset : Z)
    (c0 c1 c2 c3 t0 t1 t2 : Z) :
  load buf (offset + 3) = Some c3 -> load buf (offset + 0) = Some c0 ->
  load buf (offset + 1) = Some c1 -> load buf (offset * 4 + 2) = Some c2 ->
  load (i_buf i) (ioffset + 3) = Some 255 ->
  load (i_buf i) (ioffset + 0) = Some t0 ->
  load (i_buf i) (ioffset + 1) = Some t1 ->
  load (i_buf i) (ioffset + 2) = Some t2 ->
  is_byte c0 -> is_byte c1 -> is_byte c2 -> is_byte c3 ->
  is_byte t0 -> is_byte t1 -> is_byte t2 ->
  load buf (offset + 2) <> None ->
  blend_rgba wild_uchar buf i offset ioffset
  = Some (<[Z.to_nat (offset + 2) := t2]>
            (<[Z.to_nat (offset + 1) := t1]>
               (<[Z.to_nat (offset + 0) := t0]>
                  (<[Z.to_nat (offset + 3) := 255]> buf)))).
Proof.
  intros L3 L0 L1 L2 T3 T0 T1 T2 B0 B1 B2 B3 Bt0 Bt1 Bt2 L2'.
  unfold blend_rgba. rewrite L3, L0, L1, L2, T3, T0, T1, T2.
  cbn [mbind option_bind]. cbv zeta.
  destruct (opaque_channel wild_uchar c3 c0 t0 B3 B0 Bt0) as [-> ->].
  destruct (opaque_channel wild_uchar c3 c1 t1 B3 B1 Bt1) as [-> _].
  destruct (opaque_channel wild_uchar c3 c2 t2 B3 B2 Bt2) as [-> _].
  apply load_Some_range in L3, L0, L1.
  destruct (load buf (offset + 2)) as [c2'|] eqn:L2''; [|congruence].
  apply load_Some_range in L2''.
  rewrite store_in_range by lia. simpl.
  rewrite store_in_range by (rewrite length_insert; lia). simpl.
  rewrite store_in_range by (rewrite !length_insert; lia). simpl.
  rewrite store_in_range by (rewrite !length_insert; lia).
  reflexivity.
Qed.

(** An opaque RGBA pixel (1,2,3) blended over pixel 1 of [blue_canvas]. *)
Lemma opaque_source_replaces_destination_witness :
  blend_rgba (fun _ => 0) blue_canvas (Image [1; 2; 3; 255] 4 1 1) 4 0
  = Some [0; 0; 0; 255;  1; 2; 3; 255;  0; 0; 0; 255;  0; 0; 0; 255;
          0; 0; 99; 255;  0; 0; 0; 255;  0; 0; 0; 255;  0; 0; 0; 255].
Proof.
  apply (opaque_source_replaces_destination (fun _ => 0) blue_canvas
           (Image [1; 2; 3; 255] 4 1 1) 4 0 10 20 99 255 1 2 3);
    try reflexivity; try (unfold is_byte; lia); discriminate.
Defined.

(** ** Placing an opaque tile twice *)

Lemma length_apply_writes (ws : list (nat * Z)) (buf : list Z) :
  length (apply_writes ws buf) = length buf.
Proof.
  revert buf. induction ws as [|[j v] ws IH]; intros buf; [reflexivity|].
  simpl. by rewrite IH, length_insert.
Qed.

Lemma apply_writes_app (ws1 ws2 : list (nat * Z)) (buf : list Z) :
  apply_writes (ws1 ++ ws2) buf = apply_writes ws2 (apply_writes ws1 buf).
Proof.
  revert buf. induction ws1 as [|[j v] ws1 IH]; intros buf; [reflexivity|].
  simpl. apply IH.
Qed.

Lemma lookup_apply_writes (ws : list (nat * Z)) (buf : list Z) (k : nat) :
  apply_writes ws buf !! k
  = match last_write ws k with
    | Some v => if decide (k < length buf)%nat then Some v else None
    | None => buf !! k
    end.
Proof.
  revert buf. induction ws as [|[j v] ws IH]; intros buf; [reflexivity|].
  simpl. rewrite IH, length_insert.
  destruct (last_write ws k); [reflexivity|].
  destruct (decide (j = k)) as [->|Hne].
  - destruct (decide (k < length buf)%nat).
    + by apply list_lookup_insert_eq.
    + rewrite list_insert_ge by lia. apply lookup_ge_None. lia.
  - by apply list_lookup_insert_ne.
Qed.

Lemma apply_writes_twice (ws : list (nat * Z)) (buf : list Z) :
  apply_writes ws (apply_writes ws buf) = apply_writes ws buf.
Proof.
  apply list_eq. intros k.
  rewrite (lookup_apply_writes ws (apply_writes ws buf)), length_apply_writes.
  rewrite (lookup_apply_writes ws buf).
  destruct (last_write ws k); reflexivity.
Qed.

Lemma blind_for_each {I : Type} (body : I -> list Z -> option (list Z))
    (idx : list I) :
  (forall k, k ∈ idx -> blind (body k)) -> blind (for_each body idx).
Proof.
  induction idx as [|k idx IH]; intros Hbody.
  - exists (fun _ => true), []. reflexivity.
  - destruct (Hbody k) as (ok1 & ws1 & H1); [apply list_elem_of_here|].
    destruct IH as (ok2 & ws2 & H2).
    { intros k' Hk'. apply Hbody. by apply list_elem_of_further. }
    exists (fun n => ok1 n && ok2 n), (ws1 ++ ws2). intros buf.
    cbn [for_each]. rewrite H1. destruct (ok1 (length buf)); [|reflexivity].
    simpl. rewrite H2, length_apply_writes, apply_writes_app. reflexivity.
Qed.

Lemma blind_twice (step : list Z -> option (list Z)) (buf buf1 : list Z) :
  blind step -> step buf = Some buf1 -> step buf1 = Some buf1.
Proof.
  intros (ok & ws & H) Hrun. rewrite H in Hrun.
  destruct (ok (length buf)) eqn:Hok; [|discriminate].
  injection Hrun as <-.
  by rewrite H, length_apply_writes, Hok, apply_writes_twice.
Qed.

Ltac store_ranges :=
  repeat (rewrite ?length_insert;
          match goal with
          | |- context [(0 <=? ?a) && (?a <? ?b)] =>
              destruct (Z.leb_spec 0 a); destruct (Z.ltb_spec a b);
              simpl; try lia; try reflexivity
          end).

Lemma blind_store4 (o v0 v1 v2 v3 : Z) :
  blind (fun buf =>
           buf ← store buf (o + 0) v0;
           buf ← store buf (o + 1) v1;
           buf ← store buf (o + 2) v2;
           store buf (o + 3) v3).
Proof.
  exists (fun n => (0 <=? o) && (o + 3 <? Z.of_nat n)),
         [(Z.to_nat (o + 0), v0); (Z.to_nat (o + 1), v1);
          (Z.to_nat (o + 2), v2); (Z.to_nat (o + 3), v3)].
  intros buf. unfold store.
  destruct (Z.leb_spec 0 o), (Z.ltb_spec (o + 3) (Z.of_nat (length buf)));
    simpl; store_ranges.
Qed.

Lemma blind_fail (step : list Z -> option (list Z)) :
  (forall buf, step buf = None) -> blind step.
Proof. intros H. exists (fun _ => false), []. exact H. Qed.

Lemma blind_copy_rgb (i : image) (offset ioffset : Z) :
  blind (fun buf => copy_rgb buf i offset ioffset).
Proof.
  unfold copy_rgb.
  destruct (load (i_buf i) (ioffset + 0)) as [t0|];
    [|by apply blind_fail].
  destruct (load (i_buf i) (ioffset + 1)) as [t1|];
    [|apply blind_fail; intros buf; simpl; by destruct (store buf _ _)].
  destruct (load (i_buf i) (ioffset + 2)) as [t2|];
    [|apply blind_fail; intros buf; simpl;
      destruct (store buf _ _) as [b1|]; [|done]; simpl;
      by destruct (store b1 _ _)].
  apply blind_store4.
Qed.

Lemma blind_copy_gray (i : image) (offset ioffset : Z) :
  blind (fun buf => copy_gray buf i offset ioffset).
Proof.
  unfold copy_gray.
  destruct (load (i_buf i) (ioffset + 0)) as [t0|];
    [|by apply blind_fail].
  apply blind_store4.
Qed.

Section Idempotence.

Variable wild_uchar : float -> Z.
Variables width height : Z.
Variable i : image.
Variables xoff yoff : Z.

Hypothesis opaque : i_depth i <> 4.

Lemma blind_place_pixel (y x : Z) :
  blind (place_pixel wild_uchar width height i xoff yoff y x).
Proof.
  unfold place_pixel.
  destruct (clipped width height (x + xoff) (y + yoff)).
  - exists (fun _ => true), []. reflexivity.
  - apply Z.eqb_neq in opaque. rewrite opaque.
    destruct (i_depth i =? 3); [apply blind_copy_rgb|apply blind_copy_gray].
Qed.

Lemma blind_place_tile :
  blind (place_tile wild_uchar width height i xoff yoff).
Proof.
  unfold place_tile. apply blind_for_each. intros y _.
  apply blind_for_each. intros x _. apply blind_place_pixel.
Qed.

(** X2.  A tile without alpha channel (depth 3, depth 1, or any depth other
    than 4) that has been placed can be placed again at the same position
    without changing the canvas. *)
Theorem opaque_tile_placed_twice (buf buf1 : list Z) :
  place_tile wild_uchar width height i xoff yoff buf = Some buf1 ->
  place_tile wild_uchar width height i xoff yoff buf1 = Some buf1.
Proof. apply blind_twice, blind_place_tile. Qed.

End Idempotence.

Lemma opaque_tile_placed_twice_witness :
  place_tile (fun _ => 0) 4 2 (plain_tile 255 0 0) 0 0
    [255; 0; 0; 255;  255; 0; 0; 255;  0; 0; 0; 0;  0; 0; 0; 0;
     255; 0; 0; 255;  255; 0; 0; 255;  0; 0; 0; 0;  0; 0; 0; 0]
  = Some [255; 0; 0; 255;  255; 0; 0; 255;  0; 0; 0; 0;  0; 0; 0; 0;
          255; 0; 0; 255;  255; 0; 0; 255;  0; 0; 0; 0;  0; 0; 0; 0].
Proof.
  apply (opaque_tile_placed_twice (fun _ => 0) 4 2 (plain_tile 255 0 0) 0 0
           ltac:(discriminate) (replicate 32 0)).
  reflexivity.
Defined.

(** ** Two tiles side by side *)

(** A red and a blue 2x2 RGB tile, for the tile columns 0 and 1, fill a
    4x2 canvas: the left two columns are red, the right two blue, and every
    pixel is opaque. *)
Example red_and_blue_tiles_side_by_side :
  assemble (fun _ => 0) column_server red_or_blue no_jpeg
    two_pixel_tiles_cmdline 1 (Raster 0 0 1 0 0 0 4 2) (replicate 32 0)
  = ([Fetch "osm" 1 0 0; Fetch "osm" 1 1 0],
     Ret [255; 0; 0; 255;  255; 0; 0; 255;  0; 0; 255; 255;  0; 0; 255; 255;
          255; 0; 0; 255;  255; 0; 0; 255;  0; 0; 255; 255;  0; 0; 255; 255]).
Proof. reflexivity. Qed.

(** ** Tile rows and columns at the requested zoom *)

Lemma shr_u32_monotone (wild_shift : Z -> Z -> Z) (a b c : Z) :
  0 <= c < 32 -> a <= b ->
  shr_u32 wild_shift a c <= shr_u32 wild_shift b c.
Proof.
  intros Hc Hab. unfold shr_u32.
  destruct (Z.leb_spec 0 c); [|lia]. destruct (Z.ltb_spec c 32); [|lia].
  simpl. rewrite !Z.shiftr_div_pow2 by lia.
  apply Z.div_le_mono; [apply Z.pow_pos_nonneg; lia | exact Hab].
Qed.

(** For a zoom from 1 to 32 the shifts of lines 388-391 keep the order
    of the zoom-32 grid: when the first corner is not to the right of and not
    below the second one on the zoom-32 grid, the tile range is not empty. *)
Theorem tile_range_follows_grid_order (wild_shift : Z -> Z -> Z)
    (cl : cmdline) (zoom : Z) (b : bounds) :
  1 <= zoom <= 32 -> x1 b <= x2 b -> y1 b <= y2 b ->
  tx1 (raster_of wild_shift cl zoom b) <= tx2 (raster_of wild_shift cl zoom b)
  /\ ty1 (raster_of wild_shift cl zoom b)
     <= ty2 (raster_of wild_shift cl zoom b).
Proof.
  intros Hz Hx Hy. unfold raster_of. cbn [tx1 tx2 ty1 ty2].
  split; apply shr_u32_monotone; lia.
Qed.

Lemma tile_range_follows_grid_order_witness :
  tx1 (raster_of Standin.zero2 half_world_cmdline 14
         (Bounds 1073741824 1610612736 3221225472 2684354560 0 0 0 0))
  <= tx2 (raster_of Standin.zero2 half_world_cmdline 14
            (Bounds 1073741824 1610612736 3221225472 2684354560 0 0 0 0))
  /\ ty1 (raster_of Standin.zero2 half_world_cmdline 14
            (Bounds 1073741824 1610612736 3221225472 2684354560 0 0 0 0))
     <= ty2 (raster_of Standin.zero2 half_world_cmdline 14
               (Bounds 1073741824 1610612736 3221225472 2684354560 0 0 0 0)).
Proof.
  apply (tile_range_follows_grid_order Standin.zero2 half_world_cmdline 14
           (Bounds 1073741824 1610612736 3221225472 2684354560 0 0 0 0));
    simpl; lia.
Defined.

(** ** Tile size and canvas size *)

(** A decoded tile whose height or width is not the configured tile
    size ends the run at once: "Got WxH tile, not N" on [stderr],
    [EXIT_FAILURE], and no pixel of the tile is placed. *)
Theorem tile_of_wrong_size_is_fatal (wild_uchar : float -> Z) (cl : cmdline)
    (r : raster) (xoff yoff : Z) (i : image) (buf : list Z) :
  i_height i <> tilesize cl \/ i_width i <> tilesize cl ->
  handle_image wild_uchar cl r xoff yoff (Some i) buf
  = ([Stderr (Got_tile_not (i_width i) (i_height i) (tilesize cl))],
     Exit C.EXIT_FAILURE).
Proof.
  intros Hsize. unfold handle_image.
  assert (H : negb (i_height i =? tilesize cl)
              || negb (i_width i =? tilesize cl) = true).
  { apply orb_true_iff.
    destruct Hsize as [H|H]; [left|right];
      apply negb_true_iff, Z.eqb_neq, H. }
  by rewrite H.
Qed.

Lemma tile_of_wrong_size_is_fatal_witness :
  handle_image (fun _ => 0) two_pixel_tiles_cmdline (Raster 0 0 1 0 0 0 4 2)
    0 0 (Some (Image [7; 7; 7] 3 1 1)) (replicate 32 0)
  = ([Stderr (Got_tile_not 1 1 2)], Exit C.EXIT_FAILURE).
Proof.
  apply (tile_of_wrong_size_is_fatal (fun _ => 0) two_pixel_tiles_cmdline
           (Raster 0 0 1 0 0 0 4 2) 0 0 (Image [7; 7; 7] 3 1 1)).
  left. discriminate.
Defined.

Lemma store_length (buf buf' : list Z) (k v : Z) :
  store buf k v = Some buf' -> length buf' = length buf.
Proof.
  unfold store. destruct (_ && _); [|discriminate].
  intros [= <-]. apply length_insert.
Qed.

Lemma for_each_preserves {I St : Type} (P : St -> St -> Prop)
    (body : I -> St -> option St) (idx : list I) :
  (forall s, P s s) -> (forall s1 s2 s3, P s1 s2 -> P s2 s3 -> P s1 s3) ->
  (forall k s s', body k s = Some s' -> P s s') ->
  forall s s', for_each body idx s = Some s' -> P s s'.
Proof.
  intros Hrefl Htrans Hbody.
  induction idx as [|k idx IH]; intros s s' Hrun.
  - injection Hrun as <-. apply Hrefl.
  - cbn [for_each] in Hrun.
    destruct (body k s) as [s1|] eqn:Hk; [|discriminate].
    simpl in Hrun. eapply Htrans; [eapply Hbody, Hk | apply IH, Hrun].
Qed.

Ltac stores_keep_length :=
  repeat match goal with
         | H : (_ ≫= _) = Some _ |- _ =>
             apply bind_Some in H as (? & ? & H)
         | H : store _ _ _ = Some _ |- _ => apply store_length in H
         end;
  congruence.

(** Placing a tile, of any depth and at any offset, never changes the
    size of the canvas buffer. *)
Theorem place_tile_keeps_length (wild_uchar : float -> Z) (width height : Z)
    (i : image) (xoff yoff : Z) (buf buf' : list Z) :
  place_tile wild_uchar width height i xoff yoff buf = Some buf' ->
  length buf' = length buf.
Proof.
  unfold place_tile.
  apply (for_each_preserves (fun b b' : list Z => length b' = length b));
    [reflexivity | congruence |].
  intros y.
  apply (for_each_preserves (fun b b' : list Z => length b' = length b));
    [reflexivity | congruence |].
  intros x b b' Hpix. unfold place_pixel in Hpix.
  destruct (clipped _ _ _ _); [congruence|].
  destruct (i_depth i =? 4); [|destruct (i_depth i =? 3)].
  - unfold blend_rgba in Hpix. stores_keep_length.
  - unfold copy_rgb in Hpix. stores_keep_length.
  - unfold copy_gray in Hpix. stores_keep_length.
Qed.

Lemma place_tile_keeps_length_witness :
  length [255; 0; 0; 255;  255; 0; 0; 255;  0; 0; 0; 0;  0; 0; 0; 0;
          255; 0; 0; 255;  255; 0; 0; 255;  0; 0; 0; 0;  0; 0; 0; 0]
  = length (replicate 32 0 : list Z).
Proof.
  apply (place_tile_keeps_length (fun _ => 0) 4 2 (plain_tile 255 0 0) 0 0).
  reflexivity.
Defined.

(** ** The URL of a tile *)

Lemma append_cons (c : ascii) (a b : string) :
  String c a +:+ b = String c (a +:+ b).
Proof. reflexivity. Qed.

Lemma length_append (a b : string) :
  String.length (a +:+ b) = (String.length a + String.length b)%nat.
Proof.
  induction a as [|c a IH]; [reflexivity|].
  rewrite append_cons. simpl. by rewrite IH.
Qed.

Lemma append_assoc (a b c : string) : (a +:+ b) +:+ c = a +:+ (b +:+ c).
Proof.
  induction a as [|x a IH]; [reflexivity|].
  rewrite !append_cons. by rewrite IH.
Qed.

Lemma append_empty_r (a : string) : a +:+ "" = a.
Proof.
  induction a as [|x a IH]; [reflexivity|].
  rewrite append_cons. by rewrite IH.
Qed.

Lemma length_decimal (fuel : nat) (n : Z) (acc : string) :
  (String.length (decimal fuel n acc) <= fuel + String.length acc)%nat.
Proof.
  revert n acc. induction fuel as [|fuel IH]; intros n acc; simpl; [lia|].
  destruct (n / 10 =? 0); simpl; [lia|].
  etrans; [apply IH|]. simpl. lia.
Qed.

Lemma length_sprintf_u (n : Z) : (String.length (sprintf_u n) <= 10)%nat.
Proof. unfold sprintf_u. etrans; [apply length_decimal|]. simpl. lia. Qed.

Lemma length_sprintf_d (n : Z) :
  0 <= n -> (String.length (sprintf_d n) <= 10)%nat.
Proof.
  intros Hn. unfold sprintf_d. destruct (Z.ltb_spec n 0); [lia|].
  etrans; [apply length_decimal|]. simpl. lia.
Qed.

(** Induction on a string, two characters or more at a time. *)
Lemma string_length_ind (P : string -> Prop) :
  (forall s, (forall s', (String.length s' < String.length s)%nat -> P s')
             -> P s) ->
  forall s, P s.
Proof.
  intros Hstep s.
  assert (H : forall n s, (String.length s < n)%nat -> P s).
  { induction n as [|n IH]; intros s' Hlen; [lia|].
    apply Hstep. intros s'' Hlt. apply IH. lia. }
  apply (H (S (String.length s))). lia.
Qed.

Section Urls.

Variable rand : nat -> Z.
Variables zoom tx ty : Z.

Hypothesis zoom_range : 0 <= zoom < 2 ^ 31.

Local Abbreviation expand_from' := (expand_from rand zoom tx ty).
Local Abbreviation substitute_from' := (substitute_from rand zoom tx ty).

Lemma expand_from_fits (end_ : Z) (cp : string) :
  forall out calls url2 k,
    Z.of_nat (String.length out) < end_ ->
    expand_from' end_ cp out calls = Expanded url2 k ->
    Z.of_nat (String.length url2) < end_.
Proof.
  induction cp as [cp IH] using string_length_ind.
  intros out calls url2 k Hout Hrun.
  destruct cp as [|c rest]; [simpl in Hrun; congruence|].
  cbn [expand_from] in Hrun.
  destruct (Z.ltb_spec (Z.of_nat (String.length out)) (end_ - 10));
    [|congruence].
  assert (Hcopy : forall ch calls',
             expand_from' end_ rest (out +:+ String ch "") calls'
             = Expanded url2 k ->
             Z.of_nat (String.length url2) < end_).
  { intros ch calls'. apply IH; [simpl; lia|].
    rewrite length_append. simpl. lia. }
  destruct (Ascii.eqb c "{"); [|by eapply Hcopy].
  destruct rest as [|c1 [|c2 rest2]]; [discriminate|by eapply Hcopy|].
  destruct (Ascii.eqb c2 "}"); [|by eapply Hcopy].
  pose proof (length_sprintf_d zoom ltac:(lia)).
  pose proof (length_sprintf_u tx). pose proof (length_sprintf_u ty).
  destruct (Ascii.eqb c1 "z");
    [eapply IH; [| |exact Hrun]; [simpl; lia|rewrite length_append; lia]|].
  destruct (Ascii.eqb c1 "x");
    [eapply IH; [| |exact Hrun]; [simpl; lia|rewrite length_append; lia]|].
  destruct (Ascii.eqb c1 "y");
    [eapply IH; [| |exact Hrun]; [simpl; lia|rewrite length_append; lia]|].
  destruct (Ascii.eqb c1 "s"); [|discriminate].
  eapply IH; [| |exact Hrun]; [simpl; lia|rewrite length_append; simpl; lia].
Qed.

Lemma expand_from_complete (end_ : Z) (cp : string) :
  forall out calls,
    Z.of_nat (String.length out + String.length cp + 7 * braces cp)
    <= end_ - 10 ->
    expand_from' end_ cp out calls = substitute_from' cp out calls.
Proof.
  induction cp as [cp IH] using string_length_ind.
  intros out calls Hphi.
  destruct cp as [|c rest]; [reflexivity|].
  cbn [expand_from substitute_from]. cbn [braces String.length] in Hphi.
  destruct (Z.ltb_spec (Z.of_nat (String.length out)) (end_ - 10)); [|lia].
  assert (Hcopy : forall ch calls',
             expand_from' end_ rest (out +:+ String ch "") calls'
             = substitute_from' rest (out +:+ String ch "") calls').
  { intros ch calls'. apply IH; [simpl; lia|].
    rewrite length_append. simpl. destruct (Ascii.eqb c "{"); lia. }
  destruct (Ascii.eqb c "{") eqn:Hc; [|apply Hcopy].
  destruct rest as [|c1 [|c2 rest2]]; [reflexivity|apply Hcopy|].
  destruct (Ascii.eqb c2 "}") eqn:Hc2; [|apply Hcopy].
  pose proof (length_sprintf_d zoom ltac:(lia)).
  pose proof (length_sprintf_u tx). pose proof (length_sprintf_u ty).
  cbn [braces String.length] in Hphi.
  apply Ascii.eqb_eq in Hc2. subst c2. cbn [Ascii.eqb] in Hphi.
  change (Ascii.eqb "}" "{") with false in Hphi.
  destruct (Ascii.eqb c1 "z") eqn:Hz.
  { apply Ascii.eqb_eq in Hz. subst c1.
    apply IH; [simpl; lia|]. rewrite length_append. simpl in Hphi. lia. }
  destruct (Ascii.eqb c1 "x") eqn:Hx.
  { apply Ascii.eqb_eq in Hx. subst c1.
    apply IH; [simpl; lia|]. rewrite length_append. simpl in Hphi. lia. }
  destruct (Ascii.eqb c1 "y") eqn:Hy.
  { apply Ascii.eqb_eq in Hy. subst c1.
    apply IH; [simpl; lia|]. rewrite length_append. simpl in Hphi. lia. }
  destruct (Ascii.eqb c1 "s") eqn:Hs; [|reflexivity].
  apply Ascii.eqb_eq in Hs. subst c1.
  apply IH; [simpl; lia|]. rewrite length_append. simpl in Hphi |- *. lia.
Qed.


Lemma expand_from_literal (end_ : Z) (pre rest : string) :
  forall out calls,
    braces pre = O ->
    Z.of_nat (String.length out + String.length pre) <= end_ - 10 ->
    expand_from' end_ (pre +:+ rest) out calls
    = expand_from' end_ rest (out +:+ pre) calls.
Proof.
  induction pre as [|c pre IH]; intros out calls Hpre Hlen.
  - by rewrite append_empty_r.
  - rewrite append_cons. cbn [expand_from]. cbn [braces] in Hpre.
    cbn [String.length] in Hlen.
    destruct (Z.ltb_spec (Z.of_nat (String.length out)) (end_ - 10)); [|lia].
    destruct (Ascii.eqb c "{"); [discriminate|].
    rewrite IH; [|exact Hpre|rewrite length_append; simpl; lia].
    by rewrite append_assoc.
Qed.

Lemma substitute_from_literal (pre rest : string) :
  forall out calls,
    braces pre = O ->
    substitute_from' (pre +:+ rest) out calls
    = substitute_from' rest (out +:+ pre) calls.
Proof.
  induction pre as [|c pre IH]; intros out calls Hpre.
  - by rewrite append_empty_r.
  - rewrite append_cons. cbn [substitute_from]. cbn [braces] in Hpre.
    destruct (Ascii.eqb c "{"); [discriminate|].
    rewrite IH by exact Hpre. by rewrite append_assoc.
Qed.

Lemma substitute_from_z (rest out : string) (calls : nat) :
  substitute_from' ("{z}" +:+ rest) out calls
  = substitute_from' rest (out +:+ sprintf_d zoom) calls.
Proof. reflexivity. Qed.

Lemma substitute_from_x (rest out : string) (calls : nat) :
  substitute_from' ("{x}" +:+ rest) out calls
  = substitute_from' rest (out +:+ sprintf_u tx) calls.
Proof. reflexivity. Qed.

Lemma substitute_from_y (rest out : string) (calls : nat) :
  substitute_from' ("{y}" +:+ rest) out calls
  = substitute_from' rest (out +:+ sprintf_u ty) calls.
Proof. reflexivity. Qed.

Lemma braces_append (a b : string) :
  braces (a +:+ b) = (braces a + braces b)%nat.
Proof.
  induction a as [|c a IH]; [reflexivity|].
  rewrite append_cons. cbn [braces]. destruct (Ascii.eqb c "{"); lia.
Qed.

(** X15.  For a zoom that is not negative, the URL that the loop of lines
    440-462 writes fits, with its terminator, into [url2[end]]: it is
    shorter than [strlen(url) + 50], whatever the template and the tile. *)
Theorem expanded_url_fits_buffer (url : string) (calls : nat)
    (url2 : string) (k : nat) :
  expand rand zoom tx ty url calls = Expanded url2 k ->
  Z.of_nat (String.length url2) < Z.of_nat (String.length url) + 50.
Proof. apply expand_from_fits. simpl. lia. Qed.

Lemma expand_complete (url : string) (calls : nat) :
  (braces url <= 5)%nat ->
  expand rand zoom tx ty url calls = substitute_from' url "" calls.
Proof. intros Hb. apply expand_from_complete. simpl. lia. Qed.

(** X16.  A template with at most five opening braces is expanded in full:
    the guard [out - url2 < end - 10] does not end the loop before the
    terminator of [url], so that [url2] is the template with its tokens
    replaced. *)
Theorem url_with_few_tokens_is_not_truncated (url : string) (calls : nat) :
  (braces url <= 5)%nat ->
  expand rand zoom tx ty url calls = substitute_from' url "" calls.
Proof. apply expand_complete. Qed.

(** A URL without braces is requested as it stands. *)
Corollary literal_url_is_unchanged (url : string) (calls : nat) :
  braces url = O -> expand rand zoom tx ty url calls = Expanded url calls.
Proof.
  intros Hb. rewrite expand_complete by lia.
  rewrite <- (append_empty_r url) at 1.
  by rewrite substitute_from_literal.
Qed.

Lemma zxy_expansion (pre a b post : string) (calls : nat) :
  braces pre = O -> braces a = O -> braces b = O -> braces post = O ->
  expand rand zoom tx ty
    (pre +:+ "{z}" +:+ a +:+ "{x}" +:+ b +:+ "{y}" +:+ post) calls
  = Expanded (pre +:+ sprintf_d zoom +:+ a +:+ sprintf_u tx +:+ b
              +:+ sprintf_u ty +:+ post) calls.
Proof.
  intros Hpre Ha Hb Hpost.
  rewrite expand_complete.
  2:{ rewrite !braces_append, Hpre, Ha, Hb, Hpost. simpl. lia. }
  rewrite substitute_from_literal by exact Hpre.
  rewrite substitute_from_z, substitute_from_literal by exact Ha.
  rewrite substitute_from_x, substitute_from_literal by exact Hb.
  rewrite substitute_from_y.
  rewrite <- (append_empty_r post) at 1.
  rewrite substitute_from_literal by exact Hpost.
  cbn [substitute_from]. by rewrite !append_assoc.
Qed.

(** X17.  The template of the usage line: [pre{z}a{x}b{y}post], with no
    brace in [pre], [a], [b] and [post], expands to [pre], the zoom, [a], the
    tile column, [b], the tile row and [post], the numbers in decimal;
    [rand] is not called. *)
Theorem zxy_template_is_filled_in (pre a b post : string) (calls : nat) :
  braces pre = O -> braces a = O -> braces b = O -> braces post = O ->
  expand rand zoom tx ty
    (pre +:+ "{z}" +:+ a +:+ "{x}" +:+ b +:+ "{y}" +:+ post) calls
  = Expanded (pre +:+ sprintf_d zoom +:+ a +:+ sprintf_u tx +:+ b
              +:+ sprintf_u ty +:+ post) calls.
Proof. apply zxy_expansion. Qed.

Lemma substitute_from_s (rest out : string) (calls : nat) :
  substitute_from' ("{s}" +:+ rest) out calls
  = substitute_from' rest
      (out +:+ String (ascii_of_nat (Z.to_nat (97 + Z.rem (rand calls) 3)))
                      "")
      (S calls).
Proof. reflexivity. Qed.

(** X21.  A token [{s}] is replaced by one character, a, b or c, taken from
    one call of [rand]: [pre{s}post], with no brace in [pre] and [post],
    expands to [pre], that character and [post]. *)
Theorem subdomain_token_is_a_b_or_c (pre post : string) (calls : nat) :
  braces pre = O -> braces post = O -> 0 <= rand calls ->
  exists c,
    (c = "a" \/ c = "b" \/ c = "c")%char
    /\ expand rand zoom tx ty (pre +:+ "{s}" +:+ post) calls
       = Expanded (pre +:+ String c post) (S calls).
Proof.
  intros Hpre Hpost Hrand.
  exists (ascii_of_nat (Z.to_nat (97 + Z.rem (rand calls) 3))). split.
  - pose proof (Z.rem_bound_pos (rand calls) 3 Hrand ltac:(lia)) as Hr.
    assert (Hcase : Z.rem (rand calls) 3 = 0 \/ Z.rem (rand calls) 3 = 1
                    \/ Z.rem (rand calls) 3 = 2) by lia.
    destruct Hcase as [-> | [-> | ->]]; [left|right; left|right; right];
      reflexivity.
  - rewrite expand_complete.
    2:{ rewrite !braces_append, Hpre, Hpost. simpl. lia. }
    rewrite substitute_from_literal by exact Hpre.
    rewrite substitute_from_s.
    rewrite <- (append_empty_r post) at 1.
    rewrite substitute_from_literal by exact Hpost.
    cbn [substitute_from]. by rewrite !append_assoc.
Qed.

(** X18.  When the first brace of a template opens a token [{c}] with [c]
    other than z, x, y and s, the loop ends the run with the message
    "Unknown format token c". *)
Theorem unknown_token_is_fatal (pre post : string) (c : ascii)
    (calls : nat) :
  braces pre = O -> c <> "z"%char -> c <> "x"%char -> c <> "y"%char ->
  c <> "s"%char ->
  expand rand zoom tx ty (pre +:+ String "{" (String c (String "}" post)))
    calls
  = Unknown_format_token c.
Proof.
  intros Hpre Hz Hx Hy Hs. unfold expand.
  rewrite expand_from_literal;
    [|exact Hpre|rewrite length_append; simpl; lia].
  cbn [expand_from].
  destruct (Z.ltb_spec (Z.of_nat (String.length ("" +:+ pre)))
              (Z.of_nat (String.length
                 (pre +:+ String "{" (String c (String "}" post))))
               + 50 - 10)) as [_|Hge].
  2:{ rewrite !length_append in Hge. simpl in Hge. lia. }
  change (Ascii.eqb "{" "{") with true. change (Ascii.eqb "}" "}") with true.
  cbv iota.
  apply Ascii.eqb_neq in Hz, Hx, Hy, Hs. by rewrite Hz, Hx, Hy, Hs.
Qed.

(** X19.  For a template whose only brace is its last character, the test
    [cp[2] == '}'] reads the character behind the terminator of [url]. *)
Theorem trailing_brace_is_read_past (pre : string) (calls : nat) :
  braces pre = O ->
  expand rand zoom tx ty (pre +:+ "{") calls = Read_past_terminator.
Proof.
  intros Hpre. unfold expand.
  rewrite expand_from_literal;
    [|exact Hpre|rewrite length_append; simpl; lia].
  cbn [expand_from].
  destruct (Z.ltb_spec (Z.of_nat (String.length ("" +:+ pre)))
              (Z.of_nat (String.length (pre +:+ "{")) + 50 - 10))
    as [_|Hge]; [reflexivity|].
  rewrite !length_append in Hge. simpl in Hge. lia.
Qed.

End Urls.

Lemma expanded_url_fits_buffer_witness :
  Z.of_nat (String.length "http://tile.openstreetmap.org/14/9050/5731.png")
  < Z.of_nat (String.length osm_template) + 50.
Proof.
  apply (expanded_url_fits_buffer rand_zero 14 9050 5731 ltac:(lia)
           osm_template 0 "http://tile.openstreetmap.org/14/9050/5731.png"
           0).
  reflexivity.
Defined.

Lemma url_with_few_tokens_is_not_truncated_witness :
  expand rand_zero 14 9050 5731 osm_template 0
  = substitute_from rand_zero 14 9050 5731 osm_template "" 0.
Proof.
  apply (url_with_few_tokens_is_not_truncated rand_zero 14 9050 5731
           ltac:(lia) osm_template 0).
  vm_compute. lia.
Defined.

Lemma zxy_template_is_filled_in_witness :
  expand rand_zero 14 9050 5731
    ("http://tile.openstreetmap.org/" +:+ "{z}" +:+ "/" +:+ "{x}" +:+ "/"
     +:+ "{y}" +:+ ".png") 0
  = Expanded ("http://tile.openstreetmap.org/" +:+ sprintf_d 14 +:+ "/"
              +:+ sprintf_u 9050 +:+ "/" +:+ sprintf_u 5731 +:+ ".png") 0.
Proof.
  apply (zxy_template_is_filled_in rand_zero 14 9050 5731 ltac:(lia)
           "http://tile.openstreetmap.org/" "/" "/" ".png" 0);
    reflexivity.
Defined.

Lemma unknown_token_is_fatal_witness :
  expand rand_zero 14 9050 5731
    ("http://example.org/" +:+ String "{" (String "q" (String "}" "/{x}")))
    0
  = Unknown_format_token "q".
Proof.
  apply (unknown_token_is_fatal rand_zero 14 9050 5731 "http://example.org/"
           "/{x}" "q" 0); [reflexivity|discriminate..].
Defined.

Lemma subdomain_token_is_a_b_or_c_witness :
  exists c,
    (c = "a" \/ c = "b" \/ c = "c")%char
    /\ expand (fun k => 5) 14 9050 5731
         ("http://" +:+ "{s}" +:+ ".tile.example.org/") 0
       = Expanded ("http://" +:+ String c ".tile.example.org/") 1.
Proof.
  apply (subdomain_token_is_a_b_or_c (fun k => 5) 14 9050 5731 ltac:(lia)
           "http://" ".tile.example.org/" 0); [reflexivity..|lia].
Defined.

Lemma trailing_brace_is_read_past_witness :
  expand rand_zero 14 9050 5731 ("http://example.org/" +:+ "{") 0
  = Read_past_terminator.
Proof.
  apply (trailing_brace_is_read_past rand_zero 14 9050 5731
           "http://example.org/" 0).
  reflexivity.
Defined.

(** ** Telling tiles apart *)

Lemma append_snoc_inj (a b : string) (c d : ascii) :
  a +:+ String c "" = b +:+ String d "" -> a = b /\ c = d.
Proof.
  revert b. induction a as [|x a IH]; intros [|y b] H.
  - by injection H as ->.
  - rewrite append_cons in H. injection H as -> H. by destruct b.
  - rewrite append_cons in H. injection H as -> H. by destruct a.
  - rewrite !append_cons in H. injection H as -> H.
    destruct (IH b H) as [-> ->]. done.
Qed.

Lemma digit_inj (d e : Z) :
  0 <= d < 10 -> 0 <= e < 10 -> digit d = digit e -> d = e.
Proof.
  intros Hd He H. unfold digit in H.
  apply (f_equal nat_of_ascii) in H.
  rewrite !nat_ascii_embedding in H by lia. lia.
Qed.

Lemma is_digit_digit (d : Z) : 0 <= d < 10 -> is_digit (digit d) = true.
Proof.
  intros Hd. unfold is_digit, digit. rewrite nat_ascii_embedding by lia.
  apply andb_true_iff. split; apply Nat.leb_le; lia.
Qed.

Lemma decimal_append (fuel : nat) : forall (n : Z) (acc : string),
  decimal fuel n acc = decimal fuel n "" +:+ acc.
Proof.
  induction fuel as [|fuel IH]; intros n acc; [reflexivity|].
  cbn [decimal]. destruct (n / 10 =? 0); [reflexivity|].
  rewrite (IH _ (String _ acc)), (IH _ (String _ "")).
  by rewrite append_assoc.
Qed.

Lemma decimal_not_empty (fuel : nat) (n : Z) :
  decimal (S fuel) n "" <> EmptyString.
Proof.
  cbn [decimal]. destruct (n / 10 =? 0); [discriminate|].
  rewrite decimal_append. by destruct (decimal fuel (n / 10) "").
Qed.

Lemma all_digits_append (a b : string) :
  all_digits (a +:+ b) = all_digits a && all_digits b.
Proof.
  induction a as [|c a IH]; [reflexivity|].
  rewrite append_cons. cbn [all_digits]. by rewrite IH, andb_assoc.
Qed.

Lemma all_digits_decimal (fuel : nat) : forall n : Z,
  0 <= n -> all_digits (decimal fuel n "") = true.
Proof.
  induction fuel as [|fuel IH]; intros n Hn; [reflexivity|].
  assert (Hd : is_digit (digit (n mod 10)) = true)
    by (apply is_digit_digit, Z.mod_pos_bound; lia).
  cbn [decimal]. destruct (n / 10 =? 0).
  - cbn [all_digits]. by rewrite Hd.
  - rewrite decimal_append, all_digits_append, IH.
    + cbn [all_digits]. by rewrite Hd.
    + apply Z.div_pos; lia.
Qed.

Lemma decimal_inj (fuel : nat) : forall n m : Z,
  0 <= n < 10 ^ Z.of_nat fuel -> 0 <= m < 10 ^ Z.of_nat fuel ->
  decimal fuel n "" = decimal fuel m "" -> n = m.
Proof.
  induction fuel as [|fuel IH]; intros n m Hn Hm H.
  { change (10 ^ Z.of_nat 0) with 1 in *. lia. }
  assert (Hpow : 10 ^ Z.of_nat (S fuel) = 10 * 10 ^ Z.of_nat fuel).
  { rewrite Nat2Z.inj_succ. apply Z.pow_succ_r. lia. }
  rewrite Hpow in *.
  pose proof (Z.div_mod n 10 ltac:(lia)) as Hdn.
  pose proof (Z.div_mod m 10 ltac:(lia)) as Hdm.
  pose proof (Z.mod_pos_bound n 10 ltac:(lia)) as Hrn.
  pose proof (Z.mod_pos_bound m 10 ltac:(lia)) as Hrm.
  assert (Hqn : 0 <= n / 10 < 10 ^ Z.of_nat fuel).
  { split; [apply Z.div_pos; lia|apply Z.div_lt_upper_bound; lia]. }
  assert (Hqm : 0 <= m / 10 < 10 ^ Z.of_nat fuel).
  { split; [apply Z.div_pos; lia|apply Z.div_lt_upper_bound; lia]. }
  cbn [decimal] in H.
  assert (Hlong : forall k, (k / 10 =? 0) = false ->
             0 <= k / 10 < 10 ^ Z.of_nat fuel ->
             decimal fuel (k / 10) "" <> EmptyString).
  { intros k Hk Hq. destruct fuel as [|fuel'];
      [|apply decimal_not_empty].
    change (10 ^ Z.of_nat 0) with 1 in Hq. apply Z.eqb_neq in Hk. lia. }
  destruct (n / 10 =? 0) eqn:En, (m / 10 =? 0) eqn:Em.
  - injection H as H. apply digit_inj in H; [|lia..].
    apply Z.eqb_eq in En, Em. lia.
  - rewrite decimal_append in H.
    change (String ?c "") with ("" +:+ String c "") in H at 1.
    apply append_snoc_inj in H as [H _].
    symmetry in H. by apply Hlong in H.
  - rewrite decimal_append in H.
    change (String ?c "") with ("" +:+ String c "") in H at 2.
    apply append_snoc_inj in H as [H _]. by apply Hlong in H.
  - rewrite (decimal_append _ (n / 10)), (decimal_append _ (m / 10)) in H.
    apply append_snoc_inj in H as [H Hd].
    apply IH in H; [|lia..]. apply digit_inj in Hd; lia.
Qed.

Lemma sprintf_u_inj (n m : Z) :
  0 <= n < 2 ^ 32 -> 0 <= m < 2 ^ 32 -> sprintf_u n = sprintf_u m -> n = m.
Proof.
  intros Hn Hm. assert (2 ^ 32 < 10 ^ Z.of_nat 10) by reflexivity.
  apply decimal_inj; lia.
Qed.

(** Two strings of digits, each followed by something that does not go on
    with a digit. *)
Lemma digits_cancel (d : string) : forall d' r r' : string,
  all_digits d = true -> all_digits d' = true ->
  no_digit_first r = true -> no_digit_first r' = true ->
  d +:+ r = d' +:+ r' -> d = d' /\ r = r'.
Proof.
  induction d as [|c d IH]; intros [|c' d'] r r' Hd Hd' Hr Hr' H.
  - done.
  - exfalso. change ("" +:+ r) with r in H. subst r.
    rewrite append_cons in Hr.
    cbn [no_digit_first all_digits] in Hr, Hd'.
    apply andb_true_iff in Hd' as [Hc _]. by rewrite Hc in Hr.
  - exfalso. change ("" +:+ r') with r' in H. subst r'.
    rewrite append_cons in Hr'.
    cbn [no_digit_first all_digits] in Hr', Hd.
    apply andb_true_iff in Hd as [Hc _]. by rewrite Hc in Hr'.
  - rewrite !append_cons in H. injection H as -> H.
    cbn [all_digits] in Hd, Hd'.
    apply andb_true_iff in Hd as [_ Hd], Hd' as [_ Hd'].
    destruct (IH d' r r' Hd Hd' Hr Hr' H) as [-> ->]. done.
Qed.

(** X6.  With a template [pre{z}a{x}b{y}post] in which [b] begins with a
    character that is no digit, and [post] is empty or begins with such a
    character, two tiles of one zoom level have the same URL only if they
    are the same tile: the server can tell from the URL which tile is asked
    for. *)
Theorem zxy_urls_tell_tiles_apart (rand : nat -> Z) (zoom tx ty tx' ty' : Z)
    (pre a b post : string) (calls : nat) :
  0 <= zoom < 2 ^ 31 ->
  0 <= tx < 2 ^ 32 -> 0 <= ty < 2 ^ 32 ->
  0 <= tx' < 2 ^ 32 -> 0 <= ty' < 2 ^ 32 ->
  braces pre = O -> braces a = O -> braces b = O -> braces post = O ->
  b <> EmptyString -> no_digit_first b = true ->
  no_digit_first post = true ->
  expand rand zoom tx ty
    (pre +:+ "{z}" +:+ a +:+ "{x}" +:+ b +:+ "{y}" +:+ post) calls
  = expand rand zoom tx' ty'
      (pre +:+ "{z}" +:+ a +:+ "{x}" +:+ b +:+ "{y}" +:+ post) calls ->
  tx = tx' /\ ty = ty'.
Proof.
  intros Hzoom Htx Hty Htx' Hty' Hpre Ha Hb Hpost Hbne Hbd Hpd H.
  rewrite !zxy_expansion in H by assumption.
  injection H as H.
  do 3 apply String.app_inj in H.
  assert (Hnext : forall y, no_digit_first (b +:+ y) = true).
  { intros y. destruct b as [|c b0]; [done|exact Hbd]. }
  apply digits_cancel in H as [Hx H]; try apply Hnext;
    try (apply all_digits_decimal; lia).
  apply String.app_inj in H.
  apply digits_cancel in H as [Hy _]; try exact Hpd;
    try (apply all_digits_decimal; lia).
  split; apply sprintf_u_inj; assumption.
Qed.

Lemma zxy_urls_tell_tiles_apart_witness : 9050 = 9050 /\ 5731 = 5731.
Proof.
  apply (zxy_urls_tell_tiles_apart rand_zero 14 9050 5731 9050 5731
           "http://tile.openstreetmap.org/" "/" "/" ".png" 0);
    try lia; try reflexivity; discriminate.
Defined.

(** ** Presets *)

Lemma find_url_cases (table : list string) (name default_url : string) :
  ((name ∉ names_of table)
   /\ find_url table name default_url = default_url)
  \/ ((name ∈ names_of table)
      /\ (find_url table name default_url ∈ urls_of table)).
Proof.
  revert name default_url.
  induction table as [table IH] using (induction_ltof1 _ (@length string)).
  unfold ltof in IH. intros name default_url.
  destruct table as [|key [|descr [|url table']]];
    try (left; split; [apply not_elem_of_nil|reflexivity]).
  cbn [find_url names_of urls_of].
  destruct (decide (key = name)) as [->|Hne].
  - right. split; apply list_elem_of_here.
  - destruct (IH table' ltac:(simpl; lia) name default_url)
      as [[Hnot Hd]|[Hin Hu]].
    + left. split; [|exact Hd]. rewrite not_elem_of_cons. by split.
    + right. split; by apply list_elem_of_further.
Qed.

(** X20.  For a name that is not the name of a preset, [find_preset_url]
    returns [default_url]. *)
Theorem unknown_preset_gives_default (name default_url : string) :
  name ∉ names_of presets -> find_preset_url name default_url = default_url.
Proof.
  intros Hnot. unfold find_preset_url.
  destruct (find_url_cases presets name default_url) as [[_ H]|[H _]];
    [exact H|contradiction].
Qed.

(** Looking up what [find_preset_url(source, source)] returned gives
    the same URL again: no URL of the table is the name of a preset. *)
Theorem preset_lookup_is_stable (source : string) :
  let url := find_preset_url source source in
  find_preset_url url url = url.
Proof.
  cbv zeta. unfold find_preset_url.
  destruct (find_url_cases presets source source) as [[_ H]|[_ H]].
  - rewrite H. exact H.
  - revert H. generalize (find_url presets source source). intros u Hu.
    assert (Hall : forallb (fun u => bool_decide (find_url presets u u = u))
                     (urls_of presets) = true) by (vm_compute; reflexivity).
    rewrite forallb_forall in Hall.
    apply list_elem_of_In, Hall, bool_decide_eq_true in Hu. exact Hu.
Qed.

Lemma numeric_template_expands (rand : nat -> Z) (zoom tx ty : Z)
    (cp : string) : forall out calls,
  numeric_template cp = true ->
  exists url2,
    substitute_from rand zoom tx ty cp out calls = Expanded url2 calls.
Proof.
  induction cp as [cp IH] using string_length_ind. intros out calls Hcp.
  destruct cp as [|c rest]; [by eexists|].
  cbn [substitute_from numeric_template] in Hcp |- *.
  destruct (Ascii.eqb c "{"); [|apply IH; [simpl; lia|exact Hcp]].
  destruct rest as [|c1 [|c2 rest2]];
    [discriminate|apply IH; [simpl; lia|exact Hcp]|].
  destruct (Ascii.eqb c2 "}"); [|apply IH; [simpl; lia|exact Hcp]].
  apply andb_true_iff in Hcp as [Hc1 Hrest].
  destruct (Ascii.eqb c1 "z"); [apply IH; [simpl; lia|exact Hrest]|].
  destruct (Ascii.eqb c1 "x"); [apply IH; [simpl; lia|exact Hrest]|].
  destruct (Ascii.eqb c1 "y"); [apply IH; [simpl; lia|exact Hrest]|].
  discriminate.
Qed.

(** X22.  The URL of every preset of the table expands, for every tile and
    every zoom that is not negative, to a complete URL: the loop is not cut
    short, meets no unknown token, and does not call [rand]. *)
Theorem presets_expand_in_full (rand : nat -> Z) (zoom tx ty : Z)
    (name : string) (calls : nat) :
  0 <= zoom < 2 ^ 31 ->
  name ∈ names_of presets ->
  tile_url rand zoom tx ty name calls
  = substitute_from rand zoom tx ty (find_preset_url name name) "" calls
  /\ exists url2, tile_url rand zoom tx ty name calls = Expanded url2 calls.
Proof.
  intros Hzoom Hname. unfold tile_url.
  assert (Hall : forallb (fun name =>
              (braces (find_preset_url name name) <=? 5)%nat
              && numeric_template (find_preset_url name name))
            (names_of presets) = true) by (vm_compute; reflexivity).
  rewrite forallb_forall in Hall.
  apply list_elem_of_In, Hall, andb_true_iff in Hname as [Hb Hnum].
  apply Nat.leb_le in Hb.
  rewrite expand_complete by assumption.
  split; [reflexivity|]. by apply numeric_template_expands.
Qed.

Lemma unknown_preset_gives_default_witness :
  find_preset_url osm_template osm_template = osm_template.
Proof.
  apply (unknown_preset_gives_default osm_template osm_template).
  vm_compute names_of. rewrite !not_elem_of_cons.
  repeat split; try discriminate. apply not_elem_of_nil.
Defined.

Lemma presets_expand_in_full_witness :
  tile_url rand_zero 14 9050 5731 "osm" 0
  = substitute_from rand_zero 14 9050 5731 (find_preset_url "osm" "osm") ""
      0
  /\ exists url2, tile_url rand_zero 14 9050 5731 "osm" 0 = Expanded url2 0.
Proof.
  apply (presets_expand_in_full rand_zero 14 9050 5731 "osm" 0); [lia|].
  vm_compute names_of. rewrite !elem_of_cons. do 6 right. by left.
Defined.

(** ** Receiving a transfer *)

Lemma size_t_small (z : Z) : 0 <= z < 2 ^ 64 -> size_t z = z.
Proof. intros H. unfold size_t. by apply Z.mod_small. Qed.

Lemma s32_small (z : Z) : - 2 ^ 31 <= z < 2 ^ 31 -> C.s32 z = z.
Proof. intros H. unfold C.s32. rewrite Z.mod_small; lia. Qed.

Lemma memcpy_Some (dst : list Z) (off : Z) (src : list Z) :
  0 <= off -> off + Z.of_nat (length src) <= Z.of_nat (length dst) ->
  memcpy dst off src
  = Some (take (Z.to_nat off) dst ++ src
          ++ drop (Z.to_nat off + length src) dst).
Proof.
  intros H0 H1. unfold memcpy.
  destruct (Z.leb_spec 0 off); [|lia].
  destruct (Z.leb_spec (off + Z.of_nat (length src)) (Z.of_nat (length dst)));
    [reflexivity|lia].
Qed.

Lemma length_memcpy (dst : list Z) (off : Z) (src dst' : list Z) :
  memcpy dst off src = Some dst' -> length dst' = length dst.
Proof.
  unfold memcpy.
  destruct (Z.leb_spec 0 off); [|discriminate].
  destruct (Z.leb_spec (off + Z.of_nat (length src)) (Z.of_nat (length dst)));
    [|discriminate].
  intros [= <-]. rewrite !length_app, length_take, length_drop. lia.
Qed.

Section Receiving.

Variable fresh : nat -> Z.

Lemma curl_receive_step (chunk : list Z) (d : data) :
  data_ok d ->
  2 * (d_len d + Z.of_nat (length chunk)) + 50000 < 2 ^ 31 ->
  exists d',
    curl_receive fresh chunk d = Some (d', Z.of_nat (length chunk))
    /\ data_ok d'
    /\ d_len d' = d_len d + Z.of_nat (length chunk)
    /\ d_len d' < d_nalloc d'
    /\ take (Z.to_nat (d_len d')) (d_buf d')
       = take (Z.to_nat (d_len d)) (d_buf d) ++ chunk.
Proof.
  intros (Hlen & Hbuf & Hcap) Hsmall. unfold curl_receive.
  set (n := Z.of_nat (length chunk)) in *.
  assert (Hn : 0 <= n) by (unfold n; lia).
  assert (H64 : 2 ^ 31 < 2 ^ 63 < 2 ^ 64) by (split; reflexivity).
  rewrite !(size_t_small (d_len d)), !(size_t_small (d_nalloc d)) by lia.
  rewrite !(size_t_small (d_len d + n)) by lia.
  destruct (Z.leb_spec (d_nalloc d) (d_len d + n)) as [Hgrow|Hroom].
  - rewrite (size_t_small (d_nalloc d + n + 50000)) by lia.
    rewrite (s32_small (d_nalloc d + n + 50000)) by lia.
    set (nalloc := d_nalloc d + n + 50000).
    unfold realloc. rewrite (size_t_small nalloc) by lia.
    destruct (Z.ltb_spec nalloc (2 ^ 63)); [|lia].
    cbn [mbind option_bind d_buf d_len d_nalloc].
    set (block := take (Z.to_nat nalloc) _).
    assert (Hblock : length block = Z.to_nat nalloc).
    { unfold block.
      rewrite length_take, length_app, length_fmap, length_seq. lia. }
    assert (Hkeep : take (Z.to_nat (d_len d)) block
                    = take (Z.to_nat (d_len d)) (d_buf d)).
    { unfold block. rewrite take_take, Nat.min_l by lia.
      apply take_app_le. lia. }
    rewrite memcpy_Some by lia.
    cbn [mbind option_bind].
    rewrite !(size_t_small (d_len d)), !(size_t_small (d_len d + n)),
      (s32_small (d_len d + n)) by lia.
    eexists. split; [reflexivity|].
    cbn [d_buf d_len d_nalloc]. unfold data_ok. cbn [d_buf d_len d_nalloc].
    repeat split; try lia.
    + rewrite !length_app, length_take, length_drop. fold n. lia.
    + rewrite Hkeep, app_assoc. apply take_app_length'.
      rewrite length_app, length_take. fold n. lia.
  - cbn [mbind option_bind]. rewrite memcpy_Some by lia.
    cbn [mbind option_bind].
    rewrite !(size_t_small (d_len d)), !(size_t_small (d_len d + n)),
      (s32_small (d_len d + n)) by lia.
    eexists. split; [reflexivity|].
    cbn [d_buf d_len d_nalloc]. unfold data_ok. cbn [d_buf d_len d_nalloc].
    repeat split; try lia.
    + rewrite !length_app, length_take, length_drop. fold n. lia.
    + rewrite app_assoc. apply take_app_length'.
      rewrite length_app, length_take. fold n. lia.
Qed.

Lemma receive_from (chunks : list (list Z)) : forall d : data,
  data_ok d ->
  2 * (d_len d + Z.of_nat (length (concat chunks))) + 50000 < 2 ^ 31 ->
  exists d',
    for_each (fun chunk d =>
                '(d, n) ← curl_receive fresh chunk d;
                if n =? Z.of_nat (length chunk) then Some d else None)
             chunks d = Some d'
    /\ data_ok d'
    /\ d_len d' = d_len d + Z.of_nat (length (concat chunks))
    /\ take (Z.to_nat (d_len d')) (d_buf d')
       = take (Z.to_nat (d_len d)) (d_buf d) ++ concat chunks.
Proof.
  induction chunks as [|chunk chunks IH]; intros d Hok Hsmall.
  - exists d. cbn [for_each concat length]. rewrite app_nil_r.
    repeat split; try apply Hok. lia.
  - cbn [concat] in Hsmall |- *. rewrite length_app in Hsmall.
    destruct (curl_receive_step chunk d Hok ltac:(lia))
      as (d1 & Hrun & Hok1 & Hlen1 & _ & Hbuf1).
    destruct (IH d1 Hok1 ltac:(lia)) as (d' & Hrest & Hok' & Hlen' & Hbuf').
    exists d'. cbn [for_each]. rewrite Hrun. cbn [mbind option_bind].
    rewrite Z.eqb_refl. cbn [mbind option_bind].
    repeat split; try apply Hok'; [exact Hrest| |].
    + rewrite length_app. lia.
    + by rewrite Hbuf', Hbuf1, app_assoc.
Qed.

(** X23.  The bytes of a transfer arrive in [data.buf] in the order of the
    chunks, [data.len] counts them, and the block is large enough. *)
Theorem received_bytes_are_the_chunks (chunks : list (list Z)) :
  2 * Z.of_nat (length (concat chunks)) + 50000 < 2 ^ 31 ->
  exists d,
    receive fresh chunks = Some d
    /\ d_len d = Z.of_nat (length (concat chunks))
    /\ take (Z.to_nat (d_len d)) (d_buf d) = concat chunks
    /\ d_len d <= Z.of_nat (length (d_buf d)).
Proof.
  intros Hsmall. unfold receive.
  destruct (receive_from chunks (Data [] 0 0)) as (d & Hrun & Hok & Hlen & Hb).
  { unfold data_ok. simpl. lia. }
  { simpl. lia. }
  exists d. split; [exact Hrun|]. simpl in Hlen, Hb.
  destruct Hok as (? & ? & ?). repeat split; [lia|exact Hb|lia].
Qed.

End Receiving.

Lemma received_bytes_are_the_chunks_witness :
  exists d,
    receive fresh_zero [[137; 80]; [78; 71; 13]] = Some d
    /\ d_len d = Z.of_nat (length (concat [[137; 80]; [78; 71; 13]]))
    /\ take (Z.to_nat (d_len d)) (d_buf d)
       = concat [[137; 80]; [78; 71; 13]]
    /\ d_len d <= Z.of_nat (length (d_buf d)).
Proof.
  apply (received_bytes_are_the_chunks fresh_zero [[137; 80]; [78; 71; 13]]).
  vm_compute. reflexivity.
Defined.

(** ** Reading from memory *)

Lemma bytes_at_Some (src : list Z) (off n : Z) :
  0 <= off -> 0 <= n -> off + n <= Z.of_nat (length src) ->
  bytes_at src off n = Some (take (Z.to_nat n) (drop (Z.to_nat off) src)).
Proof.
  intros H0 H1 H2. unfold bytes_at.
  destruct (Z.leb_spec 0 off); [|lia]. destruct (Z.leb_spec 0 n); [|lia].
  destruct (Z.leb_spec (off + n) (Z.of_nat (length src))); [|lia].
  reflexivity.
Qed.

Lemma user_read_data_clamped (data : list Z) (length_ : Z)
    (state : read_state) :
  0 <= rs_off state <= rs_len state ->
  rs_len state <= Z.of_nat (length (rs_base state)) ->
  rs_len state < 2 ^ 31 ->
  0 <= length_ <= Z.of_nat (length data) -> length_ < 2 ^ 63 ->
  let n := Z.min length_ (rs_len state - rs_off state) in
  user_read_data data length_ state
  = Some (take (Z.to_nat n) (drop (Z.to_nat (rs_off state)) (rs_base state))
          ++ drop (Z.to_nat n) data,
          Read_state (rs_base state) (rs_off state + n) (rs_len state)).
Proof.
  intros Hoff Hlen Hint Hreq H63 n. unfold user_read_data.
  assert (H64 : 2 ^ 63 + 2 ^ 31 < 2 ^ 64) by reflexivity.
  assert (H31 : 0 < 2 ^ 31) by reflexivity.
  assert (H63' : 2 ^ 31 < 2 ^ 63) by reflexivity.
  rewrite !(size_t_small (rs_len state)), !(size_t_small (rs_off state))
    by lia.
  rewrite (size_t_small (rs_off state + length_)) by lia.
  rewrite (size_t_small (rs_len state - rs_off state)) by lia.
  assert (Hn : (if rs_len state <? rs_off state + length_
                then rs_len state - rs_off state else length_) = n).
  { unfold n. destruct (Z.ltb_spec (rs_len state) (rs_off state + length_));
      lia. }
  rewrite Hn. clear Hn. assert (0 <= n <= length_) by lia.
  rewrite bytes_at_Some by lia. cbn [mbind option_bind].
  rewrite memcpy_Some by (rewrite ?length_take, ?length_drop; lia).
  cbn [mbind option_bind]. rewrite take_0. cbn [app].
  rewrite (size_t_small (rs_off state + n)), (s32_small (rs_off state + n))
    by lia.
  do 3 f_equal. rewrite length_take, length_drop. f_equal. lia.
Qed.

(** X24.  One call: at most [length] bytes, and never a byte from behind [base +
    len]; the rest of [data] keeps what it held. *)
Theorem user_read_data_is_clamped (data : list Z) (length_ : Z)
    (state : read_state) :
  0 <= rs_off state <= rs_len state ->
  rs_len state <= Z.of_nat (length (rs_base state)) ->
  rs_len state < 2 ^ 31 ->
  0 <= length_ <= Z.of_nat (length data) -> length_ < 2 ^ 63 ->
  let n := Z.min length_ (rs_len state - rs_off state) in
  user_read_data data length_ state
  = Some (take (Z.to_nat n) (drop (Z.to_nat (rs_off state)) (rs_base state))
          ++ drop (Z.to_nat n) data,
          Read_state (rs_base state) (rs_off state + n) (rs_len state)).
Proof. apply user_read_data_clamped. Qed.

Lemma user_read_data_is_clamped_witness :
  user_read_data [0; 0; 0; 0] 4 (Read_state [1; 2; 3; 4; 5] 3 5)
  = Some ([4; 5; 0; 0], Read_state [1; 2; 3; 4; 5] 5 5).
Proof.
  apply (user_read_data_is_clamped [0; 0; 0; 0] 4
           (Read_state [1; 2; 3; 4; 5] 3 5)); simpl; lia.
Defined.

Lemma read_sequence_from (requests : list Z) : forall state : read_state,
  0 <= rs_off state <= rs_len state ->
  rs_len state <= Z.of_nat (length (rs_base state)) ->
  rs_len state < 2 ^ 31 ->
  Forall (fun l => 0 <= l < 2 ^ 63) requests ->
  let n := Z.min (sum_list_Z requests) (rs_len state - rs_off state) in
  read_sequence requests state
  = Some (take (Z.to_nat n) (drop (Z.to_nat (rs_off state)) (rs_base state)),
          Read_state (rs_base state) (rs_off state + n) (rs_len state)).
Proof.
  induction requests as [|l requests IH]; intros state Hoff Hlen Hint Hreq n.
  - unfold n. cbn [read_sequence sum_list_Z foldr].
    rewrite Z.min_l, Z.add_0_r by lia. by destruct state.
  - apply Forall_cons in Hreq as [Hl Hreq]. cbn [read_sequence].
    rewrite user_read_data_clamped;
      [|lia|lia|lia|rewrite length_replicate; lia|lia].
    cbv zeta. cbn [mbind option_bind rs_off].
    set (n1 := Z.min l (rs_len state - rs_off state)).
    assert (Hsum : 0 <= sum_list_Z requests).
    { clear -Hreq. induction Hreq; simpl; lia. }
    rewrite IH; cbn [rs_off rs_len rs_base]; [|lia|lia|lia|exact Hreq].
    cbv zeta. cbn [mbind option_bind].
    set (n2 := Z.min (sum_list_Z requests)
                     (rs_len state - (rs_off state + n1))).
    assert (Hn : n = n1 + n2).
    { unfold n, n1, n2. cbn [sum_list_Z foldr]. fold (sum_list_Z requests).
      lia. }
    assert (0 <= n1) by (unfold n1; lia).
    assert (0 <= n2) by (unfold n2, n1; lia).
    f_equal. f_equal; [|f_equal; lia].
    replace (rs_off state + n1 - rs_off state) with n1 by lia.
    rewrite take_app_length'.
    2:{ rewrite length_take, length_drop. unfold n1. lia. }
    rewrite Hn.
    replace (Z.to_nat (rs_off state + n1))
      with (Z.to_nat (rs_off state) + Z.to_nat n1)%nat by lia.
    rewrite <- drop_drop.
    replace (Z.to_nat (n1 + n2)) with (Z.to_nat n1 + Z.to_nat n2)%nat by lia.
    by rewrite take_take_drop.
Qed.

(** X25.  A decoder that reads the tile in pieces of any sizes is handed the
    bytes of the tile, in order, and none from behind its end. *)
Theorem reads_deliver_the_input_in_order (s : list Z) (requests : list Z) :
  Z.of_nat (length s) < 2 ^ 31 ->
  Forall (fun l => 0 <= l < 2 ^ 63) requests ->
  read_sequence requests (Read_state s 0 (Z.of_nat (length s)))
  = Some (take (Z.to_nat (sum_list_Z requests)) s,
          Read_state s (Z.min (sum_list_Z requests) (Z.of_nat (length s)))
                     (Z.of_nat (length s))).
Proof.
  intros Hint Hreq.
  rewrite read_sequence_from; cbn [rs_off rs_len rs_base];
    [|lia|lia|exact Hint|exact Hreq].
  cbv zeta. rewrite Z.sub_0_r, Z.add_0_l.
  change (Z.to_nat 0) with 0%nat. rewrite drop_0.
  f_equal. f_equal.
  destruct (Z.le_ge_cases (sum_list_Z requests) (Z.of_nat (length s))).
  - by rewrite Z.min_l.
  - rewrite Z.min_r by lia.
    rewrite (take_ge s (Z.to_nat (Z.of_nat (length s)))) by lia.
    by rewrite take_ge by lia.
Qed.

Lemma reads_deliver_the_input_in_order_witness :
  read_sequence [2; 2; 2] (Read_state [1; 2; 3; 4; 5] 0 5)
  = Some ([1; 2; 3; 4; 5], Read_state [1; 2; 3; 4; 5] 5 5).
Proof.
  apply (reads_deliver_the_input_in_order [1; 2; 3; 4; 5] [2; 2; 2]).
  - simpl. lia.
  - repeat constructor; lia.
Defined.

(** ** The decoded image *)

Lemma u32_small (z : Z) : 0 <= z < 2 ^ 32 -> C.u32 z = z.
Proof. intros H. unfold C.u32. by apply Z.mod_small. Qed.

Lemma length_concat_rows (rows : list (list Z)) (rb : nat) :
  Forall (fun row => length row = rb) rows ->
  length (concat rows) = (length rows * rb)%nat.
Proof.
  induction 1 as [|row rows Hrow _ IH]; [reflexivity|].
  cbn [concat]. rewrite length_app, IH, Hrow. simpl. lia.
Qed.

(** Rows of [rb] bytes copied to the offsets [rb * n] of a block of
    [length rows * rb] bytes, from row [m] on. *)
Lemma copy_rows_from (rows : list (list Z)) (rb : Z)
    (place : Z -> Z) (k : nat) : forall (m : nat) (buf : list Z),
  0 <= rb ->
  Forall (fun row => Z.of_nat (length row) = rb) rows ->
  (forall n : nat, (n < length rows)%nat ->
     place (Z.of_nat n) = rb * Z.of_nat n) ->
  length rows = (m + k)%nat ->
  Z.of_nat (length buf) = Z.of_nat (length rows) * rb ->
  for_each (fun n buf =>
              row ← rows !! Z.to_nat n;
              src ← bytes_at row 0 rb;
              memcpy buf (place n) src)
           (seqZ (Z.of_nat m) (Z.of_nat k)) buf
  = Some (take (Z.to_nat (Z.of_nat m * rb)) buf ++ concat (drop m rows)).
Proof.
  induction k as [|k IH]; intros m buf Hrb Hrows Hplace Hlen Hbuf.
  - cbn [for_each seqZ]. change (seqZ _ 0) with (@nil Z). cbn [for_each].
    rewrite drop_ge by lia. rewrite take_ge by nia.
    by rewrite app_nil_r.
  - rewrite seqZ_cons by lia. cbn [for_each].
    rewrite Nat2Z.id.
    destruct (lookup_lt_is_Some_2 rows m ltac:(lia)) as [row Hrow].
    rewrite Hrow. cbn [mbind option_bind].
    assert (Hlrow : Z.of_nat (length row) = rb).
    { rewrite Forall_forall in Hrows. apply Hrows.
      by eapply list_elem_of_lookup_2. }
    rewrite bytes_at_Some by lia. cbn [mbind option_bind].
    change (Z.to_nat 0) with 0%nat. rewrite drop_0.
    rewrite take_ge by lia. rewrite Hplace by lia.
    rewrite memcpy_Some by nia. cbn [mbind option_bind].
    replace (Z.succ (Z.of_nat m)) with (Z.of_nat (S m)) by lia.
    replace (Z.pred (Z.of_nat (S k))) with (Z.of_nat k) by lia.
    rewrite IH; [|lia|exact Hrows|exact Hplace|lia|].
    2:{ rewrite !length_app, length_take, length_drop. nia. }
    rewrite (drop_S rows row m Hrow). cbn [concat].
    rewrite (app_assoc _ row (concat _)). do 2 f_equal.
    rewrite (app_assoc _ row), (Z.mul_comm (Z.of_nat m) rb).
    apply take_app_length'. rewrite length_app, length_take. nia.
Qed.

Lemma copy_scanlines_from (lines : list (list Z)) (rs : Z) (k : nat) :
  forall (m : nat) (buf : list Z),
  0 <= rs ->
  Forall (fun line => Z.of_nat (length line) = rs) lines ->
  length lines = (m + k)%nat ->
  Z.of_nat (length buf) = Z.of_nat (length lines) * rs ->
  for_each (fun n (s : list Z * Z) =>
              let '(buf, here) := s in
              line ← lines !! Z.to_nat n;
              src ← bytes_at line 0 rs;
              buf ← memcpy buf here src;
              Some (buf, here + rs))
           (seqZ (Z.of_nat m) (Z.of_nat k)) (buf, Z.of_nat m * rs)
  = Some (take (Z.to_nat (Z.of_nat m * rs)) buf ++ concat (drop m lines),
          Z.of_nat (m + k) * rs).
Proof.
  induction k as [|k IH]; intros m buf Hrs Hlines Hlen Hbuf.
  - change (seqZ _ (Z.of_nat 0)) with (@nil Z). cbn [for_each].
    rewrite drop_ge by lia. rewrite take_ge by nia.
    by rewrite app_nil_r, Nat.add_0_r.
  - rewrite seqZ_cons by lia. cbn [for_each].
    rewrite Nat2Z.id.
    destruct (lookup_lt_is_Some_2 lines m ltac:(lia)) as [line Hline].
    rewrite Hline. cbn [mbind option_bind].
    assert (Hlline : Z.of_nat (length line) = rs).
    { rewrite Forall_forall in Hlines. apply Hlines.
      by eapply list_elem_of_lookup_2. }
    rewrite bytes_at_Some by lia. cbn [mbind option_bind].
    change (Z.to_nat 0) with 0%nat. rewrite drop_0.
    rewrite take_ge by lia.
    rewrite memcpy_Some by nia. cbn [mbind option_bind].
    replace (Z.succ (Z.of_nat m)) with (Z.of_nat (S m)) by lia.
    replace (Z.pred (Z.of_nat (S k))) with (Z.of_nat k) by lia.
    replace (Z.of_nat m * rs + rs) with (Z.of_nat (S m) * rs) by lia.
    rewrite IH; [|lia|exact Hlines|lia|].
    2:{ rewrite !length_app, length_take, length_drop. nia. }
    rewrite (drop_S lines line m Hline). cbn [concat].
    rewrite (app_assoc _ line (concat _)).
    f_equal. f_equal; [|f_equal; lia]. f_equal.
    rewrite (app_assoc _ line).
    apply take_app_length'. rewrite length_app, length_take. nia.
Qed.

Lemma lookup_concat_rows (rows : list (list Z)) (rb y c : nat) :
  Forall (fun row => length row = rb) rows -> (c < rb)%nat ->
  concat rows !! (y * rb + c)%nat = rows !! y ≫= (fun row => row !! c).
Proof.
  intros Hrows Hc. revert y.
  induction Hrows as [|row rows Hrow _ IH]; intros y; [reflexivity|].
  cbn [concat]. destruct y as [|y].
  - cbn [lookup list_lookup mbind option_bind Nat.mul Nat.add].
    apply lookup_app_l. lia.
  - rewrite lookup_app_r by (simpl; lia).
    replace (S y * rb + c - length row)%nat with (y * rb + c)%nat
      by (simpl; lia).
    apply IH.
Qed.

Section Decoded.

Variable fresh : nat -> Z.

(** X26.  The image [read_png] returns holds the rows libpng decoded, one after
    the other, so that [i->buf[(y * width + x) * depth + c]] is sample [c] of
    pixel [x] of row [y]. *)
Theorem decoded_png_is_row_major (width height channels : Z)
    (row_pointers : list (list Z)) :
  0 < width -> 0 < height -> 0 < channels ->
  width * height * channels < 2 ^ 31 ->
  Z.of_nat (length row_pointers) = height ->
  Forall (fun row => Z.of_nat (length row) = width * channels)
         row_pointers ->
  read_png_image fresh width height channels (width * channels) row_pointers
  = Some (Image (concat row_pointers) channels width height)
  /\ forall x y c, 0 <= x < width -> 0 <= y < height -> 0 <= c < channels ->
       load (concat row_pointers) ((y * width + x) * channels + c)
       = row_pointers !! Z.to_nat y
         ≫= (fun row => row !! Z.to_nat (x * channels + c)).
Proof.
  intros Hw Hh Hc Hsize Hrows Hrow.
  assert (H31 : 2 ^ 31 < 2 ^ 32 < 2 ^ 63) by (split; reflexivity).
  assert (H63 : 2 ^ 63 < 2 ^ 64) by reflexivity.
  assert (Hwc : 0 < width * channels <= width * height * channels) by nia.
  assert (Hw' : width <= width * channels) by nia.
  assert (Hh' : height <= width * height * channels) by nia.
  assert (Hrow' : Forall (fun row => length row
                                     = Z.to_nat (width * channels))
                         row_pointers).
  { eapply Forall_impl; [exact Hrow|]. intros row H. simpl in H. lia. }
  split.
  - unfold read_png_image.
    rewrite (s32_small width), (s32_small height) by lia.
    rewrite s32_small, size_t_small by lia.
    rewrite (u32_small (width * channels)) by lia.
    unfold malloc. destruct (Z.ltb_spec (width * height * channels) (2 ^ 63));
      [|lia].
    cbn [mbind option_bind].
    subst height.
    rewrite (copy_rows_from row_pointers (width * channels)
               (fun n => C.u32 (width * channels * n))
               (length row_pointers) 0);
      [|lia|exact Hrow| |reflexivity|].
    + by rewrite take_0, drop_0.
    + intros n Hn. rewrite u32_small; [reflexivity|nia].
    + rewrite length_fmap, length_seq. lia.
  - intros x y c Hx Hy Hcc. unfold load.
    destruct (Z.ltb_spec ((y * width + x) * channels + c) 0); [nia|].
    replace (Z.to_nat ((y * width + x) * channels + c))
      with (Z.to_nat y * Z.to_nat (width * channels)
            + Z.to_nat (x * channels + c))%nat by nia.
    apply lookup_concat_rows; [exact Hrow'|nia].
Qed.

(** X27.  The image [read_jpeg] returns holds the scanlines libjpeg decoded, one
    after the other. *)
Theorem decoded_jpeg_is_row_major (output_width output_height
    output_components : Z) (scanlines : list (list Z)) :
  0 < output_width -> 0 < output_height -> 0 < output_components ->
  output_width * output_height * output_components < 2 ^ 31 ->
  Z.of_nat (length scanlines) = output_height ->
  Forall (fun line => Z.of_nat (length line)
                      = output_width * output_components) scanlines ->
  read_jpeg_image fresh output_width output_height output_components
    scanlines
  = Some (Image (concat scanlines) output_components output_width
                output_height).
Proof.
  intros Hw Hh Hc Hsize Hlines Hline.
  assert (H31 : 2 ^ 31 < 2 ^ 32 < 2 ^ 63) by (split; reflexivity).
  assert (H63 : 2 ^ 63 < 2 ^ 64) by reflexivity.
  assert (Hwc : 0 < output_width * output_components
                <= output_width * output_height * output_components) by nia.
  assert (Hw' : output_width <= output_width * output_components) by nia.
  assert (Hh' : output_height
                <= output_width * output_height * output_components) by nia.
  unfold read_jpeg_image.
  rewrite (s32_small output_width), (s32_small output_height) by lia.
  rewrite (u32_small (output_width * output_components)) by lia.
  rewrite (s32_small (output_width * output_components)) by lia.
  rewrite (size_t_small (output_width * output_components)) by lia.
  rewrite u32_small by lia.
  unfold malloc.
  destruct (Z.ltb_spec (output_width * output_height * output_components)
                       (2 ^ 63)); [|lia].
  cbn [mbind option_bind]. subst output_height.
  pose proof (copy_scanlines_from scanlines
                (output_width * output_components) (length scanlines) 0)
    as Hcopy.
  cbn [Z.of_nat Z.mul] in Hcopy. rewrite Hcopy; [|lia|exact Hline|lia|].
  - cbn [mbind option_bind fst]. by rewrite take_0, drop_0.
  - rewrite length_fmap, length_seq. lia.
Qed.

End Decoded.

Lemma decoded_png_is_row_major_witness :
  read_png_image fresh_zero 2 2 3 (2 * 3)
    [[1; 2; 3; 4; 5; 6]; [7; 8; 9; 10; 11; 12]]
  = Some (Image (concat [[1; 2; 3; 4; 5; 6]; [7; 8; 9; 10; 11; 12]]) 3 2 2)
  /\ forall x y c, 0 <= x < 2 -> 0 <= y < 2 -> 0 <= c < 3 ->
       load (concat [[1; 2; 3; 4; 5; 6]; [7; 8; 9; 10; 11; 12]])
            ((y * 2 + x) * 3 + c)
       = [[1; 2; 3; 4; 5; 6]; [7; 8; 9; 10; 11; 12]] !! Z.to_nat y
         ≫= (fun row => row !! Z.to_nat (x * 3 + c)).
Proof.
  apply (decoded_png_is_row_major fresh_zero 2 2 3
           [[1; 2; 3; 4; 5; 6]; [7; 8; 9; 10; 11; 12]]);
    try lia; try reflexivity.
  repeat constructor.
Defined.

Lemma decoded_jpeg_is_row_major_witness :
  read_jpeg_image fresh_zero 2 2 3
    [[1; 2; 3; 4; 5; 6]; [7; 8; 9; 10; 11; 12]]
  = Some (Image (concat [[1; 2; 3; 4; 5; 6]; [7; 8; 9; 10; 11; 12]]) 3 2 2).
Proof.
  apply (decoded_jpeg_is_row_major fresh_zero 2 2 3
           [[1; 2; 3; 4; 5; 6]; [7; 8; 9; 10; 11; 12]]);
    try lia; try reflexivity.
  repeat constructor.
Defined.

(** ** The name of the world file *)

Lemma get_append_r (a b : string) (i : nat) :
  String.get (String.length a + i) (a +:+ b) = String.get i b.
Proof. induction a as [|c a IH]; [reflexivity|]. exact IH. Qed.

Lemma substring_append (a b : string) :
  String.substring 0 (String.length a) (a +:+ b) = a.
Proof.
  induction a as [|c a IH]; [by destruct b|].
  rewrite append_cons. simpl. by rewrite IH.
Qed.

Lemma length_substring (s : string) (n : nat) :
  (n <= String.length s)%nat ->
  String.length (String.substring 0 n s) = n.
Proof.
  revert n. induction s as [|c s IH]; intros [|n] Hn; simpl in *;
    try reflexivity; try lia.
  rewrite IH; lia.
Qed.

Lemma get_no_dot (s : string) (i : nat) :
  has_dot s = false -> String.get i s <> Some "."%char.
Proof.
  revert i. induction s as [|c s IH]; intros i Hs; [by destruct i|].
  cbn [has_dot] in Hs. apply orb_false_iff in Hs as [Hc Hs].
  destruct i as [|i]; simpl.
  - apply Ascii.eqb_neq in Hc. congruence.
  - by apply IH.
Qed.

Lemma find_dot_skip (name : string) (lo k : nat) :
  (forall j, (lo < j <= lo + k)%nat -> String.get j name <> Some "."%char) ->
  find_dot name (lo + k) = find_dot name lo.
Proof.
  induction k as [|k IH]; intros Hfree; [by rewrite Nat.add_0_r|].
  replace (lo + S k)%nat with (S (lo + k)) by lia. cbn [find_dot].
  destruct (decide _) as [Hdot|_].
  - exfalso. eapply (Hfree (S (lo + k))); [lia|exact Hdot].
  - apply IH. intros j Hj. apply Hfree. lia.
Qed.

Lemma find_dot_bound (name : string) (i k : nat) :
  find_dot name i = Some k -> (0 < k <= i)%nat.
Proof.
  induction i as [|i IH]; [discriminate|]. cbn [find_dot].
  destruct (decide _); [intros [= <-]; lia|].
  intros H. apply IH in H. lia.
Qed.

(** X28.  A name with an extension: the extension, from the last dot on, is
    replaced. *)
Theorem worldfile_replaces_the_extension (fmt : outfileformat)
    (stem ext : string) :
  stem <> EmptyString -> has_dot ext = false ->
  (String.length (stem +:+ String "." ext) < 1020)%nat ->
  worldfile_filename fmt (stem +:+ String "." ext)
  = Some (stem +:+ worldfilext fmt).
Proof.
  intros Hstem Hext Hlen. unfold worldfile_filename.
  destruct (Nat.ltb_spec (String.length (stem +:+ String "." ext)) 1020);
    [|lia].
  rewrite length_append. cbn [String.length].
  replace (String.length stem + S (String.length ext) - 1)%nat
    with (String.length stem + String.length ext)%nat by lia.
  rewrite find_dot_skip.
  - destruct stem as [|c stem]; [done|]. cbn [String.length find_dot].
    pose proof (get_append_r (String c stem) (String "." ext) 0) as Hget.
    rewrite Nat.add_0_r in Hget. cbn [String.length] in Hget.
    rewrite Hget. cbn [String.get]. rewrite decide_True by reflexivity.
    pose proof (substring_append (String c stem) (String "." ext)) as Hsub.
    cbn [String.length] in Hsub. by rewrite Hsub.
  - intros j Hj.
    replace j with (String.length stem + S (j - String.length stem - 1))%nat
      by lia.
    rewrite get_append_r. cbn [String.get]. by apply get_no_dot.
Qed.

Lemma worldfile_replaces_the_extension_witness :
  worldfile_filename OUTFMT_PNG ("out" +:+ String "." "png")
  = Some ("out" +:+ worldfilext OUTFMT_PNG).
Proof.
  apply (worldfile_replaces_the_extension OUTFMT_PNG "out" "png");
    [discriminate|reflexivity|vm_compute; lia].
Defined.

(** X29.  A name without a dot behind its first character: the extension is
    appended. *)
Theorem worldfile_appends_the_extension (fmt : outfileformat)
    (outfile : string) :
  has_dot (string_tail outfile) = false ->
  (String.length outfile < 1020)%nat ->
  worldfile_filename fmt outfile = Some (outfile +:+ worldfilext fmt).
Proof.
  intros Hdot Hlen. unfold worldfile_filename.
  destruct (Nat.ltb_spec (String.length outfile) 1020); [|lia].
  destruct outfile as [|c rest]; [reflexivity|].
  cbn [String.length string_tail] in *.
  replace (S (String.length rest) - 1)%nat
    with (0 + String.length rest)%nat by lia.
  rewrite find_dot_skip; [reflexivity|].
  intros j Hj. destruct j as [|j]; [lia|]. cbn [String.get].
  by apply get_no_dot.
Qed.

Lemma worldfile_appends_the_extension_witness :
  worldfile_filename OUTFMT_GEOTIFF ".hidden"
  = Some (".hidden" +:+ worldfilext OUTFMT_GEOTIFF).
Proof.
  apply (worldfile_appends_the_extension OUTFMT_GEOTIFF ".hidden");
    [reflexivity|vm_compute; lia].
Defined.

Lemma prefix_refl (s : string) : String.prefix s s = true.
Proof.
  induction s as [|c s IH]; [reflexivity|]. cbn [String.prefix].
  by destruct (ascii_dec c c).
Qed.

Lemma prefix_substring (s : string) (n : nat) :
  (n <= String.length s)%nat ->
  String.prefix (String.substring 0 n s) s = true.
Proof.
  revert n. induction s as [|c s IH]; intros [|n] Hn; simpl in *;
    try reflexivity; try lia.
  destruct (ascii_dec c c); [|done]. apply IH. lia.
Qed.

(** X30.  The name of the world file is the beginning of [outfile] followed by
    the extension, and with its terminator it fits into the 1024 characters of
    [worldfile_filename]. *)
Theorem worldfile_name_fits_buffer (fmt : outfileformat)
    (outfile name : string) :
  worldfile_filename fmt outfile = Some name ->
  (String.length name < 1024)%nat
  /\ exists stem, name = stem +:+ worldfilext fmt
                  /\ String.prefix stem outfile = true.
Proof.
  unfold worldfile_filename.
  destruct (Nat.ltb_spec (String.length outfile) 1020); [|discriminate].
  assert (Hext : String.length (worldfilext fmt) = 4%nat) by by destruct fmt.
  destruct (find_dot outfile (String.length outfile - 1)) as [i|] eqn:Hi.
  - apply find_dot_bound in Hi. intros [= <-].
    rewrite length_append, Hext, length_substring by lia.
    split; [lia|]. eexists. split; [reflexivity|].
    apply prefix_substring. lia.
  - intros [= <-]. rewrite length_append, Hext. split; [lia|].
    exists outfile. split; [reflexivity|apply prefix_refl].
Qed.

Lemma worldfile_name_fits_buffer_witness :
  (String.length "maps.pnw" < 1024)%nat
  /\ exists stem, "maps.pnw" = stem +:+ worldfilext OUTFMT_PNG
                  /\ String.prefix stem "maps.d/out" = true.
Proof.
  apply (worldfile_name_fits_buffer OUTFMT_PNG "maps.d/out" "maps.pnw").
  reflexivity.
Defined.

(** ** Loops over a buffer *)

Lemma for_each_app {I St : Type} (body : I -> St -> option St)
    (l1 l2 : list I) (s : St) :
  for_each body (l1 ++ l2) s = for_each body l1 s ≫= for_each body l2.
Proof.
  revert s. induction l1 as [|k l1 IH]; intros s; [reflexivity|].
  cbn [app for_each]. destruct (body k s) as [s1|]; [|reflexivity].
  cbn [mbind option_bind]. apply IH.
Qed.

Lemma for_each_invariant {I St : Type} (P : St -> Prop)
    (body : I -> St -> option St) (idx : list I) :
  (forall k s s', k ∈ idx -> P s -> body k s = Some s' -> P s') ->
  forall s s', P s -> for_each body idx s = Some s' -> P s'.
Proof.
  induction idx as [|k idx IH]; intros Hbody s s' Hs Hrun.
  - by injection Hrun as <-.
  - cbn [for_each] in Hrun.
    destruct (body k s) as [s1|] eqn:Hk; [|discriminate].
    cbn [mbind option_bind] in Hrun.
    eapply IH; [|eapply Hbody; [apply list_elem_of_here|exact Hs|exact Hk]
               |exact Hrun].
    intros k' s2 s3 Hk'. apply Hbody. by apply list_elem_of_further.
Qed.

(** A property that one round of the loop brings about, and that no other
    round destroys, holds at the end. *)
Lemma for_each_establishes {I St : Type} `{!EqDecision I} (Q : St -> Prop)
    (body : I -> St -> option St) (idx : list I) (k0 : I) :
  k0 ∈ idx ->
  (forall s s', body k0 s = Some s' -> Q s') ->
  (forall k s s', k ∈ idx -> k <> k0 -> Q s -> body k s = Some s' -> Q s') ->
  forall s s', for_each body idx s = Some s' -> Q s'.
Proof.
  intros Hin Hk0 Hkeep s s' Hrun.
  apply list_elem_of_split in Hin as (l1 & l2 & ->).
  rewrite for_each_app in Hrun.
  destruct (for_each body l1 s) as [s1|]; [|discriminate].
  cbn [mbind option_bind for_each] in Hrun.
  destruct (body k0 s1) as [s2|] eqn:Hs2; [|discriminate].
  cbn [mbind option_bind] in Hrun.
  eapply (for_each_invariant Q body l2); [|eapply Hk0, Hs2|exact Hrun].
  intros k s3 s4 Hk HQ Hrun'.
  destruct (decide (k = k0)) as [->|Hne]; [by eapply Hk0|].
  eapply Hkeep; [|exact Hne|exact HQ|exact Hrun'].
  rewrite elem_of_app. right. by apply list_elem_of_further.
Qed.

Lemma store_Some (buf buf' : list Z) (k v : Z) :
  store buf k v = Some buf' ->
  0 <= k < Z.of_nat (length buf) /\ buf' = <[Z.to_nat k := v]> buf.
Proof.
  unfold store. destruct (Z.leb_spec 0 k); [|discriminate].
  destruct (Z.ltb_spec k (Z.of_nat (length buf))); [|discriminate].
  intros [= <-]. split; [lia|reflexivity].
Qed.

Lemma load_insert_ne (buf : list Z) (n : nat) (v j : Z) :
  j <> Z.of_nat n -> load (<[n := v]> buf) j = load buf j.
Proof.
  intros Hne. unfold load. destruct (Z.ltb_spec j 0); [reflexivity|].
  apply list_lookup_insert_ne. lia.
Qed.

Lemma load_insert_eq (buf : list Z) (k v : Z) :
  0 <= k < Z.of_nat (length buf) ->
  load (<[Z.to_nat k := v]> buf) k = Some v.
Proof.
  intros Hk. rewrite <- (Z2Nat.id k) at 2 by lia.
  rewrite load_lookup. apply list_lookup_insert_eq. lia.
Qed.

Lemma pixel_at_frame (buf buf' : list Z) (p : Z) :
  (forall j, 4 * p <= j <= 4 * p + 3 -> load buf' j = load buf j) ->
  pixel_at buf' p = pixel_at buf p.
Proof.
  intros H. unfold pixel_at. by rewrite !H by lia.
Qed.

(** ** Tiles without alpha *)

Section Opaque.

Variable wild_uchar : float -> Z.
Variables width height : Z.
Variable i : image.
Variables xoff yoff : Z.

Hypothesis opaque : i_depth i <> 4.

Local Abbreviation place_pixel' :=
  (place_pixel wild_uchar width height i xoff yoff).

(** The four stores of the branches without alpha. *)
Lemma opaque_pixel_stores (y x : Z) (buf buf' : list Z) :
  clipped width height (x + xoff) (y + yoff) = false ->
  place_pixel' y x buf = Some buf' ->
  let o := ((y + yoff) * width + x + xoff) * 4 in
  exists t0 t1 t2,
    tile_sample i x y 0 = Some t0 /\ tile_sample i x y 1 = Some t1
    /\ tile_sample i x y 2 = Some t2
    /\ 0 <= o /\ o + 3 < Z.of_nat (length buf)
    /\ buf' = <[Z.to_nat (o + 3) := 255]>
                (<[Z.to_nat (o + 2) := t2]>
                   (<[Z.to_nat (o + 1) := t1]>
                      (<[Z.to_nat o := t0]> buf))).
Proof.
  intros Hclip Hrun o. unfold place_pixel in Hrun. rewrite Hclip in Hrun.
  fold o in Hrun. apply Z.eqb_neq in opaque. rewrite opaque in Hrun.
  unfold tile_sample.
  destruct (i_depth i =? 3) eqn:Hd.
  - unfold copy_rgb in Hrun.
    apply bind_Some in Hrun as (t0 & H0 & Hrun).
    apply bind_Some in Hrun as (b0 & Hs0 & Hrun).
    apply bind_Some in Hrun as (t1 & H1 & Hrun).
    apply bind_Some in Hrun as (b1 & Hs1 & Hrun).
    apply bind_Some in Hrun as (t2 & H2 & Hrun).
    apply bind_Some in Hrun as (b2 & Hs2 & Hs3).
    apply store_Some in Hs0 as [? ->]. apply store_Some in Hs1 as [? ->].
    apply store_Some in Hs2 as [? ->]. apply store_Some in Hs3 as [? ->].
    rewrite !length_insert in *. rewrite ?Z.add_0_r in *.
    exists t0, t1, t2. repeat split; try assumption; try lia.
  - unfold copy_gray in Hrun.
    apply bind_Some in Hrun as (t0 & H0 & Hrun).
    apply bind_Some in Hrun as (b0 & Hs0 & Hrun).
    apply bind_Some in Hrun as (t1 & H1 & Hrun).
    apply bind_Some in Hrun as (b1 & Hs1 & Hrun).
    apply bind_Some in Hrun as (t2 & H2 & Hrun).
    apply bind_Some in Hrun as (b2 & Hs2 & Hs3).
    apply store_Some in Hs0 as [? ->]. apply store_Some in Hs1 as [? ->].
    apply store_Some in Hs2 as [? ->]. apply store_Some in Hs3 as [? ->].
    rewrite !length_insert in *. rewrite ?Z.add_0_r in *.
    exists t0, t1, t2. repeat split; try assumption; try lia.
Qed.

(** A pixel of the canvas other than the destination keeps its bytes. *)
Lemma opaque_pixel_frame (y x p : Z) (buf buf' : list Z) :
  place_pixel' y x buf = Some buf' ->
  clipped width height (x + xoff) (y + yoff) = true
  \/ p <> (y + yoff) * width + (x + xoff) ->
  pixel_at buf' p = pixel_at buf p.
Proof.
  intros Hrun Hother.
  destruct (clipped width height (x + xoff) (y + yoff)) eqn:Hclip.
  { unfold place_pixel in Hrun. rewrite Hclip in Hrun. congruence. }
  destruct Hother as [|Hne]; [discriminate|].
  destruct (opaque_pixel_stores y x buf buf' Hclip Hrun)
    as (t0 & t1 & t2 & _ & _ & _ & Ho & Hlen & ->).
  apply pixel_at_frame. intros j Hj.
  rewrite !load_insert_ne; [reflexivity|lia..].
Qed.

(** The destination holds the samples of the tile pixel, and alpha 255. *)
Lemma opaque_pixel_effect (y x : Z) (buf buf' : list Z) :
  clipped width height (x + xoff) (y + yoff) = false ->
  place_pixel' y x buf = Some buf' ->
  exists r g b,
    tile_sample i x y 0 = Some r /\ tile_sample i x y 1 = Some g
    /\ tile_sample i x y 2 = Some b
    /\ pixel_at buf' ((y + yoff) * width + (x + xoff)) = Some (r, g, b, 255).
Proof.
  intros Hclip Hrun.
  destruct (opaque_pixel_stores y x buf buf' Hclip Hrun)
    as (t0 & t1 & t2 & H0 & H1 & H2 & Ho & Hlen & ->).
  exists t0, t1, t2. repeat split; try assumption.
  set (o := ((y + yoff) * width + x + xoff) * 4) in *.
  unfold pixel_at.
  replace (4 * ((y + yoff) * width + (x + xoff))) with o by (unfold o; lia).
  rewrite (load_insert_ne _ _ _ o), (load_insert_ne _ _ _ o),
    (load_insert_ne _ _ _ o) by lia.
  rewrite (load_insert_eq _ o) by lia. cbn [mbind option_bind].
  rewrite (load_insert_ne _ _ _ (o + 1)), (load_insert_ne _ _ _ (o + 1))
    by lia.
  rewrite (load_insert_eq _ (o + 1)) by (rewrite length_insert; lia).
  cbn [mbind option_bind].
  rewrite (load_insert_ne _ _ _ (o + 2)) by lia.
  rewrite (load_insert_eq _ (o + 2)) by (rewrite !length_insert; lia).
  cbn [mbind option_bind].
  rewrite (load_insert_eq _ (o + 3)) by (rewrite !length_insert; lia).
  reflexivity.
Qed.

Lemma unclipped (xd yd : Z) :
  clipped width height xd yd = false <->
  (0 <= xd < width /\ 0 <= yd < height).
Proof.
  unfold clipped. rewrite !orb_false_iff. lia.
Qed.

Lemma place_tile_copies (buf buf' : list Z) :
  place_tile wild_uchar width height i xoff yoff buf = Some buf' ->
  (forall x y,
      0 <= x < i_width i -> 0 <= y < i_height i ->
      0 <= x + xoff < width -> 0 <= y + yoff < height ->
      exists r g b,
        tile_sample i x y 0 = Some r /\ tile_sample i x y 1 = Some g
        /\ tile_sample i x y 2 = Some b
        /\ pixel_at buf' ((y + yoff) * width + (x + xoff))
           = Some (r, g, b, 255))
  /\ (forall p,
         (forall x y,
             0 <= x < i_width i -> 0 <= y < i_height i ->
             0 <= x + xoff < width -> 0 <= y + yoff < height ->
             p <> (y + yoff) * width + (x + xoff)) ->
         pixel_at buf' p = pixel_at buf p).
Proof.
  intros Hrun. unfold place_tile in Hrun. split.
  - intros x0 y0 Hx0 Hy0 Hxd Hyd.
    set (Q := fun b : list Z => exists r g b',
                tile_sample i x0 y0 0 = Some r
                /\ tile_sample i x0 y0 1 = Some g
                /\ tile_sample i x0 y0 2 = Some b'
                /\ pixel_at b ((y0 + yoff) * width + (x0 + xoff))
                   = Some (r, g, b', 255)).
    revert Hrun. apply (for_each_establishes Q _ _ y0).
    + apply elem_of_seqZ. lia.
    + intros s s'.
      apply (for_each_establishes Q _ _ x0).
      * apply elem_of_seqZ. lia.
      * intros s1 s2 Hpix. apply (opaque_pixel_effect y0 x0 s1 s2);
          [|exact Hpix]. apply unclipped. lia.
      * intros x s1 s2 _ Hne (r & g & b' & H0 & H1 & H2 & Hp) Hpix.
        exists r, g, b'. repeat split; try assumption.
        rewrite <- Hp. apply (opaque_pixel_frame y0 x _ s1 s2 Hpix).
        right. lia.
    + intros y s s' _ Hne HQ. revert s s' HQ.
      apply (for_each_invariant Q).
      intros x s1 s2 _ (r & g & b' & H0 & H1 & H2 & Hp) Hpix.
      exists r, g, b'. repeat split; try assumption.
      rewrite <- Hp. apply (opaque_pixel_frame y x _ s1 s2 Hpix).
      destruct (clipped width height (x + xoff) (y + yoff)) eqn:Hclip;
        [by left|right].
      apply unclipped in Hclip. nia.
  - intros p Hp. revert Hrun.
    apply (for_each_invariant (fun b => pixel_at b p = pixel_at buf p));
      [|reflexivity].
    intros y s s' Hy Hs. revert s s' Hs.
    apply for_each_invariant.
    intros x s1 s2 Hx Hs Hpix. rewrite <- Hs.
    apply (opaque_pixel_frame y x _ s1 s2 Hpix).
    destruct (clipped width height (x + xoff) (y + yoff)) eqn:Hclip;
      [by left|right].
    apply unclipped in Hclip. apply elem_of_seqZ in Hx, Hy.
    apply Hp; lia.
Qed.

(** A pixel that is opaque stays opaque. *)
Lemma place_tile_keeps_opaque (p : Z) (buf buf' : list Z) :
  place_tile wild_uchar width height i xoff yoff buf = Some buf' ->
  (exists r g b, pixel_at buf p = Some (r, g, b, 255)) ->
  exists r g b, pixel_at buf' p = Some (r, g, b, 255).
Proof.
  intros Hrun Hp. unfold place_tile in Hrun.
  set (Q := fun b => exists r g b', pixel_at b p = Some (r, g, b', 255)).
  revert Hp Hrun. apply (for_each_invariant Q).
  intros y s s' _. apply (for_each_invariant Q).
  intros x s1 s2 _ Hs Hpix. unfold Q in *.
  destruct (clipped width height (x + xoff) (y + yoff)) eqn:Hclip.
  { rewrite (opaque_pixel_frame y x p s1 s2 Hpix); [exact Hs|by left]. }
  destruct (decide (p = (y + yoff) * width + (x + xoff))) as [->|Hne].
  - destruct (opaque_pixel_effect y x s1 s2 Hclip Hpix)
      as (r & g & b' & _ & _ & _ & Hp).
    by exists r, g, b'.
  - rewrite (opaque_pixel_frame y x p s1 s2 Hpix); [exact Hs|by right].
Qed.

(** X3.  Where the tile lands, the canvas holds the tile afterwards, with alpha
    255; everywhere else it holds what it held before. *)
Theorem opaque_tile_is_copied (buf buf' : list Z) :
  place_tile wild_uchar width height i xoff yoff buf = Some buf' ->
  (forall x y,
      0 <= x < i_width i -> 0 <= y < i_height i ->
      0 <= x + xoff < width -> 0 <= y + yoff < height ->
      exists r g b,
        tile_sample i x y 0 = Some r /\ tile_sample i x y 1 = Some g
        /\ tile_sample i x y 2 = Some b
        /\ pixel_at buf' ((y + yoff) * width + (x + xoff))
           = Some (r, g, b, 255))
  /\ (forall p,
         (forall x y,
             0 <= x < i_width i -> 0 <= y < i_height i ->
             0 <= x + xoff < width -> 0 <= y + yoff < height ->
             p <> (y + yoff) * width + (x + xoff)) ->
         pixel_at buf' p = pixel_at buf p).
Proof. apply place_tile_copies. Qed.

End Opaque.

Lemma opaque_tile_is_copied_witness :
  (exists r g b,
      tile_sample (plain_tile 255 0 0) 1 1 0 = Some r
      /\ tile_sample (plain_tile 255 0 0) 1 1 1 = Some g
      /\ tile_sample (plain_tile 255 0 0) 1 1 2 = Some b
      /\ pixel_at left_half_red ((1 + 0) * 4 + (1 + 0))
         = Some (r, g, b, 255))
  /\ pixel_at left_half_red 7 = pixel_at (replicate 32 0) 7.
Proof.
  destruct (opaque_tile_is_copied (fun _ => 0) 4 2 (plain_tile 255 0 0) 0 0
              ltac:(discriminate) (replicate 32 0) left_half_red eq_refl)
    as [Hin Hout].
  split; [apply Hin; simpl; lia|].
  apply Hout. simpl. lia.
Defined.

Lemma for_each_total {I St : Type} (Inv : St -> Prop)
    (body : I -> St -> option St) (idx : list I) :
  (forall k s, k ∈ idx -> Inv s -> exists s', body k s = Some s' /\ Inv s') ->
  forall s, Inv s -> exists s', for_each body idx s = Some s' /\ Inv s'.
Proof.
  induction idx as [|k idx IH]; intros Hbody s Hs.
  - by exists s.
  - destruct (Hbody k s) as (s1 & Hk & Hs1); [apply list_elem_of_here|done|].
    destruct (IH (fun k' s' Hk' => Hbody k' s' (list_elem_of_further _ _ _ Hk'))
                s1 Hs1) as (s' & Hrun & Hs').
    exists s'. cbn [for_each]. rewrite Hk. by split.
Qed.

Lemma for_each_fails {I St : Type} (Inv : St -> Prop)
    (body : I -> St -> option St) (idx : list I) (k0 : I) :
  k0 ∈ idx ->
  (forall k s s', Inv s -> body k s = Some s' -> Inv s') ->
  (forall s, Inv s -> body k0 s = None) ->
  forall s, Inv s -> for_each body idx s = None.
Proof.
  intros Hin Hkeep Hfail s Hs.
  apply list_elem_of_split in Hin as (l1 & l2 & ->).
  rewrite for_each_app.
  destruct (for_each body l1 s) as [s1|] eqn:H1; [|reflexivity].
  cbn [mbind option_bind for_each]. rewrite Hfail; [reflexivity|].
  revert H1. apply (for_each_invariant Inv); [|exact Hs].
  intros k s2 s3 _. apply Hkeep.
Qed.

Lemma load_inside (buf : list Z) (k : Z) :
  0 <= k < Z.of_nat (length buf) -> exists v, load buf k = Some v.
Proof.
  intros Hk. unfold load. destruct (Z.ltb_spec k 0); [lia|].
  apply lookup_lt_is_Some_2. lia.
Qed.

Lemma load_outside (buf : list Z) (k : Z) :
  Z.of_nat (length buf) <= k -> load buf k = None.
Proof.
  intros Hk. unfold load. destruct (Z.ltb_spec k 0); [reflexivity|].
  apply lookup_ge_None. lia.
Qed.

Lemma place_pixel_length (wild_uchar : float -> Z) (width height : Z)
    (i : image) (xoff yoff y x : Z) (buf buf' : list Z) :
  place_pixel wild_uchar width height i xoff yoff y x buf = Some buf' ->
  length buf' = length buf.
Proof.
  intros Hpix. unfold place_pixel in Hpix.
  destruct (clipped _ _ _ _); [congruence|].
  destruct (i_depth i =? 4); [|destruct (i_depth i =? 3)].
  - unfold blend_rgba in Hpix. stores_keep_length.
  - unfold copy_rgb in Hpix. stores_keep_length.
  - unfold copy_gray in Hpix. stores_keep_length.
Qed.

Section Safety.

Variable wild_uchar : float -> Z.
Variables width height : Z.
Variable i : image.
Variables xoff yoff : Z.

Lemma place_tile_total (buf : list Z) :
  1 <= i_depth i -> i_depth i <> 4 ->
  Z.of_nat (length (i_buf i)) = i_width i * i_height i * i_depth i ->
  Z.of_nat (length buf) = width * height * 4 ->
  exists buf',
    place_tile wild_uchar width height i xoff yoff buf = Some buf'
    /\ length buf' = length buf.
Proof.
  intros Hd Hopaque Htile Hbuf. unfold place_tile.
  apply (for_each_total (fun b : list Z => length b = length buf));
    [|reflexivity].
  intros y s Hy Hs.
  apply (for_each_total (fun b : list Z => length b = length buf));
    [|exact Hs].
  intros x s1 Hx Hs1. apply elem_of_seqZ in Hy, Hx.
  unfold place_pixel.
  destruct (clipped width height (x + xoff) (y + yoff)) eqn:Hclip;
    [by exists s1|].
  apply unclipped in Hclip.
  apply Z.eqb_neq in Hopaque. rewrite Hopaque.
  set (o := ((y + yoff) * width + x + xoff) * 4).
  set (io := (y * i_width i + x) * i_depth i).
  assert (Ho : 0 <= o /\ o + 3 < Z.of_nat (length s1)).
  { rewrite Hs1, Hbuf. unfold o. nia. }
  assert (Hio : 0 <= io /\ io + i_depth i <= Z.of_nat (length (i_buf i))).
  { assert (Hp : 0 <= y * i_width i + x
                 /\ y * i_width i + x + 1 <= i_width i * i_height i) by nia.
    rewrite Htile. split; [unfold io; nia|].
    replace (io + i_depth i) with ((y * i_width i + x + 1) * i_depth i)
      by (unfold io; ring).
    apply Z.mul_le_mono_nonneg_r; lia. }
  destruct (load_inside (i_buf i) (io + 0)) as [t0 H0]; [lia|].
  destruct (Z.eqb_spec (i_depth i) 3) as [H3|H3].
  - destruct (load_inside (i_buf i) (io + 1)) as [t1 H1]; [lia|].
    destruct (load_inside (i_buf i) (io + 2)) as [t2 H2]; [lia|].
    unfold copy_rgb. rewrite H0. cbn [mbind option_bind].
    rewrite store_in_range by lia. cbn [mbind option_bind].
    rewrite H1. cbn [mbind option_bind].
    rewrite store_in_range by (rewrite length_insert; lia).
    cbn [mbind option_bind]. rewrite H2. cbn [mbind option_bind].
    rewrite store_in_range by (rewrite !length_insert; lia).
    cbn [mbind option_bind].
    rewrite store_in_range by (rewrite !length_insert; lia).
    eexists. split; [reflexivity|]. by rewrite !length_insert.
  - unfold copy_gray. rewrite H0. cbn [mbind option_bind].
    rewrite store_in_range by lia. cbn [mbind option_bind].
    rewrite store_in_range by (rewrite length_insert; lia).
    cbn [mbind option_bind].
    rewrite store_in_range by (rewrite !length_insert; lia).
    cbn [mbind option_bind].
    rewrite store_in_range by (rewrite !length_insert; lia).
    eexists. split; [reflexivity|]. by rewrite !length_insert.
Qed.


(** X8.  A tile with alpha channel: the blue canvas sample of a pixel whose
    offset, taken four times, leaves the canvas is read outside the buffer. *)
Theorem rgba_tile_reads_outside_canvas (x y : Z) (buf : list Z) :
  i_depth i = 4 ->
  0 <= x < i_width i -> 0 <= y < i_height i ->
  0 <= x + xoff < width -> 0 <= y + yoff < height ->
  Z.of_nat (length buf) <= 16 * ((y + yoff) * width + (x + xoff)) + 2 ->
  place_tile wild_uchar width height i xoff yoff buf = None.
Proof.
  intros Hd Hx Hy Hxd Hyd Hout. unfold place_tile.
  apply (for_each_fails (fun b : list Z => length b = length buf) _ _ y);
    [apply elem_of_seqZ; lia| | |reflexivity].
  { intros y' s s' Hs Hrow. rewrite <- Hs. revert Hrow.
    apply (for_each_preserves (fun b b' : list Z => length b' = length b));
      [reflexivity|congruence|].
    intros x' b b'. apply place_pixel_length. }
  intros s Hs.
  apply (for_each_fails (fun b : list Z => length b = length buf) _ _ x);
    [apply elem_of_seqZ; lia| | |exact Hs].
  { intros x' s1 s2 Hs1 Hpix. rewrite <- Hs1.
    by eapply place_pixel_length. }
  intros s1 Hs1. unfold place_pixel.
  assert (Hclip : clipped width height (x + xoff) (y + yoff) = false)
    by (apply unclipped; lia).
  rewrite Hclip, Hd. cbn [Z.eqb Pos.eqb]. unfold blend_rgba.
  set (o := ((y + yoff) * width + x + xoff) * 4).
  rewrite (load_outside s1 (o * 4 + 2)) by (unfold o; lia).
  destruct (load s1 (o + 3)); [|reflexivity]. cbn [mbind option_bind].
  destruct (load s1 (o + 0)); [|reflexivity]. cbn [mbind option_bind].
  destruct (load s1 (o + 1)); reflexivity.
Qed.

End Safety.


Lemma rgba_tile_reads_outside_canvas_witness :
  place_tile (fun _ => 0) 4 2 transparent_tile 0 0 (replicate 32 0) = None.
Proof.
  apply (rgba_tile_reads_outside_canvas (fun _ => 0) 4 2 transparent_tile
           0 0 0 1 (replicate 32 0)); simpl; try lia; reflexivity.
Defined.

(** ** Tiles and canvas *)

(** One axis of the raster: [s1] and [s2] are the two corners on the grid of
    256 units per tile, [t] is the tile size. *)
Lemma axis_cover (s1 s2 t X : Z) :
  0 <= s1 <= s2 -> 0 < t ->
  0 <= X < (s2 - s1) * t / 256 ->
  let xa := s1 mod 256 * t / 256 in
  let k := (X + xa) / t in
  0 <= k <= s2 / 256 - s1 / 256 /\ 0 <= X - (k * t - xa) < t.
Proof.
  intros Hs Ht HX xa k.
  assert (Ha1 : 0 <= s1 mod 256 < 256) by (apply Z.mod_pos_bound; lia).
  assert (Ha2 : 0 <= s2 mod 256 < 256) by (apply Z.mod_pos_bound; lia).
  pose proof (Z.div_mod s1 256 ltac:(lia)) as Hs1.
  pose proof (Z.div_mod s2 256 ltac:(lia)) as Hs2.
  assert (Hxa : 0 <= xa /\ 256 * xa <= s1 mod 256 * t).
  { unfold xa. split; [apply Z.div_pos; nia|].
    apply Z.mul_div_le. lia. }
  assert (Hw : 256 * ((s2 - s1) * t / 256) <= (s2 - s1) * t)
    by (apply Z.mul_div_le; lia).
  assert (Hk0 : 0 <= k) by (unfold k; apply Z.div_pos; lia).
  assert (Hk1 : k < s2 / 256 - s1 / 256 + 1).
  { unfold k. apply Z.div_lt_upper_bound; [lia|]. nia. }
  split; [lia|].
  pose proof (Z.mod_pos_bound (X + xa) t Ht) as Hm.
  pose proof (Z.div_mod (X + xa) t ltac:(lia)) as Hdm. fold k in Hdm.
  lia.
Qed.

Lemma shr_u32_defined (wild_shift : Z -> Z -> Z) (x c : Z) :
  0 <= c < 32 -> shr_u32 wild_shift x c = x / 2 ^ c.
Proof.
  intros Hc. unfold shr_u32.
  destruct (Z.leb_spec 0 c); [|lia]. destruct (Z.ltb_spec c 32); [|lia].
  cbn [andb]. apply Z.shiftr_div_pow2. lia.
Qed.

Lemma land_255 (s : Z) : Z.land s 255 = s mod 256.
Proof. change 255 with (Z.ones 8). by rewrite Z.land_ones. Qed.

Lemma tile_of_unit (x zoom : Z) :
  1 <= zoom <= 24 -> 0 <= x ->
  x / 2 ^ (32 - zoom) = x / 2 ^ (32 - (zoom + 8)) / 256.
Proof.
  intros Hz Hx. rewrite Z.div_div by (try apply Z.pow_pos_nonneg; lia).
  f_equal. change 256 with (2 ^ 8). rewrite <- Z.pow_add_r by lia.
  f_equal. lia.
Qed.

(** Whatever the corners, lines 406-407 give a width and a height from 0 to
    [2^24 - 1]: the product is an [unsigned int], and so is its quotient by
    256. *)
Lemma raster_size_range (wild_shift : Z -> Z -> Z) (cl : cmdline) (zoom : Z)
    (b : bounds) :
  0 <= width (raster_of wild_shift cl zoom b) < 2 ^ 24
  /\ 0 <= height (raster_of wild_shift cl zoom b) < 2 ^ 24.
Proof.
  assert (H : forall z, 0 <= C.s32 (C.u32 z / 256) < 2 ^ 24).
  { intros z.
    assert (Hu : 0 <= C.u32 z < 2 ^ 32)
      by (unfold C.u32; apply Z.mod_pos_bound; reflexivity).
    assert (H32 : 2 ^ 24 * 256 = 2 ^ 32) by reflexivity.
    assert (H31 : 2 ^ 24 < 2 ^ 31) by reflexivity.
    assert (Hq : 0 <= C.u32 z / 256 < 2 ^ 24).
    { split; [apply Z.div_pos; lia|apply Z.div_lt_upper_bound; lia]. }
    rewrite s32_small; lia. }
  unfold raster_of. cbn [width height]. split; apply H.
Qed.

(** X13.  The width and the height of the canvas are never negative, and below
    [2^24], whatever the corners. *)
Theorem raster_size_is_never_negative (wild_shift : Z -> Z -> Z)
    (cl : cmdline) (zoom : Z) (b : bounds) :
  0 <= width (raster_of wild_shift cl zoom b) < 2 ^ 24
  /\ 0 <= height (raster_of wild_shift cl zoom b) < 2 ^ 24.
Proof. apply raster_size_range. Qed.

Section Coverage.

Variable wild_shift : Z -> Z -> Z.
Variable cl : cmdline.
Variable zoom : Z.

Local Abbreviation unit := (fun x => shr_u32 wild_shift x (32 - (zoom + 8))).

(** Lines 388-407 and 429-430 along one axis, for the corners [c1] and [c2]
    on the zoom-32 grid. *)
Lemma raster_axis_cover (c1 c2 X : Z) :
  1 <= zoom <= 24 -> 0 < tilesize cl < 2 ^ 24 ->
  0 <= c1 <= c2 ->
  (unit c2 - unit c1) * tilesize cl < 2 ^ 32 ->
  0 <= X < C.s32 (C.u32 ((unit c2 - unit c1) * tilesize cl) / 256) ->
  exists tx,
    shr_u32 wild_shift c1 (32 - zoom) <= tx
    <= shr_u32 wild_shift c2 (32 - zoom)
    /\ 0 <= X - C.s32 ((tx - shr_u32 wild_shift c1 (32 - zoom))
                       * tilesize cl
                       - C.u32 (Z.land (unit c1) 255 * tilesize cl) / 256)
       < tilesize cl.
Proof.
  intros Hz Ht Hc Hw HX. cbv beta in *.
  rewrite !(shr_u32_defined _ _ (32 - zoom)) by lia.
  rewrite !(shr_u32_defined _ _ (32 - (zoom + 8))) in * by lia.
  rewrite (tile_of_unit c1), (tile_of_unit c2) by lia.
  set (s1 := c1 / 2 ^ (32 - (zoom + 8))) in *.
  set (s2 := c2 / 2 ^ (32 - (zoom + 8))) in *.
  assert (Hs : 0 <= s1 <= s2).
  { unfold s1, s2. split.
    - apply Z.div_pos; [lia|apply Z.pow_pos_nonneg; lia].
    - apply Z.div_le_mono; [apply Z.pow_pos_nonneg; lia|lia]. }
  rewrite land_255.
  assert (Ha1 : 0 <= s1 mod 256 < 256) by (apply Z.mod_pos_bound; lia).
  assert (H32 : 2 ^ 24 * 256 = 2 ^ 32) by reflexivity.
  assert (H31 : 2 ^ 24 < 2 ^ 31) by reflexivity.
  assert (Hdiv : 0 <= (s2 - s1) * tilesize cl / 256 < 2 ^ 24).
  { split; [apply Z.div_pos; nia|].
    apply Z.div_lt_upper_bound; lia. }
  rewrite (u32_small ((s2 - s1) * tilesize cl)) in HX by nia.
  rewrite s32_small in HX by lia.
  rewrite (u32_small (s1 mod 256 * tilesize cl)) by nia.
  destruct (axis_cover s1 s2 (tilesize cl) X Hs ltac:(lia) HX)
    as [Hk Hin].
  set (xa := s1 mod 256 * tilesize cl / 256) in *.
  set (k := (X + xa) / tilesize cl) in *.
  assert (Hxa : 0 <= xa < 2 ^ 24).
  { unfold xa. split; [apply Z.div_pos; nia|].
    apply Z.div_lt_upper_bound; nia. }
  exists (s1 / 256 + k). split; [lia|].
  replace (s1 / 256 + k - s1 / 256) with k by lia.
  pose proof (Z.mul_div_le (X + xa) (tilesize cl) ltac:(lia)) as Hkt.
  fold k in Hkt.
  rewrite s32_small; [exact Hin|]. nia.
Qed.

Variable b : bounds.

Local Abbreviation r := (raster_of wild_shift cl zoom b).

(** X9.  Every column and every row of the canvas lies in one of the tiles the
    loops of lines 427-428 run through: for a pixel column [X] there is a tile
    column [tx] of the range whose offset [xoff] puts [X] inside the tile, and
    likewise for the rows. *)
Theorem canvas_is_covered_by_the_tile_range :
  1 <= zoom <= 24 -> 0 < tilesize cl < 2 ^ 24 ->
  0 <= x1 b <= x2 b -> 0 <= y1 b <= y2 b ->
  (unit (x2 b) - unit (x1 b)) * tilesize cl < 2 ^ 32 ->
  (unit (y2 b) - unit (y1 b)) * tilesize cl < 2 ^ 32 ->
  (forall X, 0 <= X < width r ->
     exists tx, tx1 r <= tx <= tx2 r
       /\ 0 <= X - C.s32 ((tx - tx1 r) * tilesize cl - xa r) < tilesize cl)
  /\ (forall Y, 0 <= Y < height r ->
        exists ty, ty1 r <= ty <= ty2 r
          /\ 0 <= Y - C.s32 ((ty - ty1 r) * tilesize cl - ya r)
             < tilesize cl).
Proof.
  intros Hz Ht Hx Hy Hwx Hwy.
  unfold raster_of. cbn [tx1 tx2 ty1 ty2 xa ya width height].
  split; intros X HX; by apply raster_axis_cover.
Qed.

End Coverage.

Lemma canvas_is_covered_by_the_tile_range_witness :
  (forall X, 0 <= X < 2 ->
     exists tx, 0 <= tx <= 1 /\ 0 <= X - C.s32 ((tx - 0) * 2 - 1) < 2)
  /\ (forall Y, 0 <= Y < 1 ->
        exists ty, 0 <= ty <= 1 /\ 0 <= Y - C.s32 ((ty - 0) * 2 - 1) < 2).
Proof.
  apply (canvas_is_covered_by_the_tile_range Standin.zero2
           two_pixel_half_world_cmdline 1 half_world_bounds);
    vm_compute; try split; congruence.
Defined.

(** ** What a run prints and writes *)

Lemma quiet_bind {A B : Type} (m : run A) (f : A -> run B) :
  quiet m -> (forall a, quiet (f a)) -> quiet (m ≫= f).
Proof.
  destruct m as [t [a| |]]; intros [Hw Hf] Hcont;
    unfold quiet, mbind, run_bind in *; cbn [fst snd] in *.
  - specialize (Hcont a). destruct (f a) as [t' o'].
    destruct Hcont as [Hw' Hf']. cbn [fst snd] in *. split.
    + by rewrite existsb_app, Hw, Hw'.
    + intros b' ->. by rewrite existsb_app, (Hf a), (Hf' b').
  - split; [exact Hw|discriminate].
  - split; [exact Hw|discriminate].
Qed.

Lemma orderly_bind {A B : Type} (m : run A) (f : A -> run B) :
  quiet m -> (forall a, orderly (f a)) -> orderly (m ≫= f).
Proof.
  destruct m as [t [a| |]]; intros [Hw Hf] Hcont;
    unfold orderly, mbind, run_bind in *; cbn [fst snd] in *.
  - specialize (Hcont a). destruct (f a) as [t' o']. cbn [fst snd] in *.
    rewrite !existsb_app, Hw, (Hf a eq_refl). exact Hcont.
  - by rewrite Hw.
  - by rewrite Hw.
Qed.

Lemma quiet_for_each {I St : Type} (body : I -> St -> run St)
    (idx : list I) (s : St) :
  (forall k s, quiet (body k s)) -> quiet (for_each body idx s).
Proof.
  intros Hbody. revert s. induction idx as [|k idx IH]; intros s.
  - by split.
  - cbn [for_each]. apply quiet_bind; [apply Hbody|exact IH].
Qed.

Lemma quiet_die {A : Type} (m : message) : quiet (die m : run A).
Proof. split; [reflexivity|discriminate]. Qed.

Lemma quiet_mem {A : Type} (o : option A) : quiet (mem o).
Proof. destruct o; by split. Qed.

Section Traces.

Variable wild_uchar : float -> Z.
Variable wild_uint : float -> Z.
Variable wild_shift : Z -> Z -> Z.
Variables log tan cos atan sinh : float -> float.
Variable fetch : string -> Z -> Z -> Z -> option (list Z).
Variables read_png read_jpeg : list Z -> option image.

Local Abbreviation main' :=
  (main wild_uchar wild_uint wild_shift log tan cos atan sinh fetch read_png
        read_jpeg).
Local Abbreviation assemble' :=
  (assemble wild_uchar fetch read_png read_jpeg).

Lemma quiet_handle_image (cl : cmdline) (r : raster) (xoff yoff : Z)
    (i : option image) (buf : list Z) :
  quiet (handle_image wild_uchar cl r xoff yoff i buf).
Proof.
  unfold handle_image. destruct i as [i|]; [|split; [done|discriminate]].
  destruct (_ || _); [apply quiet_die|apply quiet_mem].
Qed.

Lemma quiet_assemble (cl : cmdline) (zoom : Z) (r : raster) (buf : list Z) :
  quiet (assemble' cl zoom r buf).
Proof.
  unfold assemble. apply quiet_for_each. intros tx s.
  apply quiet_for_each. intros ty s1. apply quiet_for_each.
  intros source s2. unfold stitch_source.
  apply quiet_bind; [by split|]. intros _.
  destruct (fetch source zoom tx ty) as [data|]; [|apply quiet_die].
  unfold handle_data.
  destruct (is_png data); [apply quiet_handle_image|].
  destruct (is_jpeg data); [apply quiet_handle_image|].
  apply quiet_bind; [by split|]. intros _. by split.
Qed.

Lemma quiet_resolve (cl : cmdline) (zoom : Z)
    (box : float * float * float * float) :
  quiet (resolve wild_uint wild_shift log tan cos atan sinh cl zoom box).
Proof.
  unfold resolve. destruct box as [[[minlat minlon] maxlat] maxlon].
  destruct (centered cl).
  - destruct (_ || _); [apply quiet_die|by split].
  - destruct (latlon2tile _ _ _ _ _ _ _ _), (latlon2tile _ _ _ _ _ _ _ _).
    by split.
Qed.

Lemma orderly_main (cl : cmdline) : orderly (main' cl).
Proof.
  unfold main.
  destruct (bool_decide _); [discriminate|].
  destruct (_ <? 0); [discriminate|].
  destruct (_ && _); [discriminate|].
  apply orderly_bind; [apply quiet_resolve|]. intros b.
  destruct (_ <? _); [discriminate|].
  apply orderly_bind; [by split|]. intros _.
  apply orderly_bind; [destruct (_ <? 0); by split|]. intros buf.
  apply orderly_bind; [apply quiet_assemble|]. intros buf1.
  apply orderly_bind; [destruct (elevation cl); [apply quiet_mem|by split]|].
  intros buf2. unfold write_out.
  destruct (outfmt cl), (outfile cl) as [file|], (writeworldfile cl);
    intros H; cbv in H |- *; congruence.
Qed.


End Traces.


(** ** A canvas without holes *)

Lemma result_bind {A B : Type} (m : run A) (f : A -> run B) :
  result (m ≫= f) = result m ≫= (fun a => result (f a)).
Proof.
  destruct m as [t [a| |]]; [|reflexivity..].
  unfold result, mbind, run_bind, option_bind. cbn [fst snd].
  by destruct (f a) as [t' o'].
Qed.

Lemma result_for_each {I St : Type} (body : I -> St -> run St)
    (idx : list I) (s : St) :
  result (for_each body idx s)
  = for_each (fun k s => result (body k s)) idx s.
Proof.
  revert s. induction idx as [|k idx IH]; intros s; [reflexivity|].
  cbn [for_each]. rewrite result_bind.
  destruct (result (body k s)) as [s1|]; [|reflexivity].
  cbn [mbind option_bind]. apply IH.
Qed.

Lemma result_Some {A : Type} (m : run A) (a : A) :
  result m = Some a -> exists t, m = (t, Ret a).
Proof.
  destruct m as [t [a'| |]]; unfold result; cbn [snd]; try discriminate.
  intros [= ->]. by exists t.
Qed.

Lemma for_each_ext {I St : Type} (b1 b2 : I -> St -> option St)
    (idx : list I) :
  (forall k s, k ∈ idx -> b1 k s = b2 k s) ->
  forall s, for_each b1 idx s = for_each b2 idx s.
Proof.
  induction idx as [|k idx IH]; intros Hext s; [reflexivity|].
  cbn [for_each]. rewrite Hext by apply list_elem_of_here.
  destruct (b2 k s) as [s1|]; [|reflexivity]. cbn [mbind option_bind].
  apply IH. intros k' s' Hk'. apply Hext. by apply list_elem_of_further.
Qed.

Section Holes.

Variable wild_uchar : float -> Z.
Variable wild_shift : Z -> Z -> Z.
Variable fetch : string -> Z -> Z -> Z -> option (list Z).
Variables read_png read_jpeg : list Z -> option image.
Variable cl : cmdline.
Variable zoom : Z.
Variable b : bounds.

(** The tile that comes back for a source and a tile of the range. *)
Variable tile : string -> Z -> Z -> image.

Local Abbreviation r := (raster_of wild_shift cl zoom b).
Local Abbreviation unit := (fun x => shr_u32 wild_shift x (32 - (zoom + 8))).
Local Abbreviation xoff :=
  (fun tx => C.s32 ((tx - tx1 r) * tilesize cl - xa r)).
Local Abbreviation yoff :=
  (fun ty => C.s32 ((ty - ty1 r) * tilesize cl - ya r)).

Hypothesis zoom_range : 1 <= zoom <= 24.
Hypothesis tilesize_range : 0 < tilesize cl < 2 ^ 24.
Hypothesis x_ordered : 0 <= x1 b <= x2 b.
Hypothesis y_ordered : 0 <= y1 b <= y2 b.
Hypothesis width_fits :
  (unit (x2 b) - unit (x1 b)) * tilesize cl < 2 ^ 32.
Hypothesis height_fits :
  (unit (y2 b) - unit (y1 b)) * tilesize cl < 2 ^ 32.
Hypothesis some_source : sources cl <> [].
Hypothesis tiles :
  forall source tx ty,
    source ∈ sources cl -> tx1 r <= tx <= tx2 r -> ty1 r <= ty <= ty2 r ->
    (exists data, fetch source zoom tx ty = Some data
                  /\ decoded read_png read_jpeg data
                     = Some (tile source tx ty))
    /\ whole_opaque_tile cl (tile source tx ty).

Lemma result_stitch_source (tx ty : Z) (source : string) (buf : list Z) :
  source ∈ sources cl -> tx1 r <= tx <= tx2 r -> ty1 r <= ty <= ty2 r ->
  result (stitch_source wild_uchar fetch read_png read_jpeg cl zoom r tx ty
            source buf)
  = place_tile wild_uchar (width r) (height r) (tile source tx ty)
      (xoff tx) (yoff ty) buf.
Proof.
  intros Hsrc Htx Hty.
  destruct (tiles source tx ty Hsrc Htx Hty)
    as [(data & Hfetch & Hdec) (Hw & Hh & _)].
  unfold stitch_source. rewrite result_bind. cbn [result emit snd mbind
    option_bind]. rewrite Hfetch. unfold handle_data, decoded in *.
  assert (Himg : forall i,
             i = Some (tile source tx ty) ->
             result (handle_image wild_uchar cl r (xoff tx) (yoff ty) i buf)
             = place_tile wild_uchar (width r) (height r)
                 (tile source tx ty) (xoff tx) (yoff ty) buf).
  { intros i ->. unfold handle_image. rewrite Hw, Hh, Z.eqb_refl.
    cbn [negb orb]. by destruct (place_tile _ _ _ _ _ _ _). }
  destruct (is_png data); [by apply Himg|].
  destruct (is_jpeg data); [by apply Himg|discriminate].
Qed.

Lemma result_assemble (buf : list Z) :
  result (assemble wild_uchar fetch read_png read_jpeg cl zoom r buf)
  = for_each (fun tx =>
      for_each (fun ty =>
        for_each (fun source =>
          place_tile wild_uchar (width r) (height r) (tile source tx ty)
            (xoff tx) (yoff ty))
          (sources cl))
        (seqZ (ty1 r) (ty2 r - ty1 r + 1)))
      (seqZ (tx1 r) (tx2 r - tx1 r + 1)) buf.
Proof.
  unfold assemble. rewrite result_for_each.
  apply for_each_ext. intros tx s Htx. rewrite result_for_each.
  apply for_each_ext. intros ty s1 Hty. rewrite result_for_each.
  apply for_each_ext. intros source s2 Hsrc.
  apply elem_of_seqZ in Htx, Hty. apply result_stitch_source; [done|lia..].
Qed.

Lemma assemble_no_holes (buf : list Z) :
  Z.of_nat (length buf) = width r * height r * 4 ->
  exists t buf',
    assemble wild_uchar fetch read_png read_jpeg cl zoom r buf = (t, Ret buf')
    /\ length buf' = length buf
    /\ forall p, 0 <= p < width r * height r ->
         exists red green blue,
           pixel_at buf' p = Some (red, green, blue, 255).
Proof.
  intros Hbuf.
  set (place := fun tx ty source =>
         place_tile wild_uchar (width r) (height r) (tile source tx ty)
           (xoff tx) (yoff ty)).
  assert (Hgood : forall tx ty source,
             tx ∈ seqZ (tx1 r) (tx2 r - tx1 r + 1) ->
             ty ∈ seqZ (ty1 r) (ty2 r - ty1 r + 1) ->
             source ∈ sources cl ->
             whole_opaque_tile cl (tile source tx ty)).
  { intros tx ty source Htx Hty Hsrc. apply elem_of_seqZ in Htx, Hty.
    apply tiles; [done|lia..]. }
  (* the loops end, and keep the size of the canvas *)
  destruct (for_each_total (fun s : list Z => length s = length buf)
              (fun tx =>
                 for_each (fun ty => for_each (place tx ty) (sources cl))
                          (seqZ (ty1 r) (ty2 r - ty1 r + 1)))
              (seqZ (tx1 r) (tx2 r - tx1 r + 1))) with (s := buf)
    as (buf' & Hrun & Hlen); [|reflexivity|].
  { intros tx s Htx Hs. apply for_each_total; [|exact Hs].
    intros ty s1 Hty Hs1. apply for_each_total; [|exact Hs1].
    intros source s2 Hsrc Hs2.
    destruct (Hgood tx ty source Htx Hty Hsrc) as (_ & _ & Hd & H4 & Hsize).
    destruct (place_tile_total wild_uchar (width r) (height r)
                (tile source tx ty) (xoff tx) (yoff ty) s2 Hd H4 Hsize)
      as (s3 & Hs3 & Hl3); [lia|].
    exists s3. split; [exact Hs3|congruence]. }
  assert (Hres : result (assemble wild_uchar fetch read_png read_jpeg cl
                           zoom r buf) = Some buf')
    by (rewrite result_assemble; exact Hrun).
  apply result_Some in Hres as [t Ht].
  exists t, buf'. split; [exact Ht|]. split; [exact Hlen|].
  (* every pixel lies in a tile of the range *)
  intros p Hp.
  destruct (raster_size_range wild_shift cl zoom b) as [Hwr Hhr].
  assert (Hwpos : 0 < width r) by nia.
  set (X := p mod width r). set (Y := p / width r).
  assert (HX : 0 <= X < width r) by (apply Z.mod_pos_bound; lia).
  assert (HY : 0 <= Y < height r).
  { unfold Y. split; [apply Z.div_pos; lia|].
    apply Z.div_lt_upper_bound; lia. }
  assert (HpXY : p = Y * width r + X).
  { unfold X, Y. rewrite (Z.div_mod p (width r)) at 1 by lia. lia. }
  destruct (raster_axis_cover wild_shift cl zoom (x1 b) (x2 b) X)
    as (tx0 & Htx0 & Hin_x); [done..|].
  destruct (raster_axis_cover wild_shift cl zoom (y1 b) (y2 b) Y)
    as (ty0 & Hty0 & Hin_y); [done..|].
  destruct (sources cl) as [|source0 rest] eqn:Hsources; [done|].
  rewrite <- Hsources in *.
  assert (Hsrc0 : source0 ∈ sources cl)
    by (rewrite Hsources; apply list_elem_of_here).
  set (Q := fun s : list Z =>
              exists red green blue,
                pixel_at s p = Some (red, green, blue, 255)).
  assert (Hkeep : forall tx ty source s s',
             tx ∈ seqZ (tx1 r) (tx2 r - tx1 r + 1) ->
             ty ∈ seqZ (ty1 r) (ty2 r - ty1 r + 1) ->
             source ∈ sources cl ->
             Q s -> place tx ty source s = Some s' -> Q s').
  { intros tx ty source s s' Htx Hty Hsrc HQ Hplace.
    destruct (Hgood tx ty source Htx Hty Hsrc) as (_ & _ & _ & H4 & _).
    exact (place_tile_keeps_opaque wild_uchar (width r) (height r)
             (tile source tx ty) (xoff tx) (yoff ty) H4 p s s' Hplace HQ). }
  assert (Htx0' : tx0 ∈ seqZ (tx1 r) (tx2 r - tx1 r + 1))
    by (apply elem_of_seqZ; unfold raster_of; cbn [tx1 tx2]; lia).
  assert (Hty0' : ty0 ∈ seqZ (ty1 r) (ty2 r - ty1 r + 1))
    by (apply elem_of_seqZ; unfold raster_of; cbn [ty1 ty2]; lia).
  revert Hrun. apply (for_each_establishes Q _ _ tx0 Htx0').
  - intros s s'. apply (for_each_establishes Q _ _ ty0 Hty0').
    + intros s1 s1'. apply (for_each_establishes Q _ _ source0 Hsrc0).
      * intros s2 s2' Hplace.
        destruct (Hgood tx0 ty0 source0 Htx0' Hty0' Hsrc0)
          as (Hw & Hh & _ & H4 & _).
        destruct (place_tile_copies wild_uchar (width r) (height r)
                    (tile source0 tx0 ty0) (xoff tx0) (yoff ty0) H4 s2 s2'
                    Hplace) as [Hcopy _].
        destruct (Hcopy (X - xoff tx0) (Y - yoff ty0))
          as (red & green & blue & _ & _ & _ & Hpix).
        { rewrite Hw. exact Hin_x. }
        { rewrite Hh. exact Hin_y. }
        { lia. }
        { lia. }
        exists red, green, blue. rewrite <- Hpix. f_equal. lia.
      * intros source s2 s2' Hsrc _ HQ. by apply Hkeep.
    + intros ty s1 s1' Hty _. apply (for_each_invariant Q).
      intros source s2 s2' Hsrc. by apply Hkeep.
  - intros tx s s' Htx _. apply (for_each_invariant Q).
    intros ty s1 s1' Hty. apply (for_each_invariant Q).
    intros source s2 s2' Hsrc. by apply Hkeep.
Qed.


End Holes.


(** ** The size of a centered raster *)

Lemma shl_s32_defined (wild_shift : Z -> Z -> Z) (x c : Z) :
  0 <= c < 32 -> 0 <= x -> x * 2 ^ c < 2 ^ 31 ->
  shl_s32 wild_shift x c = x * 2 ^ c.
Proof.
  intros Hc Hx Hsmall. unfold shl_s32.
  destruct (Z.leb_spec 0 c); [|lia]. destruct (Z.ltb_spec c 32); [|lia].
  cbn [andb]. rewrite Z.shiftl_mul_pow2 by lia.
  apply s32_small.
  assert (0 <= x * 2 ^ c) by (apply Z.mul_nonneg_nonneg; lia). lia.
Qed.

Section Centered.

Variable wild_shift : Z -> Z -> Z.
Variables atan sinh : float -> float.
Variable cl : cmdline.
Variable zoom : Z.

(** One axis of lines 376-379 and 406-407: the corners [c - half] and
    [c + half] are [size] units of the grid of 256 units per tile apart. *)
Lemma centered_axis (size c : Z) :
  1 <= zoom <= 23 -> 0 < size -> size * 2 ^ (24 - zoom) < 2 ^ 31 ->
  size * 2 ^ (23 - zoom) <= c -> c + size * 2 ^ (23 - zoom) < 2 ^ 32 ->
  let half := shl_s32 wild_shift size (32 - (zoom + 8)) `quot` 2 in
  shr_u32 wild_shift (C.u32 (c + half)) (32 - (zoom + 8))
  - shr_u32 wild_shift (C.u32 (c - half)) (32 - (zoom + 8))
  = size
  /\ 0 <= C.u32 (c - half) <= C.u32 (c + half).
Proof.
  intros Hz Hsize Hsmall Hlo Hhi half.
  assert (Hk : 2 ^ (24 - zoom) = 2 * 2 ^ (23 - zoom)).
  { replace (24 - zoom) with (Z.succ (23 - zoom)) by lia.
    apply Z.pow_succ_r. lia. }
  assert (Hpos : 0 < 2 ^ (23 - zoom)) by (apply Z.pow_pos_nonneg; lia).
  assert (Hhalf : half = size * 2 ^ (23 - zoom)).
  { unfold half. replace (32 - (zoom + 8)) with (24 - zoom) by lia.
    rewrite shl_s32_defined by lia. rewrite Hk.
    replace (size * (2 * 2 ^ (23 - zoom)))
      with (size * 2 ^ (23 - zoom) * 2) by ring.
    apply Z.quot_mul. lia. }
  rewrite Hhalf. clear Hhalf half.
  set (h := size * 2 ^ (23 - zoom)) in *.
  assert (0 < h) by (unfold h; nia).
  rewrite !u32_small by lia.
  rewrite !shr_u32_defined by lia.
  replace (32 - (zoom + 8)) with (24 - zoom) by lia.
  split; [|lia].
  replace (c + h) with (c - h + size * 2 ^ (24 - zoom))
    by (rewrite Hk; unfold h; ring).
  rewrite Z.div_add by lia. lia.
Qed.

(** X11.  In centered mode, below zoom 24 and away from the edge of the world,
    the canvas is [width * tilesize / 256] pixels wide and [height * tilesize /
    256] pixels high: with tiles of 256 pixels, exactly what was asked for. *)
Theorem centered_raster_has_the_requested_size (width_ height_ : Z)
    (cx cy : Z) :
  1 <= zoom <= 23 ->
  0 < width_ -> width_ * 2 ^ (24 - zoom) < 2 ^ 31 ->
  0 < height_ -> height_ * 2 ^ (24 - zoom) < 2 ^ 31 ->
  width_ * 2 ^ (23 - zoom) <= cx -> cx + width_ * 2 ^ (23 - zoom) < 2 ^ 32 ->
  height_ * 2 ^ (23 - zoom) <= cy ->
  cy + height_ * 2 ^ (23 - zoom) < 2 ^ 32 ->
  0 < tilesize cl -> width_ * tilesize cl < 2 ^ 32 ->
  height_ * tilesize cl < 2 ^ 32 ->
  let r := raster_of wild_shift cl zoom
             (centered_bounds wild_shift atan sinh zoom width_ height_
                (cx, cy) (cx, cy)) in
  width r = width_ * tilesize cl / 256
  /\ height r = height_ * tilesize cl / 256.
Proof.
  intros Hz Hw Hws Hh Hhs Hxlo Hxhi Hylo Hyhi Ht Hwt Hht r.
  unfold r, centered_bounds.
  destruct (tile2latlon wild_shift atan sinh _ _ 32) as [maxlat minlon].
  destruct (tile2latlon wild_shift atan sinh _ _ 32) as [minlat maxlon].
  unfold raster_of. cbn [width height x1 x2 y1 y2].
  destruct (centered_axis width_ cx Hz Hw Hws Hxlo Hxhi) as [-> _].
  destruct (centered_axis height_ cy Hz Hh Hhs Hylo Hyhi) as [-> _].
  assert (H32 : 2 ^ 24 * 256 = 2 ^ 32) by reflexivity.
  assert (H31 : 2 ^ 24 < 2 ^ 31) by reflexivity.
  rewrite !u32_small by nia.
  assert (Hq : forall z, 0 <= z < 2 ^ 32 -> C.s32 (z / 256) = z / 256).
  { intros z Hz'. apply s32_small.
    assert (0 <= z / 256 < 2 ^ 24)
      by (split; [apply Z.div_pos; lia|apply Z.div_lt_upper_bound; lia]).
    lia. }
  rewrite !Hq by nia. done.
Qed.

End Centered.

Lemma centered_raster_has_the_requested_size_witness :
  width (raster_of Standin.zero2 small_centered_cmdline 14
           (centered_bounds Standin.zero2 Standin.atan Standin.sinh 14 40 10
              (2147483648, 2147483648) (2147483648, 2147483648)))
  = 40 * tilesize small_centered_cmdline / 256
  /\ height (raster_of Standin.zero2 small_centered_cmdline 14
               (centered_bounds Standin.zero2 Standin.atan Standin.sinh 14
                  40 10 (2147483648, 2147483648) (2147483648, 2147483648)))
     = 10 * tilesize small_centered_cmdline / 256.
Proof.
  apply (centered_raster_has_the_requested_size Standin.zero2 Standin.atan
           Standin.sinh small_centered_cmdline 14 40 10 2147483648
           2147483648); vm_compute; try split; congruence.
Defined.

(** ** The order of the transfers *)

Lemma fetches_bind {A B : Type} (m : run A) (f : A -> run B)
    (e1 e2 : list event) :
  fetches m e1 -> (forall a, fetches (f a) e2) ->
  fetches (m ≫= f) (e1 ++ e2).
Proof.
  destruct m as [t [a| |]]; intros [Hp He] Hcont;
    unfold fetches, mbind, run_bind in *; cbn [fst snd] in *.
  - specialize (Hcont a). destruct (f a) as [t' o']. cbn [fst snd] in *.
    destruct Hcont as [Hp' He']. rewrite List.filter_app, (He a eq_refl).
    split.
    + by apply prefix_app.
    + intros b' ->. by rewrite (He' b').
  - split; [by apply prefix_app_r|discriminate].
  - split; [by apply prefix_app_r|discriminate].
Qed.

Lemma fetches_for_each {I St : Type} (body : I -> St -> run St)
    (g : I -> list event) (idx : list I) (s : St) :
  (forall k s, fetches (body k s) (g k)) ->
  fetches (for_each body idx s) (idx ≫= g).
Proof.
  intros Hbody. revert s. induction idx as [|k idx IH]; intros s.
  - split; [done|reflexivity].
  - cbn [for_each]. apply fetches_bind; [apply Hbody|exact IH].
Qed.

Section Requests.

Variable wild_uchar : float -> Z.
Variable fetch : string -> Z -> Z -> Z -> option (list Z).
Variables read_png read_jpeg : list Z -> option image.

Lemma fetches_stitch_source (cl : cmdline) (zoom : Z) (r : raster)
    (tx ty : Z) (source : string) (buf : list Z) :
  fetches (stitch_source wild_uchar fetch read_png read_jpeg cl zoom r tx ty
             source buf)
          [Fetch source zoom tx ty].
Proof.
  assert (Hnone : forall A (m : run A),
             List.filter is_fetch m.1 = [] -> fetches m []).
  { intros A m Hm. split; [by rewrite Hm|]. intros a _. exact Hm. }
  unfold stitch_source.
  apply (fetches_bind _ _ [Fetch source zoom tx ty] []);
    [by split|]. intros _.
  destruct (fetch source zoom tx ty) as [data|]; [|by apply Hnone].
  unfold handle_data.
  assert (Himg : forall i xoff yoff,
             fetches (handle_image wild_uchar cl r xoff yoff i buf) []).
  { intros i xoff yoff. apply Hnone. unfold handle_image.
    destruct i as [i|]; [|reflexivity].
    destruct (_ || _); [reflexivity|].
    by destruct (place_tile _ _ _ _ _ _ _). }
  destruct (is_png data); [apply Himg|].
  destruct (is_jpeg data); [apply Himg|]. by apply Hnone.
Qed.


End Requests.


(** ** The size of a pixel *)

Lemma sign_clear_round_aux (mx ex : Z) (lx : location) :
  sign_clear (binary_round_aux prec emax false mx ex lx).
Proof.
  unfold binary_round_aux.
  destruct (shr_fexp prec emax mx ex lx) as [mrs' e'].
  destruct (shr_fexp prec emax _ e' loc_Exact) as [mrs'' e''].
  destruct (shr_m mrs''); [reflexivity| |exact I].
  by destruct (_ <=? _).
Qed.

Lemma sign_clear_of_Z (z : Z) :
  0 <= z < 2 ^ 63 -> sign_clear (Prim2SF (Dbl.of_Z z)).
Proof.
  intros Hz. unfold Dbl.of_Z.
  destruct (Z.ltb_spec (Z.abs z) (2 ^ 63)); [|lia].
  destruct (Z.ltb_spec z 0); [lia|].
  rewrite FloatAxioms.of_uint63_spec. unfold binary_normalize.
  pose proof (Uint63.to_Z_bounded (Uint63.of_Z z)) as Hb.
  destruct (φ (Uint63.of_Z z))%uint63 as [|m|m]; [reflexivity| |lia].
  unfold binary_round. destruct (shl_align _ _ _).
  apply sign_clear_round_aux.
Qed.

Lemma sign_clear_div (x y : spec_float) :
  sign_clear x -> sign_clear y -> sign_clear (SF64div x y).
Proof.
  unfold SF64div, SFdiv.
  destruct x as [sx|sx| |sx mx ex], y as [sy|sy| |sy my ey]; cbn;
    try done; try (by intros -> ->).
  intros -> ->. destruct (SFdiv_core_binary _ _ _ _ _ _) as [[mz ez] lz].
  apply sign_clear_round_aux.
Qed.

Lemma sign_clear_abs (x : spec_float) : sign_clear (SFabs x).
Proof. by destruct x. Qed.

Lemma sign_clear_leb (f : float) :
  sign_clear (Prim2SF f) -> is_nan f = false ->
  (0 <=? f)%float = true /\ (- f <=? 0)%float = true.
Proof.
  intros Hs Hnan. apply Prim2SF_not_nan in Hnan.
  rewrite !FloatAxioms.leb_spec, FloatAxioms.opp_spec.
  change (Prim2SF 0) with (S754_zero false).
  destruct (Prim2SF f) as [s|s| |s m e]; cbn in Hs; subst; done.
Qed.

Section Pixel_size.

Variable wild_shift : Z -> Z -> Z.
Variables log tan : float -> float.

(** X14.  The height of a pixel handed to the GeoTIFF and, negated, to the world
    file is never negative: it is the quotient of an absolute value by a height
    that lines 406-407 never make negative. (It is a NaN when the projection
    gives one, and for a canvas one of whose corners projects to itself and
    which has no rows.) *)
Theorem pixel_height_is_not_negative (cl : cmdline) (zoom : Z)
    (b : bounds) :
  let g := georeference_of log tan b (raster_of wild_shift cl zoom b) in
  is_nan (py g) = false ->
  (0 <=? py g)%float = true
  /\ forall v, wfvals g !! 3%nat = Some v -> (v <=? 0)%float = true.
Proof.
  intros g Hnan.
  assert (Hs : sign_clear (Prim2SF (py g))).
  { unfold g, georeference_of.
    destruct (projectlatlon log tan (minlat b) (minlon b)) as [x0 y0].
    destruct (projectlatlon log tan (maxlat b) (maxlon b)) as [x1 y1].
    cbn [py]. rewrite FloatAxioms.div_spec, FloatAxioms.abs_spec.
    apply sign_clear_div; [apply sign_clear_abs|].
    apply sign_clear_of_Z.
    destruct (raster_size_range wild_shift cl zoom b) as [_ Hh].
    assert (2 ^ 24 < 2 ^ 63) by reflexivity. lia. }
  destruct (sign_clear_leb (py g) Hs Hnan) as [H0 H1].
  split; [exact H0|]. intros v [= <-]. exact H1.
Qed.

End Pixel_size.

Lemma pixel_height_is_not_negative_witness :
  (0 <=? py (georeference_of Standin.log Standin.tan half_world_bounds
               (raster_of Standin.zero2 half_world_cmdline 14
                  half_world_bounds)))%float = true
  /\ forall v,
       wfvals (georeference_of Standin.log Standin.tan half_world_bounds
                 (raster_of Standin.zero2 half_world_cmdline 14
                    half_world_bounds)) !! 3%nat = Some v ->
       (v <=? 0)%float = true.
Proof.
  apply (pixel_height_is_not_negative Standin.zero2 Standin.log Standin.tan
           half_world_cmdline 14 half_world_bounds).
  vm_compute. reflexivity.
Defined.

(** ** A complete run *)

Lemma bind_Ret {A B : Type} (t : list event) (a : A) (f : A -> run B) :
  ((t, Ret a) : run A) ≫= f = (t ++ (f a).1, (f a).2).
Proof. unfold mbind, run_bind. by destruct (f a). Qed.

Lemma bind_singletons {A B : Type} (f : A -> B) (l : list A) :
  l ≫= (fun x => [f x]) = f <$> l.
Proof. induction l as [|x l IH]; [reflexivity|]. cbn. by rewrite IH. Qed.

Lemma for_each_trace {I St : Type} (Inv : St -> Prop)
    (body : I -> St -> run St) (g : I -> list event) (idx : list I) :
  (forall k s, k ∈ idx -> Inv s ->
     exists s', body k s = (g k, Ret s') /\ Inv s') ->
  forall s, Inv s ->
    exists s', for_each body idx s = (idx ≫= g, Ret s') /\ Inv s'.
Proof.
  induction idx as [|k idx IH]; intros Hbody s Hs.
  - by exists s.
  - destruct (Hbody k s) as (s1 & Hk & Hs1); [apply list_elem_of_here|done|].
    destruct (IH (fun k' s' Hk' => Hbody k' s' (list_elem_of_further _ _ _ Hk'))
                s1 Hs1) as (s' & Hrun & Hs').
    exists s'. cbn [for_each]. rewrite Hk, bind_Ret, Hrun. by split.
Qed.

Section Complete_run.

Variable wild_uchar : float -> Z.
Variable wild_uint : float -> Z.
Variable wild_shift : Z -> Z -> Z.
Variables log tan cos atan sinh : float -> float.
Variable fetch : string -> Z -> Z -> Z -> option (list Z).
Variables read_png read_jpeg : list Z -> option image.
Variable cl : cmdline.
Variable file : string.
Variable b : bounds.
Variable tile : string -> Z -> Z -> image.

Local Abbreviation zoom := (atoi (argv4 cl)).
Local Abbreviation r := (raster_of wild_shift cl zoom b).
Local Abbreviation unit := (fun x => shr_u32 wild_shift x (32 - (zoom + 8))).
Local Abbreviation xoff :=
  (fun tx => C.s32 ((tx - tx1 r) * tilesize cl - xa r)).
Local Abbreviation yoff :=
  (fun ty => C.s32 ((ty - ty1 r) * tilesize cl - ya r)).

Hypothesis some_source : sources cl <> [].
Hypothesis zoom_range : 1 <= zoom <= 24.
Hypothesis to_file : outfile cl = Some file.
Hypothesis no_elevation : elevation cl = false.
Hypothesis resolved :
  resolve wild_uint wild_shift log tan cos atan sinh cl zoom
    (order_bounds (atof (argv0 cl)) (atof (argv1 cl))
                  (atof (argv2 cl)) (atof (argv3 cl)))
  = ([], Ret b).
Hypothesis tilesize_range : 0 < tilesize cl < 2 ^ 24.
Hypothesis x_ordered : 0 <= x1 b <= x2 b.
Hypothesis y_ordered : 0 <= y1 b <= y2 b.
Hypothesis width_fits :
  (unit (x2 b) - unit (x1 b)) * tilesize cl < 2 ^ 32.
Hypothesis height_fits :
  (unit (y2 b) - unit (y1 b)) * tilesize cl < 2 ^ 32.
Hypothesis not_too_big : width r * height r <= 10000 * 10000.
Hypothesis tiles :
  forall source tx ty,
    source ∈ sources cl -> tx1 r <= tx <= tx2 r -> ty1 r <= ty <= ty2 r ->
    (exists data, fetch source zoom tx ty = Some data
                  /\ decoded read_png read_jpeg data
                     = Some (tile source tx ty))
    /\ whole_opaque_tile cl (tile source tx ty).

Lemma stitch_source_trace (tx ty : Z) (source : string) (buf : list Z) :
  source ∈ sources cl -> tx1 r <= tx <= tx2 r -> ty1 r <= ty <= ty2 r ->
  Z.of_nat (length buf) = width r * height r * 4 ->
  exists buf',
    stitch_source wild_uchar fetch read_png read_jpeg cl zoom r tx ty
      source buf
    = ([Fetch source zoom tx ty], Ret buf')
    /\ Z.of_nat (length buf') = width r * height r * 4.
Proof.
  intros Hsrc Htx Hty Hbuf.
  destruct (tiles source tx ty Hsrc Htx Hty)
    as [(data & Hfetch & Hdec) (Hw & Hh & Hd & H4 & Hsize)].
  destruct (place_tile_total wild_uchar (width r) (height r)
              (tile source tx ty) (xoff tx) (yoff ty) buf Hd H4 Hsize Hbuf)
    as (buf' & Hplace & Hlen).
  exists buf'. split; [|by rewrite Hlen].
  unfold stitch_source. rewrite Hfetch. unfold handle_data, decoded in *.
  assert (Himg : forall i,
             i = Some (tile source tx ty) ->
             handle_image wild_uchar cl r (xoff tx) (yoff ty) i buf
             = ([], Ret buf')).
  { intros i ->. unfold handle_image. rewrite Hw, Hh, Z.eqb_refl.
    cbn [negb orb]. by rewrite Hplace. }
  destruct (is_png data); [by rewrite Himg|].
  destruct (is_jpeg data); [by rewrite Himg|discriminate].
Qed.

Lemma assemble_trace (buf : list Z) :
  Z.of_nat (length buf) = width r * height r * 4 ->
  exists buf',
    assemble wild_uchar fetch read_png read_jpeg cl zoom r buf
    = (requests cl zoom r, Ret buf').
Proof.
  intros Hbuf.
  set (Inv := fun s : list Z =>
                Z.of_nat (length s) = width r * height r * 4).
  destruct (for_each_trace Inv
              (fun tx =>
                 for_each (fun ty buf =>
                   for_each (stitch_source wild_uchar fetch read_png
                               read_jpeg cl zoom r tx ty) (sources cl) buf)
                   (seqZ (ty1 r) (ty2 r - ty1 r + 1)))
              (fun tx =>
                 ty ← seqZ (ty1 r) (ty2 r - ty1 r + 1);
                 (fun source => Fetch source zoom tx ty) <$> sources cl)
              (seqZ (tx1 r) (tx2 r - tx1 r + 1))) with (s := buf)
    as (buf' & Hrun & _); [|exact Hbuf|by exists buf'].
  intros tx s Htx Hs. apply (for_each_trace Inv); [|exact Hs].
  intros ty s1 Hty Hs1.
  rewrite <- bind_singletons.
  apply (for_each_trace Inv); [|exact Hs1].
  intros source s2 Hsrc Hs2. apply elem_of_seqZ in Htx, Hty.
  apply stitch_source_trace; [done|lia..|exact Hs2].
Qed.


End Complete_run.

